(** * Telnet video stream server (app.js): a shallow embedding and its properties

    The development follows the layout of [app.js]: configuration and
    telnet constants, the utilities ([clampInt], [computeFit], [parseNAWS],
    [textFromTelnet], [shouldQuit]), the renderers ([LUT], [renderAscii],
    [renderTruecolor], [rgbToGray]), the ffmpeg playlist ([playNext], the
    stdout and close handlers) and the per-socket data handler.

    JavaScript numbers are IEEE-754 binary64 values.  Numbers that the
    program only ever uses as integers (sizes, indices, bytes) are kept as
    [Z]; a number that may also be NaN or an infinity is a [jsnum]; the
    aspect-ratio arithmetic of [computeFit], which rounds, is carried out on
    [spec_float] with the binary64 operations of the standard library. *)

From Stdlib Require Import ZArith List Bool Lia String Ascii DecimalString.
From Stdlib Require Import Strings.Byte Zbitwise.
From Stdlib Require Import Floats.SpecFloat.
Import ListNotations.

#[local] Open Scope Z_scope.

(** ** JavaScript numbers *)

Module JS.

(** binary64: 53 bits of precision, infinities at exponent 1024. *)
Definition prec : Z := 53.
Definition emax : Z := 1024.

Definition fdiv : spec_float -> spec_float -> spec_float := SFdiv prec emax.
Definition fmul : spec_float -> spec_float -> spec_float := SFmul prec emax.

(** The double nearest to an integer (exact below 2^53). *)
Definition of_Z (z : Z) : spec_float := binary_normalize prec emax z 0 false.

(** An integer-valued double, an infinity, or NaN.  [JInt 0] stands for both
    zeros: no operation used here tells them apart.  Sums, differences and
    products of [JInt]s are the integer ones, as they are on doubles up to
    2^53; quotients go through [fdiv], which rounds as binary64 does. *)
Inductive jsnum : Type :=
  | JInt (z : Z)
  | JInf (neg : bool)
  | JNaN.

Definition to_float (n : jsnum) : spec_float :=
  match n with
  | JInt z => of_Z z
  | JInf s => S754_infinity s
  | JNaN => S754_nan
  end.

(** [Math.floor]: the mantissa [m] scaled by [2^e], rounded towards minus
    infinity ([Z.shiftl] by a negative amount is the flooring right shift). *)
Definition Math_floor (x : spec_float) : jsnum :=
  match x with
  | S754_zero _ => JInt 0
  | S754_infinity s => JInf s
  | S754_nan => JNaN
  | S754_finite s m e => JInt (Z.shiftl (cond_Zopp s (Zpos m)) e)
  end.

(** [a < b] on numbers: false as soon as one side is NaN. *)
Definition lt (a b : jsnum) : bool :=
  match a, b with
  | JNaN, _ | _, JNaN => false
  | JInt x, JInt y => x <? y
  | JInt _, JInf s => negb s
  | JInf s, JInt _ => s
  | JInf s, JInf s' => s && negb s'
  end.

Definition gt (a b : jsnum) : bool := lt b a.

(** [Math.min(a, b)]. *)
Definition Math_min (a b : jsnum) : jsnum :=
  match a, b with
  | JNaN, _ | _, JNaN => JNaN
  | _, _ => if lt b a then b else a
  end.

(** [a - b]. *)
Definition sub (a b : jsnum) : jsnum :=
  match a, b with
  | JNaN, _ | _, JNaN => JNaN
  | JInt x, JInt y => JInt (x - y)
  | JInt _, JInf s => JInf (negb s)
  | JInf s, JInt _ => JInf s
  | JInf s, JInf s' => if Bool.eqb s s' then JNaN else JInf s
  end.

(** [a + b]. *)
Definition add (a b : jsnum) : jsnum :=
  match a, b with
  | JNaN, _ | _, JNaN => JNaN
  | JInt x, JInt y => JInt (x + y)
  | JInt _, JInf s => JInf s
  | JInf s, JInt _ => JInf s
  | JInf s, JInf s' => if Bool.eqb s s' then JInf s else JNaN
  end.

(** [a * b]. *)
Definition mul (a b : jsnum) : jsnum :=
  match a, b with
  | JNaN, _ | _, JNaN => JNaN
  | JInt x, JInt y => JInt (x * y)
  | JInt x, JInf s | JInf s, JInt x =>
      if x =? 0 then JNaN else JInf (xorb s (x <? 0))
  | JInf s, JInf s' => JInf (xorb s s')
  end.

(** [Math.floor(a / b)] *)
Definition floor_div (a b : jsnum) : jsnum :=
  Math_floor (fdiv (to_float a) (to_float b)).

(** [x | 0] on an integer-valued number: reduction to a signed 32-bit
    integer. *)
Definition to_int32 (z : Z) : Z := (z + 2 ^ 31) mod 2 ^ 32 - 2 ^ 31.

(** Truthiness of a number: [0] and NaN are falsy. *)
Definition truthy (n : jsnum) : bool :=
  match n with
  | JInt z => negb (z =? 0)
  | JInf _ => true
  | JNaN => false
  end.

End JS.

Import JS.

(** ** Settings *)

Record config : Type := {
  baseW : Z;
  baseH : Z;
  chars : string;
  charAspect : spec_float;
  dropIfBufferedOver : Z;
  quitKeys : list string;
}.

(** The settings of [CFG] with the command line's defaults. *)
Definition CFG_default : config := {|
  baseW := 240;
  baseH := 135;
  chars := " .:-=+*#%@";
  charAspect := of_Z 2;
  dropIfBufferedOver := 1024 * 1024;
  quitKeys := ["q"; "Q"]%string;
|}.

(** The same settings with [-w] and [-h] given. *)
Definition CFG_with (w h : Z) : config := {|
  baseW := w;
  baseH := h;
  chars := chars CFG_default;
  charAspect := charAspect CFG_default;
  dropIfBufferedOver := dropIfBufferedOver CFG_default;
  quitKeys := quitKeys CFG_default;
|}.

Definition MODE_DEFAULT : Z := 2.

(** ** Utilities *)

Definition clampInt (n lo hi : jsnum) : jsnum :=
  if lt n lo then lo else if gt n hi then hi else n.

Record fit : Type := {
  dstW : jsnum;
  dstH : jsnum;
  outW : jsnum;
  outH : jsnum;
  padX : jsnum;
  padY : jsnum;
}.

Section Fit.

Variable CFG : config.

Definition targetHOverW : spec_float :=
  fdiv (fdiv (of_Z (baseH CFG)) (of_Z (baseW CFG))) (charAspect CFG).

Definition computeFit (cols rows : Z) : fit :=
  let dstW := clampInt (JInt (to_int32 cols)) (JInt 1) (JInt 10000) in
  let dstH := clampInt (JInt (to_int32 rows - 1)) (JInt 1) (JInt 10000) in
  let maxWByH := Math_floor (fdiv (to_float dstH) targetHOverW) in
  let outW := clampInt (Math_min dstW maxWByH) (JInt 1) dstW in
  let outH :=
    clampInt (Math_min dstH (Math_floor (fmul (to_float outW) targetHOverW)))
             (JInt 1) dstH in
  let padX := floor_div (sub dstW outW) (JInt 2) in
  let padY := floor_div (sub dstH outH) (JInt 2) in
  {| dstW := dstW; dstH := dstH; outW := outW; outH := outH;
     padX := padX; padY := padY |}.

End Fit.


(** ** Telnet + ANSI *)

Definition ESC : string := String (ascii_of_nat 27) EmptyString.
Definition NL : string := String (ascii_of_nat 10) EmptyString.

Module TELNET.
Definition IAC : Z := 255.
Definition DO : Z := 253.
Definition SB : Z := 250.
Definition SE : Z := 240.
Definition NAWS : Z := 31.
End TELNET.

(** The value of a byte, 0..255. *)
Definition byte_val (b : byte) : Z := Z.of_N (Byte.to_N b).

(** The byte of value [z mod 256]: what storing a number into a [Buffer]
    keeps. *)
Definition byte_of (z : Z) : byte :=
  match Byte.of_N (Z.to_N (z mod 256)) with
  | Some b => b
  | None => x00
  end.

Definition Buffer_from (l : list Z) : list byte := map byte_of l.

(** [data[i] === v] on a [Buffer]: out of range reads [undefined], which is
    no number. *)
Definition byte_is (data : list byte) (i : nat) (v : Z) : bool :=
  match nth_error data i with
  | Some b => byte_val b =? v
  | None => false
  end.

(** [data.readUInt16BE(off)]: [None] stands for the [RangeError] thrown
    when fewer than two bytes remain at [off]. *)
Definition readUInt16BE (data : list byte) (off : nat) : option Z :=
  match nth_error data off, nth_error data (S off) with
  | Some hi, Some lo => Some (byte_val hi * 256 + byte_val lo)
  | _, _ => None
  end.

(** What is written to a socket. *)
Inductive chunk : Type :=
  | Text (s : string)
  | Bytes (b : list byte).

(** The properties the program keeps on a socket.  [cols] and [rows] are
    [undefined] ([None]) until a negotiation sets them; [written] is what
    has been passed to [write], oldest first. *)
Record socket : Type := {
  sock_id : nat;
  cols : option Z;
  rows : option Z;
  mode : Z;
  destroyed : bool;
  ended : bool;
  writableLength : Z;
  written : list chunk;
}.

Definition set_geometry (sock : socket) (w h : Z) : socket :=
  {| sock_id := sock_id sock; cols := Some w; rows := Some h;
     mode := mode sock; destroyed := destroyed sock; ended := ended sock;
     writableLength := writableLength sock; written := written sock |}.

Definition set_mode (sock : socket) (m : Z) : socket :=
  {| sock_id := sock_id sock; cols := cols sock; rows := rows sock;
     mode := m; destroyed := destroyed sock; ended := ended sock;
     writableLength := writableLength sock; written := written sock |}.

(** [sock.write(c)]: the chunk joins the log.  [writableLength] belongs
    to the runtime, which raises it by what a write leaves pending and
    lowers it as the bytes leave; the field stands for the value the
    program last read, so it is read at most once per socket between two
    turns of the event loop, as one broadcast pass does. *)
Definition write (sock : socket) (c : chunk) : socket :=
  {| sock_id := sock_id sock; cols := cols sock; rows := rows sock;
     mode := mode sock; destroyed := destroyed sock; ended := ended sock;
     writableLength := writableLength sock; written := written sock ++ [c] |}.

Definition end_ (sock : socket) : socket :=
  {| sock_id := sock_id sock; cols := cols sock; rows := rows sock;
     mode := mode sock; destroyed := destroyed sock; ended := true;
     writableLength := writableLength sock; written := written sock |}.

Definition destroy (sock : socket) : socket :=
  {| sock_id := sock_id sock; cols := cols sock; rows := rows sock;
     mode := mode sock; destroyed := true; ended := ended sock;
     writableLength := writableLength sock; written := written sock |}.

(** A socket as the connection handler leaves it: no geometry yet, the
    default mode. *)
Definition new_socket (id : nat) : socket :=
  {| sock_id := id; cols := None; rows := None; mode := MODE_DEFAULT;
     destroyed := false; ended := false; writableLength := 0;
     written :=
       [Bytes (Buffer_from [TELNET.IAC; TELNET.DO; TELNET.NAWS]);
        Text (ESC ++ "[2J" ++ ESC ++ "[H" ++ ESC ++ "[?25l")] |}.

(** The result of a block that may throw: the socket as it stands when the
    block ends, normally or by an exception. *)
Inductive outcome : Type :=
  | Done (sock : socket)
  | Thrown (sock : socket).

(** One turn of the scanning loop of [parseNAWS] at index [i]. *)
Definition parseNAWS_at (data : list byte) (i : nat) (sock : socket) : outcome :=
  if byte_is data i TELNET.IAC && byte_is data (i + 1) TELNET.SB
     && byte_is data (i + 2) TELNET.NAWS
  then
    if negb (byte_is data (i + 7) TELNET.IAC)
       || negb (byte_is data (i + 8) TELNET.SE)
    then Done sock
    else
      match readUInt16BE data (i + 3) with
      | None => Thrown sock
      | Some w =>
          match readUInt16BE data (i + 5) with
          | None => Thrown sock
          | Some h =>
              if (0 <? w) && (0 <? h) then Done (set_geometry sock w h)
              else Done sock
          end
      end
  else Done sock.

(** [for (let i = i0; i + 8 < data.length; i++)], [n] turns left. *)
Fixpoint parseNAWS_loop (data : list byte) (n i : nat) (sock : socket) : outcome :=
  match n with
  | O => Done sock
  | S n' =>
      match parseNAWS_at data i sock with
      | Done sock' => parseNAWS_loop data n' (S i) sock'
      | Thrown sock' => Thrown sock'
      end
  end.

(** The body of the [try]: the loop runs for [i = 0 .. data.length - 9]. *)
Definition parseNAWS_try (sock : socket) (data : list byte) : outcome :=
  parseNAWS_loop data (List.length data - 8) 0 sock.

(** [parseNAWS]: the [catch] swallows whatever the body throws. *)
Definition parseNAWS (sock : socket) (data : list byte) : socket :=
  match parseNAWS_try sock data with
  | Done sock' => sock'
  | Thrown sock' => sock'
  end.

(** ** Text of a chunk

    A JavaScript string is a sequence of UTF-16 code units. *)

Definition jsstring : Type := list Z.

Definition units_of_string (s : string) : jsstring :=
  map (fun c => Z.of_nat (nat_of_ascii c)) (list_ascii_of_string s).

Fixpoint starts_with (p t : jsstring) : bool :=
  match p, t with
  | [], _ => true
  | _ :: _, [] => false
  | x :: p', y :: t' => (x =? y) && starts_with p' t'
  end.

(** [t.includes(p)]: [p] occurs in [t] at some position. *)
Fixpoint includes (t p : jsstring) : bool :=
  starts_with p t ||
  match t with
  | [] => false
  | _ :: t' => includes t' p
  end.

(** [buf.toString("utf8")]: the decoder of the Encoding Standard, which
    replaces every maximal ill-formed subsequence by U+FFFD and reads the
    offending byte again from the initial state. *)
Module Utf8.

Record dstate : Type := {
  needed : nat;
  seen : nat;
  code_point : Z;
  lower : Z;
  upper : Z;
}.

Definition init : dstate :=
  {| needed := 0; seen := 0; code_point := 0; lower := 0x80; upper := 0xBF |}.

Definition REPLACEMENT : Z := 0xFFFD.

(** The code units of a code point: itself, or a surrogate pair. *)
Definition units (c : Z) : jsstring :=
  if c <? 0x10000 then [c]
  else [0xD800 + Z.shiftr (c - 0x10000) 10; 0xDC00 + Z.land (c - 0x10000) 0x3FF].

(** A byte read when no sequence is open. *)
Definition start (b : Z) : jsstring * dstate :=
  if b <=? 0x7F then ([b], init)
  else if (0xC2 <=? b) && (b <=? 0xDF) then
    ([], {| needed := 1; seen := 0; code_point := Z.land b 0x1F;
            lower := 0x80; upper := 0xBF |})
  else if (0xE0 <=? b) && (b <=? 0xEF) then
    ([], {| needed := 2; seen := 0; code_point := Z.land b 0xF;
            lower := if b =? 0xE0 then 0xA0 else 0x80;
            upper := if b =? 0xED then 0x9F else 0xBF |})
  else if (0xF0 <=? b) && (b <=? 0xF4) then
    ([], {| needed := 3; seen := 0; code_point := Z.land b 0x7;
            lower := if b =? 0xF0 then 0x90 else 0x80;
            upper := if b =? 0xF4 then 0x8F else 0xBF |})
  else ([REPLACEMENT], init).

Definition step (st : dstate) (b : Z) : jsstring * dstate :=
  match needed st with
  | O => start b
  | S _ =>
      if (lower st <=? b) && (b <=? upper st) then
        let cp := Z.lor (Z.shiftl (code_point st) 6) (Z.land b 0x3F) in
        if Nat.eqb (S (seen st)) (needed st) then (units cp, init)
        else ([], {| needed := needed st; seen := S (seen st);
                     code_point := cp; lower := 0x80; upper := 0xBF |})
      else
        let '(out, st') := start b in (REPLACEMENT :: out, st')
  end.

Fixpoint run (st : dstate) (bs : list byte) : jsstring :=
  match bs with
  | [] => match needed st with O => [] | S _ => [REPLACEMENT] end
  | b :: bs' => let '(out, st') := step st (byte_val b) in out ++ run st' bs'
  end.

Definition decode (bs : list byte) : jsstring := run init bs.

End Utf8.

Definition textFromTelnet (data : list byte) : jsstring :=
  let filtered := filter (fun b => negb (byte_val b =? TELNET.IAC)) data in
  Utf8.decode filtered.

Section Session.

Variable CFG : config.

Definition shouldQuit (data : list byte) : bool :=
  let text := textFromTelnet data in
  existsb (fun k => includes text (units_of_string k)) (quitKeys CFG).

(** Whether the handler's mode toggle fires on a chunk. *)
Definition shouldToggle (data : list byte) : bool :=
  let text := textFromTelnet data in
  includes text (units_of_string "m") || includes text (units_of_string "M").

(** The socket's ["data"] handler. *)
Definition onData (sock : socket) (data : list byte) : socket :=
  let sock := parseNAWS sock data in
  let sock :=
    if shouldToggle data
    then set_mode sock (if mode sock =? 2 then 1 else 2)
    else sock in
  if shouldQuit data then
    let sock :=
      if negb (destroyed sock) then write sock (Text (ESC ++ "[?25h" ++ NL))
      else sock in
    end_ sock
  else sock.

End Session.

(** ** Loops, strings and buffers of the renderers *)

(** A computation that may not return a value: [None] stands for an
    exception thrown, or for a loop that never ends. *)
Definition bind {A B : Type} (m : option A) (k : A -> option B) : option B :=
  match m with
  | Some a => k a
  | None => None
  end.

Notation "x <- m ;; k" := (bind m (fun x => k))
  (at level 61, m at next level, right associativity).

Fixpoint iterate {A : Type} (n : nat) (i : Z) (body : Z -> A -> option A) (a : A)
  : option A :=
  match n with
  | O => Some a
  | S n' => a' <- body i a ;; iterate n' (i + 1) body a'
  end.

(** [for (let i = 0; i < n; i++) body]: no turn when [n] is NaN, no end when
    [n] is [+Infinity]. *)
Definition for_lt {A : Type} (n : jsnum) (body : Z -> A -> option A) (a : A)
  : option A :=
  match n with
  | JInt z => iterate (Z.to_nat z) 0 body a
  | JInf true | JNaN => Some a
  | JInf false => None
  end.

Fixpoint repeat_string (s : string) (n : nat) : string :=
  match n with
  | O => EmptyString
  | S n' => (s ++ repeat_string s n')%string
  end.

(** [s.repeat(n)]: NaN counts as 0; a negative or infinite count throws a
    [RangeError]. *)
Definition String_repeat (s : string) (n : jsnum) : option string :=
  match n with
  | JInt z => if z <? 0 then None else Some (repeat_string s (Z.to_nat z))
  | JNaN => Some EmptyString
  | JInf _ => None
  end.

(** [buf[i]]: [undefined] ([None]) outside the buffer. *)
Definition buf_get (buf : list byte) (i : jsnum) : option Z :=
  match i with
  | JInt z => if z <? 0 then None else option_map byte_val (nth_error buf (Z.to_nat z))
  | _ => None
  end.

(** [s[i]] on a string. *)
Definition char_at (s : string) (i : jsnum) : option ascii :=
  match i with
  | JInt z => if z <? 0 then None else String.get (Z.to_nat z) s
  | _ => None
  end.

(** The integers [lo], [lo + 1], ..., [n] of them. *)
Definition Zrange (lo : Z) (n : nat) : list Z :=
  map (fun k => lo + Z.of_nat k) (seq 0 n).

(** A pixel component in a template literal: a decimal number, or
    ["undefined"]. *)
Definition show (v : option Z) : string :=
  match v with
  | Some z => NilZero.string_of_int (Z.to_int z)
  | None => "undefined"%string
  end.

Definition value_eqb (a b : option Z) : bool :=
  match a, b with
  | Some x, Some y => x =? y
  | None, None => true
  | _, _ => false
  end.

(** ** Renderers *)

Section Renderers.

Variable CFG : config.

Definition LUT_index (v : Z) : jsnum :=
  floor_div (mul (JInt v) (JInt (Z.of_nat (String.length (chars CFG)) - 1)))
            (JInt 255).

Definition LUT : list (option ascii) :=
  map (fun v => char_at (chars CFG) (LUT_index v)) (Zrange 0 256).

(** [LUT[g]] appended to a string: the ramp character, or ["undefined"]. *)
Definition LUT_text (g : option Z) : string :=
  match g with
  | Some v =>
      match nth_error LUT (Z.to_nat v) with
      | Some (Some c) => String c EmptyString
      | _ => "undefined"%string
      end
  | None => "undefined"%string
  end.

Definition renderAscii (grayFrame : list byte) (cols rows : Z) : option string :=
  let f := computeFit CFG cols rows in
  spaces <- String_repeat " " (dstW f) ;;
  let blank := (spaces ++ NL)%string in
  let out := (ESC ++ "[H")%string in
  out <- for_lt (padY f) (fun _ out => Some (out ++ blank)%string) out ;;
  out <- for_lt (outH f) (fun oy out =>
    let sy := floor_div (mul (JInt oy) (JInt (baseH CFG))) (outH f) in
    let srcRow := mul sy (JInt (baseW CFG)) in
    line <- (if truthy (padX f) then String_repeat " " (padX f)
             else Some EmptyString) ;;
    line <- for_lt (outW f) (fun ox line =>
      let sx := floor_div (mul (JInt ox) (JInt (baseW CFG))) (outW f) in
      Some (line ++ LUT_text (buf_get grayFrame (add srcRow sx)))%string) line ;;
    let rightPad := sub (sub (dstW f) (padX f)) (outW f) in
    line <- (if gt rightPad (JInt 0)
             then pad <- String_repeat " " rightPad ;; Some (line ++ pad)%string
             else Some line) ;;
    Some (out ++ (line ++ NL))%string) out ;;
  let bottom := sub (sub (dstH f) (padY f)) (outH f) in
  for_lt bottom (fun _ out => Some (out ++ blank)%string) out.

(** The state of the inner loop of [renderTruecolor]: the line so far and
    the colour last emitted. *)
Record run_state : Type := {
  line : string;
  curR : option Z;
  curG : option Z;
  curB : option Z;
}.

Definition renderTruecolor (rgbFrame : list byte) (cols rows : Z) : option string :=
  let f := computeFit CFG cols rows in
  spaces <- String_repeat " " (dstW f) ;;
  let blank := (spaces ++ NL)%string in
  let out := (ESC ++ "[H")%string in
  out <- for_lt (padY f) (fun _ out => Some (out ++ blank)%string) out ;;
  out <- for_lt (outH f) (fun oy out =>
    let sy := floor_div (mul (JInt oy) (JInt (baseH CFG))) (outH f) in
    line0 <- (if truthy (padX f) then String_repeat " " (padX f)
              else Some EmptyString) ;;
    st <- for_lt (outW f) (fun ox st =>
      let sx := floor_div (mul (JInt ox) (JInt (baseW CFG))) (outW f) in
      let i := mul (add (mul sy (JInt (baseW CFG))) sx) (JInt 3) in
      let r := buf_get rgbFrame i in
      let g := buf_get rgbFrame (add i (JInt 1)) in
      let b := buf_get rgbFrame (add i (JInt 2)) in
      let st :=
        if negb (value_eqb r (curR st)) || negb (value_eqb g (curG st))
           || negb (value_eqb b (curB st))
        then {| line := (line st ++ (ESC ++ "[48;2;" ++ show r ++ ";" ++ show g
                                         ++ ";" ++ show b ++ "m"))%string;
                curR := r; curG := g; curB := b |}
        else st in
      Some {| line := (line st ++ " ")%string; curR := curR st; curG := curG st;
              curB := curB st |})
      {| line := line0; curR := Some (-1); curG := Some (-1);
         curB := Some (-1) |} ;;
    let line := (line st ++ (ESC ++ "[0m"))%string in
    let rightPad := sub (sub (dstW f) (padX f)) (outW f) in
    line <- (if gt rightPad (JInt 0)
             then pad <- String_repeat " " rightPad ;; Some (line ++ pad)%string
             else Some line) ;;
    Some (out ++ (line ++ NL))%string) out ;;
  let bottom := sub (sub (dstH f) (padY f)) (outH f) in
  for_lt bottom (fun _ out => Some (out ++ blank)%string) out.

(** [(54 * r + 183 * g + 19 * b) >> 8]; with a component [undefined] the
    sum is NaN, which [>>] turns into 0. *)
Definition luma (r g b : option Z) : Z :=
  match r, g, b with
  | Some r, Some g, Some b => Z.shiftr (54 * r + 183 * g + 19 * b) 8
  | _, _, _ => 0
  end.

(** [Buffer.allocUnsafe(n)] throws on a negative size. *)
Definition rgbToGray (rgbFrame : list byte) : option (list byte) :=
  let n := baseW CFG * baseH CFG in
  if n <? 0 then None
  else
    Some (map (fun i =>
                 let j := 3 * i in
                 byte_of (luma (buf_get rgbFrame (JInt j))
                               (buf_get rgbFrame (JInt (j + 1)))
                               (buf_get rgbFrame (JInt (j + 2)))))
              (Zrange 0 (Z.to_nat n))).

Definition renderFrameForClient (rgbFrame : list byte) (cols rows mode : Z)
  : option string :=
  if mode =? 2 then renderTruecolor rgbFrame cols rows
  else gray <- rgbToGray rgbFrame ;; renderAscii gray cols rows.

End Renderers.

(** ** ffmpeg playlist, frame reassembly and broadcast *)

(** [!x] for a property holding [undefined] or a number. *)
Definition falsy (x : option Z) : bool :=
  match x with
  | None => true
  | Some z => z =? 0
  end.

(** The process-wide variables: the [clients] set (in insertion order, the
    order a [Set] is iterated in), [currentIndex], the child [ff] (the
    serial number of the running ffmpeg), [leftover], [shuttingDown] and
    [switching]; [spawned] lists the videos handed to [startFfmpeg], oldest
    first, and [closed] the sockets destroyed by a broadcast. *)
Record server : Type := {
  clients : list socket;
  currentIndex : nat;
  ff : option nat;
  leftover : list byte;
  shuttingDown : bool;
  switching : bool;
  spawned : list (option string);
  closed : list socket;
}.

Section Stream.

Variable CFG : config.

(** [PLAYLIST]: [getVideoList] leaves the process when it would be empty. *)
Variable PLAYLIST : list string.

(** Whether rendering for, or writing to, the socket with a given id throws
    in the runtime (a string beyond the engine's limit, a failing stream). *)
Variable io_throws : nat -> bool.

Definition bytesPerFrame : Z := baseW CFG * baseH CFG * 3.

(** The three [continue] guards of the broadcast loop. *)
Definition skips (c : socket) : bool :=
  destroyed c || (falsy (cols c) || falsy (rows c))
  || (dropIfBufferedOver CFG <? writableLength c).

(** [renderFrameForClient(frame, c.cols, c.rows, c.mode ?? MODE_DEFAULT)]
    followed by [c.write(rendered)]; [None] when either throws. *)
Definition render_and_write (frame : list byte) (c : socket) : option socket :=
  match cols c, rows c with
  | Some w, Some h =>
      if io_throws (sock_id c) then None
      else
        rendered <- renderFrameForClient CFG frame w h (mode c) ;;
        Some (write c (Text rendered))
  | _, _ => None
  end.

(** One turn of [for (const c of clients)]: the registry and the destroyed
    sockets so far, then the socket visited. *)
Definition visit (frame : list byte) (acc : list socket * list socket) (c : socket)
  : list socket * list socket :=
  let '(kept, gone) := acc in
  if skips c then (kept ++ [c], gone)
  else
    match render_and_write frame c with
    | Some c' => (kept ++ [c'], gone)
    | None => (kept, gone ++ [destroy c])
    end.

(** One broadcast pass: the registry after it, and the sockets it
    destroyed and removed. *)
Definition broadcast (frame : list byte) (cs : list socket)
  : list socket * list socket :=
  fold_left (visit frame) cs ([], []).

(** [while (data.length >= bytesPerFrame)]: each turn slices one frame off
    the front and hands it to [on_frame]; [fuel] bounds the turns. *)
Fixpoint frames_loop {St : Type} (on_frame : list byte -> St -> St)
    (fuel : nat) (data : list byte) (s : St) : option (list byte * St) :=
  if bytesPerFrame <=? Z.of_nat (List.length data) then
    match fuel with
    | O => None
    | S fuel' =>
        let frame := firstn (Z.to_nat bytesPerFrame) data in
        let data := skipn (Z.to_nat bytesPerFrame) data in
        frames_loop on_frame fuel' data (on_frame frame s)
    end
  else Some (data, s).

(** The body of the stdout ["data"] handler over any per-frame action.
    With [bytesPerFrame <= 0] the loop never ends: [None]. *)
Definition on_chunk {St : Type} (on_frame : list byte -> St -> St)
    (leftover chunk : list byte) (s : St) : option (list byte * St) :=
  let data :=
    if (0 <? Z.of_nat (List.length leftover))
    then leftover ++ chunk else chunk in
  if bytesPerFrame <=? 0 then None
  else frames_loop on_frame (List.length data) data s.

(** The frames a chunk makes the handler yield, oldest first. *)
Definition demux (leftover chunk : list byte)
  : option (list byte * list (list byte)) :=
  on_chunk (fun frame frames => frames ++ [frame]) leftover chunk [].

(** Feeding chunks one after the other, the carry-over threaded through. *)
Fixpoint demux_all (leftover : list byte) (chunks : list (list byte))
  : option (list byte * list (list byte)) :=
  match chunks with
  | [] => Some (leftover, [])
  | c :: chunks' =>
      r <- demux leftover c ;;
      r' <- demux_all (fst r) chunks' ;;
      Some (fst r', snd r ++ snd r')
  end.

Definition with_clients (srv : server) (cs gone : list socket) (l : list byte)
  : server :=
  {| clients := cs; currentIndex := currentIndex srv; ff := ff srv;
     leftover := l; shuttingDown := shuttingDown srv;
     switching := switching srv; spawned := spawned srv;
     closed := closed srv ++ gone |}.

(** [ff.stdout.on("data", ...)]. *)
Definition onStdoutData (srv : server) (chunk : list byte) : option server :=
  r <- on_chunk
         (fun frame acc =>
            let '(cs, gone) := broadcast frame (fst acc) in
            (cs, snd acc ++ gone))
         (leftover srv) chunk (clients srv, []) ;;
  Some (with_clients srv (fst (snd r)) (snd (snd r)) (fst r)).

Definition playNext (srv : server) : server :=
  let video := nth_error PLAYLIST (currentIndex srv) in
  {| clients := clients srv;
     currentIndex := (currentIndex srv + 1) mod List.length PLAYLIST;
     ff := Some (List.length (spawned srv));
     leftover := leftover srv; shuttingDown := shuttingDown srv;
     switching := switching srv; spawned := spawned srv ++ [video];
     closed := closed srv |}.

Definition set_leftover (srv : server) (l : list byte) : server :=
  {| clients := clients srv; currentIndex := currentIndex srv; ff := ff srv;
     leftover := l; shuttingDown := shuttingDown srv;
     switching := switching srv; spawned := spawned srv;
     closed := closed srv |}.

Definition set_switching (srv : server) (b : bool) : server :=
  {| clients := clients srv; currentIndex := currentIndex srv; ff := ff srv;
     leftover := leftover srv; shuttingDown := shuttingDown srv;
     switching := b; spawned := spawned srv; closed := closed srv |}.

(** [ff.on("close", ...)]. *)
Definition onClose (srv : server) : server :=
  let srv := set_leftover srv [] in
  if shuttingDown srv then srv
  else if switching srv then srv
  else
    let srv := set_switching srv true in
    let srv := playNext srv in
    set_switching srv false.

(** The module's top level: the variables as declared, then the first
    [playNext()]. *)
Definition initial : server :=
  playNext {| clients := []; currentIndex := 0; ff := None; leftover := [];
              shuttingDown := false; switching := false; spawned := [];
              closed := [] |}.

(** What the event loop delivers to the decoder's handlers. *)
Inductive event : Type :=
  | StdoutData (chunk : list byte)
  | Close.

Definition handle (srv : server) (e : event) : option server :=
  match e with
  | StdoutData chunk => onStdoutData srv chunk
  | Close => Some (onClose srv)
  end.

Fixpoint run (srv : server) (es : list event) : option server :=
  match es with
  | [] => Some srv
  | e :: es' => srv' <- handle srv e ;; run srv' es'
  end.

End Stream.

(** ** Server: connections, socket events and shutdown *)

(** [clients.add(sock)] and [clients.delete(sock)] on the registry, a [Set]
    of socket objects: [sock_id] stands for the identity of the object, and
    the list keeps the insertion order. *)
Definition Set_add (cs : list socket) (c : socket) : list socket :=
  if existsb (fun x => Nat.eqb (sock_id x) (sock_id c)) cs then cs
  else cs ++ [c].

Definition Set_delete (cs : list socket) (id : nat) : list socket :=
  filter (fun x => negb (Nat.eqb (sock_id x) id)) cs.

Definition set_clients (srv : server) (cs : list socket) : server :=
  {| clients := cs; currentIndex := currentIndex srv; ff := ff srv;
     leftover := leftover srv; shuttingDown := shuttingDown srv;
     switching := switching srv; spawned := spawned srv;
     closed := closed srv |}.

(** What the event loop delivers to the whole server: a connection
    accepted (the new socket object is [id]), a socket's ["data"],
    ["close"] and ["error"] events, the decoder's events, and SIGINT. *)
Inductive server_event : Type :=
  | Connection (id : nat)
  | SockData (id : nat) (data : list byte)
  | SockClose (id : nat)
  | SockError (id : nat)
  | Ffmpeg (e : event)
  | Sigint.

Section Server.

Variable CFG : config.
Variable PLAYLIST : list string.
Variable io_throws : nat -> bool.

(** The callback of [net.createServer]: the socket gets the default mode,
    joins the registry, and is sent the NAWS request and the clear-screen
    sequence. *)
Definition onConnection (srv : server) (id : nat) : server :=
  set_clients srv (Set_add (clients srv) (new_socket id)).

(** The ["data"] handler, run on the socket object [id]. *)
Definition onSockData (srv : server) (id : nat) (data : list byte) : server :=
  set_clients srv
    (map (fun c => if Nat.eqb (sock_id c) id then onData CFG c data else c)
         (clients srv)).

(** The ["close"] and ["error"] handlers of a socket. *)
Definition onSockClose (srv : server) (id : nat) : server :=
  set_clients srv (Set_delete (clients srv) id).

Definition onSockError (srv : server) (id : nat) : server :=
  set_clients srv (Set_delete (clients srv) id).

(** The SIGINT handler up to [process.exit(0)]: the flag is raised and
    every socket not destroyed is sent the cursor-restore sequence. *)
Definition onSigint (srv : server) : server :=
  {| clients :=
       map (fun c => if negb (destroyed c)
                     then write c (Text (ESC ++ "[?25h" ++ NL)) else c)
           (clients srv);
     currentIndex := currentIndex srv; ff := ff srv;
     leftover := leftover srv; shuttingDown := true;
     switching := switching srv; spawned := spawned srv;
     closed := closed srv |}.

Definition serve1 (srv : server) (e : server_event) : option server :=
  match e with
  | Connection id => Some (onConnection srv id)
  | SockData id data => Some (onSockData srv id data)
  | SockClose id => Some (onSockClose srv id)
  | SockError id => Some (onSockError srv id)
  | Ffmpeg e => handle CFG PLAYLIST io_throws srv e
  | Sigint => Some (onSigint srv)
  end.

(** The events of a run, handled one after the other; the process ends
    with the SIGINT handler, so nothing after it is handled. *)
Fixpoint serve (srv : server) (es : list server_event) : option server :=
  match es with
  | [] => Some srv
  | Sigint :: _ => Some (onSigint srv)
  | e :: es' => srv' <- serve1 srv e ;; serve srv' es'
  end.

End Server.
(** ** Playlist: the videos under a directory *)

(** What [fs.readdirSync(dir, { withFileTypes: true })] finds under a name:
    a regular file, a directory with its entries in the order they are
    read, or something else (a symbolic link, a socket, a device), for
    which both [isDirectory()] and [isFile()] are false. *)
#[warnings="-register-all"] Inductive node : Type :=
  | File
  | Directory (entries : list (string * node))
  | Other.

(** [Canonicalize] of a case-insensitive pattern without the [u] flag, on
    the bytes of a name: a small ASCII letter is compared as its capital,
    every other byte as itself. *)
Definition Canonicalize (a : ascii) : ascii :=
  let n := nat_of_ascii a in
  if ((97 <=? n) && (n <=? 122))%nat then ascii_of_nat (n - 32) else a.

(** The alternatives of [(mp4|mkv|webm|mov|avi)], in the pattern's order. *)
Definition VIDEO_EXT : list string := ["mp4"; "mkv"; "webm"; "mov"; "avi"]%string.

(** The literal [p] matched at the head of [s], letter case ignored: what
    follows the match. *)
Fixpoint match_ci (p s : string) : option string :=
  match p, s with
  | EmptyString, _ => Some s
  | String a p', String b s' =>
      if Ascii.eqb (Canonicalize a) (Canonicalize b) then match_ci p' s'
      else None
  | String _ _, EmptyString => None
  end.

(** The pattern [\.(mp4|mkv|webm|mov|avi)$] tried at the head of [s]. *)
Definition match_at (s : string) : bool :=
  match s with
  | String c rest =>
      Ascii.eqb c "."
      && existsb (fun ext => match match_ci ext rest with
                             | Some EmptyString => true
                             | _ => false
                             end) VIDEO_EXT
  | EmptyString => false
  end.

(** [name.match(/\.(mp4|mkv|webm|mov|avi)$/i)] as a condition: the pattern
    is tried at each position of the name, from the left. *)
Fixpoint is_video (name : string) : bool :=
  match_at name
  || match name with
     | String _ rest => is_video rest
     | EmptyString => false
     end.

(** A name with its small ASCII letters turned into capitals. *)
Fixpoint upper (s : string) : string :=
  match s with
  | EmptyString => EmptyString
  | String a s' => String (Canonicalize a) (upper s')
  end.

(** A name that ends in a dot and one of the video extensions, in any
    letter case. *)
Definition video_name (name : string) : Prop :=
  exists base ext e,
    name = (base ++ "." ++ ext)%string
    /\ In e VIDEO_EXT /\ upper ext = upper e.

Section Playlist.

(** [path.join], left abstract. *)
Variable path_join : string -> string -> string.

(** The loop of [collectVideosRecursive] over the entries of [dir], with
    [results] as it stands; [self] is the function itself, called on the
    directories met. *)
Fixpoint collect_entries (self : string -> node -> option (list string))
    (dir : string) (entries : list (string * node)) (results : list string)
    : option (list string) :=
  match entries with
  | [] => Some results
  | (name, entry) :: rest =>
      let fullPath := path_join dir name in
      match entry with
      | Directory _ =>
          sub <- self fullPath entry ;;
          collect_entries self dir rest (results ++ sub)
      | File =>
          if is_video name
          then collect_entries self dir rest (results ++ [fullPath])
          else collect_entries self dir rest results
      | Other => collect_entries self dir rest results
      end
  end.

(** [collectVideosRecursive(dir)], where the file system holds [d] at
    [dir]; [None] where [fs.readdirSync] throws because [dir] is not a
    directory. *)
Fixpoint collectVideosRecursive (dir : string) (d : node) : option (list string) :=
  match d with
  | Directory entries =>
      collect_entries collectVideosRecursive dir entries []
  | _ => None
  end.

(** The paths of the video files below a directory: a regular file of the
    directory with a video name, or such a path below one of its
    directories. *)
Inductive listed : string -> list (string * node) -> string -> Prop :=
  | listed_file dir entries name :
      In (name, File) entries -> video_name name ->
      listed dir entries (path_join dir name)
  | listed_sub dir entries name sub p :
      In (name, Directory sub) entries ->
      listed (path_join dir name) sub p ->
      listed dir entries p.

End Playlist.


(** ** Vocabulary of the properties *)

Definition is_finite (x : spec_float) : bool :=
  match x with
  | S754_finite _ _ _ => true
  | _ => false
  end.

Definition is_nan (x : spec_float) : bool :=
  match x with
  | S754_nan => true
  | _ => false
  end.

Definition jsnum_eqb (a b : jsnum) : bool :=
  match a, b with
  | JInt x, JInt y => x =? y
  | JInf s, JInf s' => Bool.eqb s s'
  | JNaN, JNaN => true
  | _, _ => false
  end.

(** The mantissa of a shift record has not gone negative. *)
Definition nonneg_m (mrs : shr_record) : Prop := 0 <= shr_m mrs.

(** The target aspect ratio of a configuration is a number: it fails only
    when [baseH / baseW] is [0 / 0] or a quotient of infinities. *)
Definition aspect_defined (CFG : config) : Prop :=
  is_nan (targetHOverW CFG) = false.

(** Line terminators in a rendered block. *)
Fixpoint count_NL (s : string) : nat :=
  match s with
  | EmptyString => O
  | String c s' =>
      ((if Ascii.eqb c (ascii_of_nat 10) then 1 else 0) + count_NL s')%nat
  end.


(** The stream cut into consecutive pieces of [n] bytes. *)
Fixpoint chop (n : nat) (k : nat) (s : list byte) : list (list byte) :=
  match k with
  | O => []
  | S k' => firstn n s :: chop n k' (skipn n s)
  end.

(** The three bytes [IAC SB NAWS] stand at offset [i] of a chunk. *)
Definition marker_at (data : list byte) (i : nat) : bool :=
  byte_is data i TELNET.IAC && byte_is data (i + 1) TELNET.SB
  && byte_is data (i + 2) TELNET.NAWS.

(** The two bytes [IAC SE] stand seven bytes after offset [i]. *)
Definition closed_at (data : list byte) (i : nat) : bool :=
  byte_is data (i + 7) TELNET.IAC && byte_is data (i + 8) TELNET.SE.

(** The sub-negotiation at offset [i] is one [parseNAWS] must not act on:
    it does not end in [IAC SE], or it announces a width or a height of
    zero. *)
Definition rejected_at (data : list byte) (i : nat) : Prop :=
  closed_at data i = false
  \/ readUInt16BE data (i + 3) = Some 0
  \/ readUInt16BE data (i + 5) = Some 0.

(** [sock.mode === 2 ? 1 : 2]. *)
Definition flip (m : Z) : Z := if m =? 2 then 1 else 2.

(** The bytes of an ASCII string. *)
Definition bytes_of_string (s : string) : list byte :=
  map byte_of_ascii (list_ascii_of_string s).

(** An open sequence of the decoder can only end in a code point of at
    least U+0080: the next code point is at least
    [code_point * 64 + (lower - 128)], which is 128 or more when one byte
    is missing and 2 or more when several are. *)
Definition inv_ok (st : Utf8.dstate) : bool :=
  match Utf8.needed st with
  | O => true
  | S _ =>
      (Utf8.seen st <? Utf8.needed st)%nat
      && (0 <=? Utf8.code_point st)
      && (128 <=? Utf8.lower st) && (Utf8.upper st <=? 191)
      && ((if (Utf8.needed st - Utf8.seen st =? 1)%nat then 128 else 2)
          <=? Utf8.code_point st * 64 + (Utf8.lower st - 128))
  end.

(** What reading the byte [b] may put out, for the sake of ASCII: the byte
    itself, after U+FFFD or not, when it is ASCII; else nothing below
    U+0080. *)
Definition out_ok (b : Z) (out : jsstring) : bool :=
  if b <? 128
  then match out with
       | [u] => u =? b
       | [r; u] => (r =? Utf8.REPLACEMENT) && (u =? b)
       | _ => false
       end
  else forallb (fun u => 128 <=? u) out.

(** [Close] events in a run. *)
Fixpoint closes (es : list event) : nat :=
  match es with
  | [] => O
  | Close :: es' => S (closes es')
  | StdoutData _ :: es' => closes es'
  end.

(** The [k] playlist entries from index [i] on, wrapping around. *)
Fixpoint cycle (playlist : list string) (i k : nat) : list (option string) :=
  match k with
  | O => []
  | S k' =>
      nth_error playlist i
      :: cycle playlist ((i + 1) mod List.length playlist) k'
  end.

(** The index [LUT] computes for luma [v] on a ramp of [n] characters. *)
Definition ramp_index (n v : Z) : jsnum :=
  floor_div (mul (JInt v) (JInt (n - 1))) (JInt 255).

(** The destination sizes after the two clamps. *)
Definition dstW_of (cols : Z) : Z := Z.max 1 (Z.min (to_int32 cols) 10000).
Definition dstH_of (rows : Z) : Z := Z.max 1 (Z.min (to_int32 rows - 1) 10000).

(** Two sockets that differ in [cols] and [rows] at most. *)
Definition same_but_geometry (a b : socket) : Prop :=
  sock_id a = sock_id b /\ mode a = mode b /\ destroyed a = destroyed b
  /\ ended a = ended b /\ writableLength a = writableLength b
  /\ written a = written b.

(** The size of a frame, as a length. *)
Definition frame_len (CFG : config) : nat := Z.to_nat (bytesPerFrame CFG).

(** A frame of exactly the frame size. *)
Definition whole (CFG : config) (frame : list byte) : Prop :=
  List.length frame = frame_len CFG.

(** ** Sample inputs *)

(** A black frame of a 4 x 4 video, as RGB and as luma. *)
Definition rgb_4x4 : list byte := repeat x00 48.
Definition gray_4x4 : list byte := repeat x00 16.

(** The window-size report "80 columns, 24 rows", whole and cut in two
    after its fifth byte. *)
Definition naws_80x24 : list byte :=
  Buffer_from [255; 250; 31; 0; 80; 0; 24; 255; 240].
Definition naws_head : list byte := Buffer_from [255; 250; 31; 0; 80].
Definition naws_tail : list byte := Buffer_from [0; 24; 255; 240].

(** The same report closed by [IAC 241] instead of [IAC SE]. *)
Definition naws_bad_end : list byte :=
  Buffer_from [255; 250; 31; 0; 80; 0; 24; 255; 241].

(** Six bytes of a 1 x 1 video, two frames of three bytes. *)
Definition stream_1x1 : list byte := Buffer_from [1; 2; 3; 4; 5; 6].
Definition chunks_1x1 : list (list byte) :=
  [Buffer_from [1]; Buffer_from [2; 3; 4; 5]; Buffer_from [6]].

(** ** Vocabulary of the further properties *)

(** The window-size report of a terminal of [w] columns and [h] rows, as
    [parseNAWS] expects it: [IAC SB NAWS], two big-endian 16-bit sizes,
    [IAC SE]. *)
Definition naws_report (w h : Z) : list byte :=
  Buffer_from [TELNET.IAC; TELNET.SB; TELNET.NAWS;
               w / 256; w mod 256; h / 256; h mod 256;
               TELNET.IAC; TELNET.SE].

(** The sub-negotiation at offset [i] is one [parseNAWS] acts on, and it
    announces [w] columns and [h] rows. *)
Definition accepted_at (data : list byte) (i : nat) (w h : Z) : Prop :=
  marker_at data i = true /\ closed_at data i = true
  /\ readUInt16BE data (i + 3) = Some w /\ readUInt16BE data (i + 5) = Some h
  /\ 0 < w /\ 0 < h.

(** The geometry of a socket is unset, or both sizes are 16-bit and
    positive. *)
Definition geometry_ok (c : socket) : Prop :=
  (cols c = None /\ rows c = None)
  \/ (exists w h, cols c = Some w /\ rows c = Some h
                  /\ 1 <= w <= 65535 /\ 1 <= h <= 65535).

(** The mode is one of the two the renderer knows. *)
Definition mode_ok (c : socket) : Prop := mode c = 1 \/ mode c = 2.

(** The cursor-restore sequence sent on quit and on shutdown. *)
Definition cursor_restore : chunk := Text (ESC ++ "[?25h" ++ NL).

(** The pixel [i] of a frame: its three components, [undefined] past the
    end. *)
Definition pixel (frame : list byte) (i : Z) : option Z * option Z * option Z :=
  (buf_get frame (JInt (3 * i)), buf_get frame (JInt (3 * i + 1)),
   buf_get frame (JInt (3 * i + 2))).

(** A string that starts with the cursor-home sequence. *)
Definition homed (out : string) : Prop :=
  exists rest, out = (ESC ++ "[H" ++ rest)%string.

(** What holds of every registered socket. *)
Definition client_ok (c : socket) : Prop := geometry_ok c /\ mode_ok c.

(** What holds of the process-wide variables between two events. *)
Definition server_ok (CFG : config) (PLAYLIST : list string) (srv : server) : Prop :=
  NoDup (map sock_id (clients srv))
  /\ Forall client_ok (clients srv)
  /\ Z.of_nat (List.length (leftover srv)) < bytesPerFrame CFG
  /\ switching srv = false
  /\ (currentIndex srv < List.length PLAYLIST)%nat
  /\ ff srv = Some (List.length (spawned srv) - 1)%nat
  /\ spawned srv <> []
  /\ Forall (fun v => exists p, v = Some p /\ In p PLAYLIST) (spawned srv).
(** ** Facts about binary64 arithmetic

    Rounding a non-negative mantissa never produces NaN, so a quotient or a
    product is NaN only for the operands IEEE-754 singles out. *)

Module FloatFacts.

Lemma shr_1_nonneg mrs : nonneg_m mrs -> nonneg_m (shr_1 mrs).
Proof.
  destruct mrs as [m r s]; unfold nonneg_m; simpl.
  destruct m as [|p|p]; [| destruct p |]; simpl; lia.
Qed.

Lemma iter_pos_shr_1_nonneg p :
  forall mrs, nonneg_m mrs -> nonneg_m (iter_pos shr_1 p mrs).
Proof.
  induction p as [p IH|p IH|]; intros mrs H; simpl.
  - apply IH, IH, shr_1_nonneg, H.
  - apply IH, IH, H.
  - apply shr_1_nonneg, H.
Qed.

Lemma shr_fexp_nonneg m e l :
  0 <= m -> nonneg_m (fst (shr_fexp prec emax m e l)).
Proof.
  intros Hm. unfold shr_fexp, shr.
  assert (H0 : nonneg_m (shr_record_of_loc m l)).
  { unfold nonneg_m. destruct l as [|[]]; simpl; exact Hm. }
  destruct (fexp prec emax (Zdigits2 m + e) - e); simpl;
    auto using iter_pos_shr_1_nonneg.
Qed.

Lemma round_nearest_even_nonneg m l : 0 <= m -> 0 <= round_nearest_even m l.
Proof.
  intros Hm. unfold round_nearest_even.
  destruct l as [|[]]; try destruct (Z.even m); lia.
Qed.

Lemma binary_round_aux_not_nan sx mx ex lx :
  0 <= mx -> binary_round_aux prec emax sx mx ex lx <> S754_nan.
Proof.
  intros Hm. unfold binary_round_aux.
  pose proof (shr_fexp_nonneg mx ex lx Hm) as H1.
  destruct (shr_fexp prec emax mx ex lx) as [mrs' e']. simpl in H1.
  pose proof (shr_fexp_nonneg
                (round_nearest_even (shr_m mrs') (loc_of_shr_record mrs'))
                e' loc_Exact (round_nearest_even_nonneg _ _ H1)) as H2.
  destruct (shr_fexp prec emax _ e' loc_Exact) as [mrs'' e'']. simpl in H2.
  unfold nonneg_m in H2.
  destruct (shr_m mrs'') as [|m|m]; try discriminate; try lia.
  destruct (e'' <=? emax - prec); discriminate.
Qed.

Lemma SFdiv_core_binary_nonneg mx ex my ey :
  0 <= fst (fst (SFdiv_core_binary prec emax (Zpos mx) ex (Zpos my) ey)).
Proof.
  unfold SFdiv_core_binary.
  set (s := _ - _ - Z.min _ _).
  set (m' := match s with Z0 => _ | Zpos _ => _ | Zneg _ => _ end).
  assert (Hm' : 0 <= m').
  { subst m'. destruct s; try lia. apply Z.shiftl_nonneg. lia. }
  pose proof (Z.div_pos m' (Zpos my) Hm' (eq_refl : 0 < Zpos my)) as Hq.
  unfold Z.div in Hq.
  destruct (Z.div_eucl m' (Zpos my)) as [q r]. simpl. exact Hq.
Qed.

(** A finite non-zero number divided by anything but NaN is a number. *)
Lemma fdiv_not_nan x t :
  is_finite x = true -> is_nan t = false -> is_nan (fdiv x t) = false.
Proof.
  destruct x as [| | |sx mx ex]; try discriminate. intros _.
  destruct t as [st|st| |st mt et]; try discriminate; try reflexivity.
  intros _. unfold fdiv, SFdiv.
  pose proof (SFdiv_core_binary_nonneg mx ex mt et) as Hq.
  destruct (SFdiv_core_binary prec emax (Zpos mx) ex (Zpos mt) et) as [[mz ez] lz].
  simpl in Hq.
  pose proof (binary_round_aux_not_nan (xorb sx st) mz ez lz Hq) as Hn.
  destruct (binary_round_aux prec emax (xorb sx st) mz ez lz);
    try reflexivity; congruence.
Qed.

(** A finite non-zero number times anything but NaN is a number. *)
Lemma fmul_not_nan x t :
  is_finite x = true -> is_nan t = false -> is_nan (fmul x t) = false.
Proof.
  destruct x as [| | |sx mx ex]; try discriminate. intros _.
  destruct t as [st|st| |st mt et]; try discriminate; try reflexivity.
  intros _. unfold fmul, SFmul.
  pose proof (binary_round_aux_not_nan (xorb sx st) (Zpos (mx * mt)) (ex + et)
                loc_Exact ltac:(lia)) as Hn.
  destruct (binary_round_aux prec emax (xorb sx st) (Zpos (mx * mt)) (ex + et) loc_Exact);
    try reflexivity; congruence.
Qed.

(** Anything but NaN divided by a finite non-zero number is a number. *)
Lemma fdiv_not_nan_r x t :
  is_nan x = false -> is_finite t = true -> is_nan (fdiv x t) = false.
Proof.
  destruct t as [| | |st mt et]; try discriminate. intros Hx _.
  destruct x as [sx|sx| |sx mx ex]; try discriminate; try reflexivity.
  apply fdiv_not_nan; reflexivity.
Qed.

Lemma Math_floor_not_nan x : is_nan x = false -> Math_floor x <> JNaN.
Proof. destruct x; simpl; congruence. Qed.

Lemma in_Zrange lo n z : lo <= z < lo + Z.of_nat n -> In z (Zrange lo n).
Proof.
  intros H. unfold Zrange. apply in_map_iff.
  exists (Z.to_nat (z - lo)). split; [lia|]. apply in_seq. lia.
Qed.

Lemma forall_Zrange (P : Z -> bool) lo n :
  forallb P (Zrange lo n) = true ->
  forall z, lo <= z < lo + Z.of_nat n -> P z = true.
Proof.
  intros H z Hz. rewrite forallb_forall in H. apply H, in_Zrange, Hz.
Qed.

(** Terminal sizes after clamping, 1..10000, are finite doubles. *)
Lemma of_Z_finite z : 1 <= z <= 10000 -> is_finite (of_Z z) = true.
Proof.
  intros Hz.
  apply (forall_Zrange (fun z => is_finite (of_Z z)) 1 (Z.to_nat 10000)); [|lia].
  vm_compute. reflexivity.
Qed.

Lemma jsnum_eqb_eq a b : jsnum_eqb a b = true -> a = b.
Proof.
  destruct a, b; simpl; try discriminate; intros H.
  - apply Z.eqb_eq in H. congruence.
  - apply Bool.eqb_prop in H. congruence.
  - reflexivity.
Qed.

(** Halving a padding budget: on 0..10000 the rounded quotient floors to
    the integer quotient. *)
Lemma floor_div_2 z :
  0 <= z <= 10000 -> floor_div (JInt z) (JInt 2) = JInt (z / 2).
Proof.
  intros Hz. apply jsnum_eqb_eq.
  apply (forall_Zrange
           (fun z => jsnum_eqb (floor_div (JInt z) (JInt 2)) (JInt (z / 2)))
           0 (Z.to_nat 10001)); [|lia].
  vm_compute. reflexivity.
Qed.

End FloatFacts.

(** ** The fit rectangle *)

Module FitFacts.

Import FloatFacts.

Lemma clampInt_int z lo hi :
  lo <= hi -> clampInt (JInt z) (JInt lo) (JInt hi) = JInt (Z.max lo (Z.min z hi)).
Proof.
  intros Hle. unfold clampInt, gt, lt.
  destruct (z <? lo) eqn:E1; [f_equal; lia|].
  destruct (hi <? z) eqn:E2; f_equal; lia.
Qed.

Lemma clampInt_bounds n lo hi :
  lo <= hi -> n <> JNaN ->
  exists z, clampInt n (JInt lo) (JInt hi) = JInt z /\ lo <= z <= hi.
Proof.
  intros Hle Hn. destruct n as [z|[]|]; try congruence.
  - rewrite clampInt_int by exact Hle. eexists; split; [reflexivity|lia].
  - exists lo. split; [reflexivity|lia].
  - exists hi. split; [reflexivity|lia].
Qed.

Lemma Math_min_not_nan w x : x <> JNaN -> Math_min (JInt w) x <> JNaN.
Proof.
  intros Hx. destruct x as [z|[]|]; unfold Math_min, lt; simpl;
    try discriminate; try congruence.
  destruct (z <? w); discriminate.
Qed.

(** [cols | 0] never exceeds a positive [cols]. *)
Lemma to_int32_le z : 0 <= z -> to_int32 z <= z.
Proof.
  intros Hz. unfold to_int32.
  pose proof (Z.mod_le (z + 2 ^ 31) (2 ^ 32)) as H. lia.
Qed.

Lemma to_int32_small z : - 2 ^ 31 <= z < 2 ^ 31 -> to_int32 z = z.
Proof. intros Hz. unfold to_int32. rewrite Z.mod_small; lia. Qed.

Section WithConfig.

Variable CFG : config.
Hypothesis Haspect : aspect_defined CFG.

(** Every field of the fit is an integer; the rectangle lies inside the
    destination and the padding is half of what is left. *)
Lemma computeFit_shape cols rows :
  exists ow oh,
    computeFit CFG cols rows =
      {| dstW := JInt (dstW_of cols); dstH := JInt (dstH_of rows);
         outW := JInt ow; outH := JInt oh;
         padX := JInt ((dstW_of cols - ow) / 2);
         padY := JInt ((dstH_of rows - oh) / 2) |}
    /\ 1 <= ow <= dstW_of cols /\ 1 <= oh <= dstH_of rows.
Proof.
  unfold computeFit.
  rewrite !clampInt_int by lia.
  fold (dstW_of cols) (dstH_of rows).
  set (w := dstW_of cols). set (h := dstH_of rows).
  assert (Hw : 1 <= w <= 10000) by (unfold w, dstW_of; lia).
  assert (Hh : 1 <= h <= 10000) by (unfold h, dstH_of; lia).
  destruct (clampInt_bounds
              (Math_min (JInt w) (Math_floor (fdiv (to_float (JInt h)) (targetHOverW CFG))))
              1 w) as [ow [Eow How]]; [lia| |].
  { apply Math_min_not_nan, Math_floor_not_nan, fdiv_not_nan.
    - apply of_Z_finite, Hh.
    - exact Haspect. }
  rewrite Eow.
  destruct (clampInt_bounds
              (Math_min (JInt h) (Math_floor (fmul (to_float (JInt ow)) (targetHOverW CFG))))
              1 h) as [oh [Eoh Hoh]]; [lia| |].
  { apply Math_min_not_nan, Math_floor_not_nan, fmul_not_nan.
    - apply of_Z_finite. lia.
    - exact Haspect. }
  rewrite Eoh.
  exists ow, oh. split; [|split; assumption].
  simpl sub. rewrite !floor_div_2 by lia. reflexivity.
Qed.

End WithConfig.

(** Base sizes up to 10000 x 10000, with the configured cell aspect, give a
    target aspect that is a number. *)
Lemma aspect_defined_small w h :
  1 <= w <= 10000 -> 1 <= h <= 10000 -> aspect_defined (CFG_with w h).
Proof.
  intros Hw Hh. unfold aspect_defined, targetHOverW. simpl.
  apply fdiv_not_nan_r; [|reflexivity].
  apply fdiv_not_nan; [apply of_Z_finite, Hh|].
  pose proof (of_Z_finite w Hw) as Hf.
  destruct (of_Z w); simpl in *; congruence.
Qed.

End FitFacts.

(** ** Lines of a rendered block *)

Module RenderFacts.

Import FitFacts.

Lemma count_NL_app a b : count_NL (a ++ b) = (count_NL a + count_NL b)%nat.
Proof.
  induction a as [|c a IH]; simpl; [reflexivity|]. rewrite IH. lia.
Qed.

Lemma count_NL_spaces n : count_NL (repeat_string " " n) = O.
Proof. induction n as [|n IH]; simpl; [reflexivity|exact IH]. Qed.

Lemma count_NL_uint d : count_NL (NilEmpty.string_of_uint d) = O.
Proof. induction d; simpl; auto. Qed.

Lemma count_NL_show v : count_NL (show v) = O.
Proof.
  destruct v as [z|]; [|reflexivity]. unfold show, NilZero.string_of_int.
  assert (H0 : forall d, count_NL (NilZero.string_of_uint d) = O).
  { intros d. destruct d; try reflexivity; exact (count_NL_uint _). }
  destruct (Z.to_int z) as [d|d]; [apply H0|].
  change (count_NL (String "-" (NilZero.string_of_uint d)) = O).
  simpl. apply H0.
Qed.

(** A loop whose every turn succeeds and adds [d] to a measure. *)
Lemma iterate_measure {A : Type} (meas : A -> nat) (d : nat)
    (body : Z -> A -> option A) :
  (forall i a, exists a', body i a = Some a' /\ meas a' = (meas a + d)%nat) ->
  forall n i a,
    exists a', iterate n i body a = Some a' /\ meas a' = (meas a + n * d)%nat.
Proof.
  intros Hbody. induction n as [|n IH]; intros i a; simpl.
  - exists a. split; [reflexivity|lia].
  - destruct (Hbody i a) as [a1 [E1 M1]]. rewrite E1. simpl.
    destruct (IH (i + 1) a1) as [a2 [E2 M2]].
    exists a2. split; [exact E2|lia].
Qed.

Lemma for_lt_measure {A : Type} (meas : A -> nat) (d : nat)
    (body : Z -> A -> option A) (z : Z) (a : A) :
  (forall i a, exists a', body i a = Some a' /\ meas a' = (meas a + d)%nat) ->
  exists a', for_lt (JInt z) body a = Some a'
             /\ meas a' = (meas a + Z.to_nat z * d)%nat.
Proof. intros Hbody. apply iterate_measure, Hbody. Qed.

(** Left padding: spaces when [padX] is truthy, else the empty string. *)
Lemma left_pad px :
  0 <= px ->
  exists s, (if truthy (JInt px) then String_repeat " " (JInt px)
             else Some EmptyString) = Some s /\ count_NL s = O.
Proof.
  intros Hpx. destruct (truthy (JInt px)).
  - unfold String_repeat. destruct (px <? 0) eqn:E; [lia|].
    eexists; split; [reflexivity|apply count_NL_spaces].
  - exists EmptyString. split; reflexivity.
Qed.

(** Right padding: spaces appended when [rightPad > 0]. *)
Lemma right_pad (ln : string) (r : Z) :
  exists s, (if gt (JInt r) (JInt 0)
             then pad <- String_repeat " " (JInt r) ;; Some (ln ++ pad)%string
             else Some ln) = Some s /\ count_NL s = count_NL ln.
Proof.
  unfold gt, lt. destruct (0 <? r) eqn:E.
  - unfold String_repeat. destruct (r <? 0) eqn:E'; [lia|]. simpl.
    eexists; split; [reflexivity|].
    rewrite count_NL_app, count_NL_spaces. lia.
  - exists ln. split; reflexivity.
Qed.

Section Ramp.

Variable CFG : config.

(** No line terminator in the ramp. *)
Hypothesis Hramp : count_NL (chars CFG) = O.

Lemma get_no_NL n s c :
  count_NL s = O -> String.get n s = Some c ->
  Ascii.eqb c (ascii_of_nat 10) = false.
Proof.
  revert n. induction s as [|a s IH]; intros n Hs Hg; [discriminate|].
  simpl in Hs. destruct n as [|n]; simpl in Hg.
  - inversion Hg; subst. destruct (Ascii.eqb c (ascii_of_nat 10)); [discriminate|reflexivity].
  - apply (IH n); [lia|exact Hg].
Qed.

Lemma count_NL_LUT_text g : count_NL (LUT_text CFG g) = O.
Proof.
  unfold LUT_text. destruct g as [v|]; [|reflexivity].
  destruct (nth_error (LUT CFG) (Z.to_nat v)) as [[c|]|] eqn:E; try reflexivity.
  apply nth_error_In in E. unfold LUT in E. apply in_map_iff in E.
  destruct E as [u [Hu _]]. unfold char_at in Hu.
  destruct (LUT_index CFG u) as [z| |]; try discriminate.
  destruct (z <? 0); [discriminate|].
  simpl. rewrite (get_no_NL _ _ _ Hramp Hu). reflexivity.
Qed.

Hypothesis Haspect : aspect_defined CFG.

(** Solves the side condition of a padding loop: one blank line a turn. *)
Ltac blank_turn :=
  intros ? ?; eexists; split; [reflexivity|];
  rewrite !count_NL_app, count_NL_spaces; simpl; lia.

(** Runs the next loop of the goal, given what a turn adds to the measure:
    the first goal left is that fact about one turn. *)
Ltac run_loop meas d :=
  match goal with
  | |- context [for_lt (JInt ?z) ?body ?a] =>
      let a' := fresh "out" in
      let E := fresh "E" in
      let M := fresh "M" in
      destruct (for_lt_measure meas d body z a) as [a' [E M]];
      [|rewrite E; cbn [bind]]
  end.

Lemma renderAscii_lines grayFrame cols rows :
  exists out,
    renderAscii CFG grayFrame cols rows = Some out
    /\ Z.of_nat (count_NL out) = dstH_of rows.
Proof.
  destruct (computeFit_shape CFG Haspect cols rows) as [ow [oh [E [How Hoh]]]].
  unfold renderAscii. rewrite E. cbn [dstW dstH outW outH padX padY].
  set (w := dstW_of cols) in *. set (h := dstH_of rows) in *.
  assert (Hpx : 0 <= (w - ow) / 2) by (apply Z.div_pos; lia).
  assert (Hpy : 0 <= (h - oh) / 2) by (apply Z.div_pos; lia).
  assert (Hpy' : 2 * ((h - oh) / 2) <= h - oh)
    by (apply Z.mul_div_le; lia).
  unfold String_repeat at 1. destruct (w <? 0) eqn:Ew; [lia|]. cbn [bind].
  run_loop count_NL 1%nat; [blank_turn|].
  assert (Hrow : forall oy out0, exists out1,
    (let sy := floor_div (mul (JInt oy) (JInt (baseH CFG))) (JInt oh) in
     let srcRow := mul sy (JInt (baseW CFG)) in
     line <- (if truthy (JInt ((w - ow) / 2))
              then String_repeat " " (JInt ((w - ow) / 2))
              else Some EmptyString) ;;
     line <- for_lt (JInt ow) (fun ox line =>
       let sx := floor_div (mul (JInt ox) (JInt (baseW CFG))) (JInt ow) in
       Some (line ++ LUT_text CFG (buf_get grayFrame (add srcRow sx)))%string)
       line ;;
     let rightPad := sub (sub (JInt w) (JInt ((w - ow) / 2))) (JInt ow) in
     line <- (if gt rightPad (JInt 0)
              then pad <- String_repeat " " rightPad ;; Some (line ++ pad)%string
              else Some line) ;;
     Some (out0 ++ (line ++ NL))%string) = Some out1
    /\ count_NL out1 = (count_NL out0 + 1)%nat).
  { intros oy out0. cbv zeta.
    destruct (left_pad _ Hpx) as [l0 [El0 Ml0]]. rewrite El0. cbn [bind].
    match goal with
    | |- context [for_lt (JInt ?z) ?body ?a] =>
        destruct (for_lt_measure count_NL O body z a) as [l1 [El1 Ml1]]
    end.
    { intros i a. eexists; split; [reflexivity|].
      rewrite count_NL_app, count_NL_LUT_text. lia. }
    rewrite El1. cbn [bind]. simpl sub.
    destruct (right_pad l1 (w - (w - ow) / 2 - ow)) as [l2 [El2 Ml2]].
    rewrite El2. cbn [bind].
    eexists; split; [reflexivity|].
    rewrite !count_NL_app. simpl. lia. }
  run_loop count_NL 1%nat; [exact Hrow|].
  simpl sub.
  match goal with
  | |- context [for_lt (JInt ?z) ?body ?a] =>
      destruct (for_lt_measure count_NL 1%nat body z a ltac:(blank_turn))
        as [out2 [E2 M2]]
  end.
  exists out2. split; [exact E2|].
  rewrite M2, M0, M. simpl. lia.
Qed.

Lemma renderTruecolor_lines rgbFrame cols rows :
  exists out,
    renderTruecolor CFG rgbFrame cols rows = Some out
    /\ Z.of_nat (count_NL out) = dstH_of rows.
Proof.
  destruct (computeFit_shape CFG Haspect cols rows) as [ow [oh [E [How Hoh]]]].
  unfold renderTruecolor. rewrite E. cbn [dstW dstH outW outH padX padY].
  set (w := dstW_of cols) in *. set (h := dstH_of rows) in *.
  assert (Hpx : 0 <= (w - ow) / 2) by (apply Z.div_pos; lia).
  assert (Hpy : 0 <= (h - oh) / 2) by (apply Z.div_pos; lia).
  assert (Hpy' : 2 * ((h - oh) / 2) <= h - oh)
    by (apply Z.mul_div_le; lia).
  unfold String_repeat at 1. destruct (w <? 0) eqn:Ew; [lia|]. cbn [bind].
  run_loop count_NL 1%nat; [blank_turn|].
  run_loop count_NL 1%nat.
  { intros oy out0. cbv zeta.
    destruct (left_pad _ Hpx) as [l0 [El0 Ml0]]. rewrite El0. cbn [bind].
    match goal with
    | |- context [for_lt (JInt ?z) ?body ?a] =>
        destruct (for_lt_measure (fun st => count_NL (line st)) O body z a)
          as [st1 [Est1 Mst1]]
    end.
    { intros i st. eexists; split; [reflexivity|]. cbn [line].
      match goal with
      | |- context [if ?c then _ else _] => destruct c
      end; cbn [line]; rewrite !count_NL_app, ?count_NL_show; simpl; lia. }
    rewrite Est1. cbn [bind line] in *. simpl sub.
    match goal with
    | |- context [if gt (JInt ?r) (JInt 0) then _ else Some ?l] =>
        destruct (right_pad l r) as [l2 [El2 Ml2]]
    end.
    rewrite El2. cbn [bind].
    eexists; split; [reflexivity|].
    rewrite !count_NL_app. rewrite Ml2, !count_NL_app. simpl. lia. }
  simpl sub.
  match goal with
  | |- context [for_lt (JInt ?z) ?body ?a] =>
      destruct (for_lt_measure count_NL 1%nat body z a ltac:(blank_turn))
        as [out2 [E2 M2]]
  end.
  exists out2. split; [exact E2|].
  rewrite M2, M0, M. simpl. lia.
Qed.

End Ramp.

End RenderFacts.

(** ** The negotiation scanner *)

Module NawsFacts.

Lemma readUInt16BE_in_range data off :
  (off + 1 < List.length data)%nat -> exists v, readUInt16BE data off = Some v.
Proof.
  intros H. unfold readUInt16BE.
  destruct (nth_error data off) as [hi|] eqn:E1.
  - destruct (nth_error data (S off)) as [lo|] eqn:E2.
    + eexists; reflexivity.
    + apply nth_error_None in E2. lia.
  - apply nth_error_None in E1. lia.
Qed.

Lemma readUInt16BE_nonneg data off v : readUInt16BE data off = Some v -> 0 <= v.
Proof.
  unfold readUInt16BE.
  destruct (nth_error data off) as [hi|]; [|discriminate].
  destruct (nth_error data (S off)) as [lo|]; [|discriminate].
  intros H. injection H as <-.
  pose proof (N2Z.is_nonneg (Byte.to_N hi)).
  pose proof (N2Z.is_nonneg (Byte.to_N lo)).
  unfold byte_val. lia.
Qed.

(** Inside the loop's range no read is out of bounds: a turn ends normally. *)
Lemma parseNAWS_at_done data i sock :
  (i + 8 < List.length data)%nat ->
  exists sock', parseNAWS_at data i sock = Done sock'.
Proof.
  intros Hi. unfold parseNAWS_at.
  destruct (_ && _ && _); [|eexists; reflexivity].
  destruct (_ || _); [eexists; reflexivity|].
  destruct (readUInt16BE_in_range data (i + 3) ltac:(lia)) as [w Ew].
  destruct (readUInt16BE_in_range data (i + 5) ltac:(lia)) as [h Eh].
  rewrite Ew, Eh. destruct (_ && _); eexists; reflexivity.
Qed.

Lemma parseNAWS_loop_done data n :
  forall i sock, (0 < n -> i + n + 8 <= List.length data)%nat ->
  exists sock', parseNAWS_loop data n i sock = Done sock'.
Proof.
  induction n as [|n IH]; intros i sock Hi; simpl.
  - eexists; reflexivity.
  - destruct (parseNAWS_at_done data i sock ltac:(lia)) as [s1 E1].
    rewrite E1. apply IH. lia.
Qed.

(** The body of the [try] never throws. *)
Lemma parseNAWS_try_done sock data :
  exists sock', parseNAWS_try sock data = Done sock'.
Proof. unfold parseNAWS_try. apply parseNAWS_loop_done. lia. Qed.

(** A turn at a rejected offset, or at an offset without the marker, leaves
    the socket as it is. *)
Lemma parseNAWS_at_rejected data i sock :
  (marker_at data i = true -> rejected_at data i) ->
  parseNAWS_at data i sock = Done sock \/ parseNAWS_at data i sock = Thrown sock.
Proof.
  intros H. unfold parseNAWS_at. fold (marker_at data i).
  destruct (marker_at data i) eqn:Em; [|left; reflexivity].
  specialize (H eq_refl).
  destruct (negb (byte_is data (i + 7) TELNET.IAC)
            || negb (byte_is data (i + 8) TELNET.SE)) eqn:Ec; [left; reflexivity|].
  assert (Hc : closed_at data i = true).
  { unfold closed_at. apply orb_false_elim in Ec. destruct Ec as [E1 E2].
    apply negb_false_iff in E1, E2. rewrite E1, E2. reflexivity. }
  destruct H as [H|[H|H]]; [congruence| |].
  - rewrite H. destruct (readUInt16BE data (i + 5)) as [h|]; [|right; reflexivity].
    left. reflexivity.
  - rewrite H. destruct (readUInt16BE data (i + 3)) as [w|]; [|right; reflexivity].
    left. rewrite andb_false_r. reflexivity.
Qed.

Lemma parseNAWS_loop_rejected data n :
  forall i sock,
    (forall j, marker_at data j = true -> rejected_at data j) ->
    parseNAWS_loop data n i sock = Done sock
    \/ parseNAWS_loop data n i sock = Thrown sock.
Proof.
  induction n as [|n IH]; intros i sock H; simpl; [left; reflexivity|].
  destruct (parseNAWS_at_rejected data i sock (H i)) as [E|E]; rewrite E.
  - apply IH, H.
  - right. reflexivity.
Qed.

Lemma parseNAWS_rejected sock data :
  (forall i, marker_at data i = true -> rejected_at data i) ->
  parseNAWS sock data = sock.
Proof.
  intros H. unfold parseNAWS, parseNAWS_try.
  destruct (parseNAWS_loop_rejected data (List.length data - 8) 0 sock H) as [E|E];
    rewrite E; reflexivity.
Qed.

(** A chunk of fewer than nine bytes is not scanned at all. *)
Lemma parseNAWS_short sock data :
  (List.length data <= 8)%nat -> parseNAWS sock data = sock.
Proof.
  intros H. unfold parseNAWS, parseNAWS_try.
  replace (List.length data - 8)%nat with O by lia. reflexivity.
Qed.

End NawsFacts.

(** ** The text of a chunk *)

Module TextFacts.

Import FloatFacts.

Lemma byte_val_range b : 0 <= byte_val b <= 255.
Proof.
  unfold byte_val. pose proof (Byte.to_N_bounded b) as H.
  pose proof (N2Z.is_nonneg (Byte.to_N b)). lia.
Qed.

Lemma includes_single t a : includes t [a] = true <-> In a t.
Proof.
  induction t as [|y t IH]; simpl.
  - split; [discriminate|tauto].
  - rewrite orb_true_iff, IH, andb_true_r, Z.eqb_eq.
    split; intros [H|H]; auto.
Qed.

(** A continuation byte appended to a code point. *)
Lemma append_continuation c b :
  0 <= c -> 128 <= b <= 191 ->
  Z.lor (Z.shiftl c 6) (Z.land b 0x3F) = c * 64 + (b - 128).
Proof.
  intros Hc Hb.
  assert (Hland : Z.land b 0x3F = b - 128).
  { change 0x3F with (Z.ones 6). rewrite Z.land_ones by lia.
    change (2 ^ 6) with 64.
    symmetry. apply (Z.mod_unique_pos b 64 2 (b - 128)); lia. }
  assert (Hdisj : Z.land (Z.shiftl c 6) (Z.land b 0x3F) = 0).
  { apply Z.bits_inj'. intros n Hn.
    rewrite !Z.land_spec, Z.bits_0.
    destruct (Z.ltb_spec n 6).
    - rewrite Z.shiftl_spec_low by lia. reflexivity.
    - change 0x3F with (Z.ones 6). rewrite Z.ones_spec_high by lia.
      rewrite !andb_false_r. reflexivity. }
  pose proof (Zbitwise.Z.add_lor_land (Z.shiftl c 6) (Z.land b 0x3F)) as H.
  rewrite Hdisj, Hland in H. rewrite Hland.
  rewrite Z.shiftl_mul_pow2 in * by lia. change (2 ^ 6) with 64 in *. lia.
Qed.

Lemma units_high c : 128 <= c -> forallb (fun u => 128 <=? u) (Utf8.units c) = true.
Proof.
  intros Hc. unfold Utf8.units. destruct (c <? 0x10000) eqn:E; cbn [forallb].
  - rewrite andb_true_r. lia.
  - pose proof (proj2 (Z.shiftr_nonneg (c - 0x10000) 10) ltac:(lia)).
    pose proof (proj2 (Z.land_nonneg (c - 0x10000) 0x3FF) ltac:(right; lia)).
    rewrite andb_true_r. apply andb_true_intro. split; lia.
Qed.

(** A byte read in the initial state. *)
Lemma start_ok b :
  0 <= b <= 255 ->
  inv_ok (snd (Utf8.start b)) = true /\ out_ok b (fst (Utf8.start b)) = true.
Proof.
  intros Hb. apply andb_true_iff.
  apply (forall_Zrange
           (fun b => inv_ok (snd (Utf8.start b)) && out_ok b (fst (Utf8.start b)))
           0 256); [|lia].
  vm_compute. reflexivity.
Qed.

(** A byte read in any state met on the way. *)
Lemma step_ok st b :
  inv_ok st = true -> 0 <= b <= 255 ->
  inv_ok (snd (Utf8.step st b)) = true /\ out_ok b (fst (Utf8.step st b)) = true.
Proof.
  intros Hinv Hb. unfold Utf8.step.
  destruct (Utf8.needed st) as [|k] eqn:En; [apply start_ok, Hb|].
  unfold inv_ok in Hinv. rewrite En in Hinv.
  repeat (apply andb_true_iff in Hinv; destruct Hinv as [Hinv ?]).
  apply Nat.ltb_lt in Hinv.
  destruct ((Utf8.lower st <=? b) && (b <=? Utf8.upper st)) eqn:Er.
  - apply andb_true_iff in Er. destruct Er as [Hlo Hhi].
    rewrite append_continuation by lia.
    assert (Hb128 : (b <? 128) = false) by lia.
    destruct (Nat.eqb (S (Utf8.seen st)) (S k)) eqn:Elast; simpl.
    + split; [reflexivity|]. unfold out_ok. rewrite Hb128.
      apply units_high.
      apply Nat.eqb_eq in Elast.
      replace (S k - Utf8.seen st =? 1)%nat with true in *
        by (symmetry; apply Nat.eqb_eq; lia).
      lia.
    + split; [|unfold out_ok; rewrite Hb128; reflexivity].
      unfold inv_ok. simpl. apply Nat.eqb_neq in Elast.
      repeat (apply andb_true_iff; split); try (apply Nat.ltb_lt; lia); try lia.
      destruct (S k - Utf8.seen st =? 1)%nat eqn:E1;
        [apply Nat.eqb_eq in E1; lia|].
      destruct (k - Utf8.seen st =? 1)%nat; lia.
  - destruct (start_ok b Hb) as [Hi Ho].
    destruct (b <? 128) eqn:E128.
    + assert (Es : Utf8.start b = ([b], Utf8.init)).
      { unfold Utf8.start. replace (b <=? 0x7F) with true by lia. reflexivity. }
      rewrite Es. simpl. split; [reflexivity|].
      unfold out_ok. rewrite E128, !Z.eqb_refl. reflexivity.
    + destruct (Utf8.start b) as [out st']. simpl in *.
      split; [exact Hi|]. unfold out_ok in *. rewrite E128 in *.
      simpl. exact Ho.
Qed.

(** ASCII survives decoding, and nothing else decodes to ASCII. *)
Lemma run_ascii bs a :
  0 <= a < 128 ->
  forall st, inv_ok st = true ->
  In a (Utf8.run st bs) <-> In a (map byte_val bs).
Proof.
  intros Ha. induction bs as [|b bs IH]; intros st Hinv; simpl.
  - destruct (Utf8.needed st); simpl; [tauto|].
    unfold Utf8.REPLACEMENT. split; [intros [H|[]]; lia|tauto].
  - destruct (step_ok st (byte_val b) Hinv (byte_val_range b)) as [Hi Ho].
    destruct (Utf8.step st (byte_val b)) as [out st']. simpl in Hi, Ho.
    rewrite in_app_iff, (IH st' Hi).
    assert (Hout : In a out <-> byte_val b = a).
    { unfold out_ok in Ho. destruct (byte_val b <? 128) eqn:E.
      - destruct out as [|u [|v [|]]]; try discriminate.
        + apply Z.eqb_eq in Ho. subst u. simpl. tauto.
        + apply andb_true_iff in Ho. destruct Ho as [Hr Hv].
          apply Z.eqb_eq in Hr, Hv. subst u v. unfold Utf8.REPLACEMENT.
          simpl. split; [intros [H|[H|[]]]; lia|tauto].
      - rewrite forallb_forall in Ho. split.
        + intros Hin. apply Ho in Hin. lia.
        + intros Heq. lia. }
    tauto.
Qed.

Lemma textFromTelnet_ascii data a :
  0 <= a < 128 -> In a (textFromTelnet data) <-> In a (map byte_val data).
Proof.
  intros Ha. unfold textFromTelnet, Utf8.decode.
  rewrite (run_ascii _ a Ha Utf8.init eq_refl).
  rewrite !in_map_iff. split.
  - intros [b [Hb Hin]]. apply filter_In in Hin. exists b. tauto.
  - intros [b [Hb Hin]]. exists b. split; [exact Hb|].
    apply filter_In. split; [exact Hin|].
    unfold TELNET.IAC. apply negb_true_iff. lia.
Qed.

(** The toggle fires exactly on the chunks holding a byte 'm' or 'M'. *)
Lemma shouldToggle_bytes data :
  shouldToggle data = true <->
  In 109 (map byte_val data) \/ In 77 (map byte_val data).
Proof.
  unfold shouldToggle. rewrite orb_true_iff.
  change (units_of_string "m") with [109].
  change (units_of_string "M") with [77].
  rewrite !includes_single, !textFromTelnet_ascii by lia. tauto.
Qed.

(** With the default keys, quitting fires exactly on the chunks holding a
    byte 'q' or 'Q'. *)
Lemma shouldQuit_bytes w h data :
  shouldQuit (CFG_with w h) data = true <->
  In 113 (map byte_val data) \/ In 81 (map byte_val data).
Proof.
  unfold shouldQuit. simpl quitKeys. cbn [existsb].
  rewrite orb_false_r, orb_true_iff.
  change (units_of_string "q") with [113].
  change (units_of_string "Q") with [81].
  rewrite !includes_single, !textFromTelnet_ascii by lia. tauto.
Qed.

End TextFacts.

(** ** The data handler *)

Module HandlerFacts.

Lemma same_but_geometry_refl a : same_but_geometry a a.
Proof. repeat split. Qed.

Lemma parseNAWS_at_fields data i sock sock' :
  parseNAWS_at data i sock = Done sock' \/ parseNAWS_at data i sock = Thrown sock' ->
  same_but_geometry sock sock'.
Proof.
  unfold parseNAWS_at.
  destruct (_ && _ && _); [|intros [H|H]; inversion H; apply same_but_geometry_refl].
  destruct (_ || _); [intros [H|H]; inversion H; apply same_but_geometry_refl|].
  destruct (readUInt16BE data (i + 3)) as [w|];
    [|intros [H|H]; inversion H; apply same_but_geometry_refl].
  destruct (readUInt16BE data (i + 5)) as [h|];
    [|intros [H|H]; inversion H; apply same_but_geometry_refl].
  destruct (_ && _); intros [H|H]; inversion H; repeat split.
Qed.

Lemma parseNAWS_loop_fields data n :
  forall i sock sock',
    parseNAWS_loop data n i sock = Done sock'
    \/ parseNAWS_loop data n i sock = Thrown sock' ->
    same_but_geometry sock sock'.
Proof.
  induction n as [|n IH]; intros i sock sock'; simpl.
  - intros [H|H]; inversion H. apply same_but_geometry_refl.
  - destruct (parseNAWS_at data i sock) as [s1|s1] eqn:E1.
    + intros H. apply IH in H.
      pose proof (parseNAWS_at_fields data i sock s1 (or_introl E1)) as H1.
      unfold same_but_geometry in *. intuition congruence.
    + intros [H|H]; inversion H; subst.
      apply (parseNAWS_at_fields data i sock sock' (or_intror E1)).
Qed.

Lemma parseNAWS_fields sock data : same_but_geometry sock (parseNAWS sock data).
Proof.
  unfold parseNAWS, parseNAWS_try.
  destruct (parseNAWS_loop data (List.length data - 8) 0 sock) as [s|s] eqn:E.
  - apply (parseNAWS_loop_fields _ _ _ _ _ (or_introl E)).
  - apply (parseNAWS_loop_fields _ _ _ _ _ (or_intror E)).
Qed.

Lemma onData_mode CFG sock data :
  mode (onData CFG sock data) =
  if shouldToggle data then flip (mode sock) else mode sock.
Proof.
  destruct (parseNAWS_fields sock data) as [_ [Hm _]].
  unfold onData, flip.
  destruct (shouldToggle data), (shouldQuit CFG data); cbv zeta;
    try match goal with
        | |- context [negb (destroyed ?s)] => destruct (negb (destroyed s))
        end; simpl; rewrite <- ?Hm; reflexivity.
Qed.

Lemma onData_ended CFG sock data :
  ended (onData CFG sock data) = shouldQuit CFG data || ended sock.
Proof.
  destruct (parseNAWS_fields sock data) as [_ [_ [_ [He _]]]].
  unfold onData.
  destruct (shouldToggle data), (shouldQuit CFG data); cbv zeta;
    try match goal with
        | |- context [negb (destroyed ?s)] => destruct (negb (destroyed s))
        end; simpl; rewrite <- ?He; reflexivity.
Qed.

Lemma flip_changes m : flip m <> m.
Proof. unfold flip. destruct (m =? 2) eqn:E; lia. Qed.

End HandlerFacts.

(** ** Frame reassembly *)

Module DemuxFacts.

Section WithConfig.

Variable CFG : config.
Hypothesis Hbpf : 0 < bytesPerFrame CFG.

Lemma frame_len_pos : (0 < frame_len CFG)%nat.
Proof. unfold frame_len. lia. Qed.

(** The loop cuts [data] into whole frames, handed over in order, and a
    rest shorter than a frame; [data.length] turns suffice. *)
Lemma frames_loop_spec {St : Type} (on_frame : list byte -> St -> St) fuel :
  forall data s,
    (List.length data <= fuel)%nat ->
    exists frames rest,
      frames_loop CFG on_frame fuel data s =
        Some (rest, fold_left (fun s frame => on_frame frame s) frames s)
      /\ data = List.concat frames ++ rest
      /\ Forall (whole CFG) frames
      /\ (List.length rest < (frame_len CFG))%nat.
Proof.
  pose proof frame_len_pos as Hpos.
  induction fuel as [|fuel IH]; intros data s Hfuel.
  - destruct data; [|simpl in Hfuel; lia].
    exists [], []. simpl.
    destruct (bytesPerFrame CFG <=? 0) eqn:E; [lia|].
    repeat split; [constructor|exact Hpos].
  - cbn [frames_loop].
    destruct (bytesPerFrame CFG <=? Z.of_nat (List.length data)) eqn:E.
    + fold (frame_len CFG).
      assert (Hlen : ((frame_len CFG) <= List.length data)%nat) by (unfold frame_len; lia).
      destruct (IH (skipn (frame_len CFG) data) (on_frame (firstn (frame_len CFG) data) s))
        as [frames [rest [Hrun [Hcat [Hwhole Hrest]]]]].
      { rewrite length_skipn. lia. }
      exists (firstn (frame_len CFG) data :: frames), rest.
      split; [exact Hrun|]. split; [|split; [|exact Hrest]].
      * simpl. rewrite <- app_assoc, <- Hcat. symmetry. apply firstn_skipn.
      * constructor; [|exact Hwhole]. unfold whole. rewrite length_firstn. lia.
    + exists [], data. simpl. repeat split; [constructor|].
      unfold frame_len. lia.
Qed.

Lemma on_chunk_spec {St : Type} (on_frame : list byte -> St -> St) l chunk s :
  exists frames rest,
    on_chunk CFG on_frame l chunk s =
      Some (rest, fold_left (fun s frame => on_frame frame s) frames s)
    /\ l ++ chunk = List.concat frames ++ rest
    /\ Forall (whole CFG) frames
    /\ (List.length rest < (frame_len CFG))%nat.
Proof.
  unfold on_chunk.
  destruct (bytesPerFrame CFG <=? 0) eqn:E; [lia|].
  set (data := if 0 <? Z.of_nat (List.length l) then l ++ chunk else chunk).
  assert (Hdata : data = l ++ chunk).
  { unfold data. destruct l; reflexivity. }
  destruct (frames_loop_spec on_frame (List.length data) data s (le_n _))
    as [frames [rest [Hrun H]]].
  exists frames, rest. rewrite <- Hdata. split; [exact Hrun|exact H].
Qed.

Lemma fold_collect (frames acc : list (list byte)) :
  fold_left (fun fs frame => fs ++ [frame]) frames acc = acc ++ frames.
Proof.
  revert acc. induction frames as [|f frames IH]; intros acc; simpl.
  - rewrite app_nil_r. reflexivity.
  - rewrite IH, <- app_assoc. reflexivity.
Qed.

Lemma demux_spec l chunk :
  exists frames rest,
    demux CFG l chunk = Some (rest, frames)
    /\ l ++ chunk = List.concat frames ++ rest
    /\ Forall (whole CFG) frames
    /\ (List.length rest < (frame_len CFG))%nat.
Proof.
  unfold demux.
  destruct (on_chunk_spec (fun frame fs => fs ++ [frame]) l chunk [])
    as [frames [rest [Hrun H]]].
  exists frames, rest. rewrite Hrun, fold_collect. split; [reflexivity|exact H].
Qed.

(** The handler over any per-frame action sees the frames of [demux]. *)
Lemma on_chunk_demux {St : Type} (on_frame : list byte -> St -> St) l chunk s :
  exists frames rest,
    demux CFG l chunk = Some (rest, frames)
    /\ on_chunk CFG on_frame l chunk s =
         Some (rest, fold_left (fun s frame => on_frame frame s) frames s).
Proof.
  unfold demux, on_chunk.
  destruct (bytesPerFrame CFG <=? 0) eqn:E; [lia|].
  set (data := if 0 <? Z.of_nat (List.length l) then l ++ chunk else chunk).
  clearbody data.
  assert (H : forall fuel d s (acc : list (list byte)),
    (List.length d <= fuel)%nat ->
    exists frames rest,
      frames_loop CFG (fun frame fs => fs ++ [frame]) fuel d acc
        = Some (rest, acc ++ frames)
      /\ frames_loop CFG on_frame fuel d s
        = Some (rest, fold_left (fun s frame => on_frame frame s) frames s)).
  { induction fuel as [|fuel IH]; intros d s0 acc Hfuel.
    - destruct d; [|simpl in Hfuel; lia]. exists [], []. simpl.
      destruct (bytesPerFrame CFG <=? 0); [lia|].
      rewrite app_nil_r. split; reflexivity.
    - cbn [frames_loop].
      destruct (bytesPerFrame CFG <=? Z.of_nat (List.length d)) eqn:E'.
      + destruct (IH (skipn (Z.to_nat (bytesPerFrame CFG)) d)
                     (on_frame (firstn (Z.to_nat (bytesPerFrame CFG)) d) s0)
                     (acc ++ [firstn (Z.to_nat (bytesPerFrame CFG)) d]))
          as [frames [rest [H1 H2]]].
        { rewrite length_skipn. lia. }
        exists (firstn (Z.to_nat (bytesPerFrame CFG)) d :: frames), rest.
        rewrite H1, H2, <- app_assoc. split; reflexivity.
      + exists [], d. rewrite app_nil_r. split; reflexivity. }
  destruct (H (List.length data) data s [] (le_n _)) as [frames [rest [H1 H2]]].
  exists frames, rest. rewrite H1, H2. split; reflexivity.
Qed.

(** Two ways of cutting the same bytes into whole frames and a short rest
    are the same way. *)
Lemma cut_unique (f1 : list (list byte)) :
  forall f2 r1 r2,
    Forall (whole CFG) f1 -> Forall (whole CFG) f2 ->
    (List.length r1 < (frame_len CFG))%nat -> (List.length r2 < (frame_len CFG))%nat ->
    List.concat f1 ++ r1 = List.concat f2 ++ r2 ->
    f1 = f2 /\ r1 = r2.
Proof.
  induction f1 as [|a f1 IH]; intros f2 r1 r2 H1 H2 Hr1 Hr2 Heq.
  - destruct f2 as [|b f2]; [split; [reflexivity|exact Heq]|].
    inversion H2 as [|? ? Hb _]; subst. unfold whole in Hb.
    simpl in Heq. apply (f_equal (@List.length byte)) in Heq.
    rewrite !length_app in Heq. lia.
  - inversion H1 as [|? ? Ha H1']; subst. unfold whole in Ha.
    destruct f2 as [|b f2].
    + simpl in Heq. apply (f_equal (@List.length byte)) in Heq.
      rewrite !length_app in Heq. lia.
    + inversion H2 as [|? ? Hb H2']; subst. unfold whole in Hb.
      simpl in Heq. rewrite <- !app_assoc in Heq.
      apply app_eq_app in Heq.
      assert (Hab : a = b /\ List.concat f1 ++ r1 = List.concat f2 ++ r2).
      { destruct Heq as [l [[E1 E2]|[E1 E2]]].
        - assert (l = []) by
            (apply (f_equal (@List.length byte)) in E1;
             rewrite length_app in E1; destruct l; [reflexivity|simpl in E1; lia]).
          subst l. rewrite app_nil_r in E1. simpl in E2. split; congruence.
        - assert (l = []) by
            (apply (f_equal (@List.length byte)) in E1;
             rewrite length_app in E1; destruct l; [reflexivity|simpl in E1; lia]).
          subst l. rewrite app_nil_r in E1. simpl in E2. split; congruence. }
      destruct Hab as [-> Hrest].
      destruct (IH f2 r1 r2 H1' H2' Hr1 Hr2 Hrest) as [-> ->].
      split; reflexivity.
Qed.

(** Chunks fed one after the other: whole frames in order, nothing lost. *)
Lemma demux_all_spec chunks :
  forall l, (List.length l < (frame_len CFG))%nat ->
  exists frames rest,
    demux_all CFG l chunks = Some (rest, frames)
    /\ l ++ List.concat chunks = List.concat frames ++ rest
    /\ Forall (whole CFG) frames
    /\ (List.length rest < (frame_len CFG))%nat.
Proof.
  induction chunks as [|c chunks IH]; intros l Hl.
  - exists [], l. simpl. rewrite app_nil_r.
    repeat split; [constructor|exact Hl].
  - destruct (demux_spec l c) as [f1 [r1 [E1 [Hcat1 [Hw1 Hr1]]]]].
    destruct (IH r1 Hr1) as [f2 [r2 [E2 [Hcat2 [Hw2 Hr2]]]]].
    exists (f1 ++ f2), r2. cbn [demux_all]. rewrite E1. cbn [bind fst snd].
    rewrite E2. cbn [bind fst snd].
    split; [reflexivity|]. split; [|split; [|exact Hr2]].
    + cbn [List.concat]. rewrite app_assoc, Hcat1, concat_app, <- !app_assoc.
      f_equal. exact Hcat2.
    + apply Forall_app. split; assumption.
Qed.

Lemma chop_spec k : forall s,
  List.length s = (k * (frame_len CFG))%nat ->
  List.concat (chop (frame_len CFG) k s) = s /\ Forall (whole CFG) (chop (frame_len CFG) k s).
Proof.
  induction k as [|k IH]; intros s Hs; simpl.
  - destruct s; [split; [reflexivity|constructor]|simpl in Hs; lia].
  - destruct (IH (skipn (frame_len CFG) s)) as [Hc Hw].
    { rewrite length_skipn. lia. }
    rewrite Hc. split; [apply firstn_skipn|].
    constructor; [|exact Hw]. unfold whole. rewrite length_firstn. lia.
Qed.

End WithConfig.

End DemuxFacts.

(** ** Broadcast and playlist *)

Module ServerFacts.

Import DemuxFacts.

Section WithServer.

Variable CFG : config.
Variable PLAYLIST : list string.
Variable io_throws : nat -> bool.

(** A visit appends to what the pass has gathered, and looks at nothing
    but the socket visited. *)
Lemma visit_acc frame kept gone c :
  visit CFG io_throws frame (kept, gone) c =
  (kept ++ fst (broadcast CFG io_throws frame [c]),
   gone ++ snd (broadcast CFG io_throws frame [c])).
Proof.
  unfold broadcast. simpl. unfold visit.
  destruct (skips CFG c); [rewrite app_nil_r; reflexivity|].
  destruct (render_and_write CFG io_throws frame c);
    rewrite app_nil_r; reflexivity.
Qed.

Lemma fold_visit frame cs :
  forall kept gone,
    fold_left (visit CFG io_throws frame) cs (kept, gone) =
    (kept ++ fst (broadcast CFG io_throws frame cs),
     gone ++ snd (broadcast CFG io_throws frame cs)).
Proof.
  induction cs as [|c cs IH]; intros kept gone.
  - simpl. rewrite !app_nil_r. reflexivity.
  - assert (Hcons : broadcast CFG io_throws frame (c :: cs) =
      (fst (broadcast CFG io_throws frame [c]) ++ fst (broadcast CFG io_throws frame cs),
       snd (broadcast CFG io_throws frame [c]) ++ snd (broadcast CFG io_throws frame cs))).
    { unfold broadcast at 1. cbn [fold_left]. rewrite visit_acc, IH. reflexivity. }
    cbn [fold_left]. rewrite visit_acc, IH, Hcons. cbn [fst snd].
    rewrite !app_assoc. reflexivity.
Qed.

(** A pass over a registry is the pass over its parts, put end to end. *)
Lemma broadcast_app frame cs1 cs2 :
  broadcast CFG io_throws frame (cs1 ++ cs2) =
  (fst (broadcast CFG io_throws frame cs1) ++ fst (broadcast CFG io_throws frame cs2),
   snd (broadcast CFG io_throws frame cs1) ++ snd (broadcast CFG io_throws frame cs2)).
Proof.
  unfold broadcast at 1. rewrite fold_left_app.
  fold (broadcast CFG io_throws frame cs1).
  destruct (broadcast CFG io_throws frame cs1) as [k1 g1].
  rewrite fold_visit. reflexivity.
Qed.




(** The stdout handler returns, and touches the registry and the
    carry-over only. *)
Lemma onStdoutData_fields srv chunk :
  0 < bytesPerFrame CFG ->
  exists srv',
    onStdoutData CFG io_throws srv chunk = Some srv'
    /\ currentIndex srv' = currentIndex srv /\ ff srv' = ff srv
    /\ shuttingDown srv' = shuttingDown srv /\ switching srv' = switching srv
    /\ spawned srv' = spawned srv.
Proof.
  intros Hbpf. unfold onStdoutData.
  match goal with
  | |- context [on_chunk CFG ?f ?l ?c ?s] =>
      destruct (on_chunk_spec CFG Hbpf f l c s) as [frames [rest [E _]]]
  end.
  rewrite E. cbn [bind]. eexists. split; [reflexivity|].
  repeat split.
Qed.

Lemma onClose_leftover srv : leftover (onClose PLAYLIST srv) = [].
Proof.
  unfold onClose. cbn.
  destruct (shuttingDown srv); [reflexivity|].
  destruct (switching srv); reflexivity.
Qed.

(** A stream end outside shutdown: the carry-over is emptied, the video
    under the cursor is handed to a new child, the cursor moves on. *)
Lemma onClose_restart srv :
  shuttingDown srv = false -> switching srv = false ->
  leftover (onClose PLAYLIST srv) = []
  /\ spawned (onClose PLAYLIST srv) =
       spawned srv ++ [nth_error PLAYLIST (currentIndex srv)]
  /\ ff (onClose PLAYLIST srv) = Some (List.length (spawned srv))
  /\ currentIndex (onClose PLAYLIST srv) =
       ((currentIndex srv + 1) mod List.length PLAYLIST)%nat
  /\ shuttingDown (onClose PLAYLIST srv) = false
  /\ switching (onClose PLAYLIST srv) = false
  /\ clients (onClose PLAYLIST srv) = clients srv.
Proof.
  intros Hs Hw. unfold onClose. cbn. rewrite Hs, Hw. cbn.
  repeat split. exact Hs.
Qed.

(** A run of stdout chunks and stream ends, outside shutdown: it returns,
    and the children started are the playlist entries from the cursor on,
    one for each stream end. *)
Lemma run_spawned es :
  0 < bytesPerFrame CFG ->
  forall srv,
    shuttingDown srv = false -> switching srv = false ->
    exists srv',
      run CFG PLAYLIST io_throws srv es = Some srv'
      /\ spawned srv' =
           spawned srv ++ cycle PLAYLIST (currentIndex srv) (closes es)
      /\ shuttingDown srv' = false /\ switching srv' = false.
Proof.
  intros Hbpf. induction es as [|e es IH]; intros srv Hs Hw.
  - exists srv. simpl. rewrite app_nil_r. repeat split; assumption.
  - destruct e as [chunk|]; cbn [run handle closes].
    + destruct (onStdoutData_fields srv chunk Hbpf)
        as [s1 [E1 [Hi [_ [Hs1 [Hw1 Hp1]]]]]].
      rewrite E1. cbn [bind].
      destruct (IH s1) as [s2 [E2 [Hp2 [Hs2 Hw2]]]]; [congruence|congruence|].
      exists s2. rewrite E2, Hp2, Hp1, Hi. repeat split; assumption.
    + cbn [bind].
      destruct (onClose_restart srv Hs Hw) as [_ [Hp [_ [Hi [Hs1 [Hw1 _]]]]]].
      destruct (IH (onClose PLAYLIST srv) Hs1 Hw1) as [s2 [E2 [Hp2 [Hs2 Hw2]]]].
      exists s2. rewrite E2, Hp2, Hp, Hi, <- app_assoc.
      repeat split; assumption.
Qed.

End WithServer.

End ServerFacts.

(** ** Properties of the fit and of the rendered block *)

Module FitClaims.

Import FitFacts RenderFacts.

(** C2, as the scenario words it: on a 10 x 3 terminal over a 4 x 4 base
    with a cell aspect of 2.0 the fit would be 2 wide, 2 high, padded by 4.
    [computeFit] does not return that. *)
Lemma C2_fit_scenario_as_stated_fails :
  ~ (outW (computeFit (CFG_with 4 4) 10 3) = JInt 2
     /\ outH (computeFit (CFG_with 4 4) 10 3) = JInt 2
     /\ padX (computeFit (CFG_with 4 4) 10 3) = JInt 4).
Proof. vm_compute. intros [H _]. discriminate H. Qed.

(** C2, amended: on a 10 x 3 terminal over a 4 x 4 base with a cell aspect
    of 2.0, [computeFit] keeps 10 columns and 2 rows (one row reserved),
    and returns a block 4 wide and 2 high, padded by 3 columns on the left
    and by no row on top: 2 rows of cells twice as high as wide show a
    square source 4 cells wide. *)
Theorem C2_fit_scenario :
  charAspect (CFG_with 4 4) = of_Z 2
  /\ computeFit (CFG_with 4 4) 10 3 =
     {| dstW := JInt 10; dstH := JInt 2; outW := JInt 4; outH := JInt 2;
        padX := JInt 3; padY := JInt 0 |}.
Proof. split; vm_compute; reflexivity. Qed.

Lemma dstW_of_le cols : 1 <= cols -> dstW_of cols <= cols.
Proof.
  intros H. unfold dstW_of. pose proof (to_int32_le cols ltac:(lia)). lia.
Qed.

Lemma dstH_of_le rows : 2 <= rows -> dstH_of rows <= rows - 1.
Proof.
  intros H. unfold dstH_of. pose proof (to_int32_le rows ltac:(lia)). lia.
Qed.

Lemma dstH_of_exact rows : 2 <= rows <= 10001 -> dstH_of rows = rows - 1.
Proof.
  intros H. unfold dstH_of. rewrite to_int32_small by lia. lia.
Qed.

Lemma count_NL_ramp w h : count_NL (chars (CFG_with w h)) = O.
Proof. reflexivity. Qed.

(** C6, as stated, fails on a terminal taller than 10001 rows, which a
    16-bit NAWS height can announce: the block has 10000 lines, not
    [rows - 1]. *)
Lemma C6_letterbox_as_stated_fails :
  ~ (exists out,
       renderTruecolor (CFG_with 4 4) rgb_4x4 80 10002 = Some out
       /\ Z.of_nat (count_NL out) = 10002 - 1).
Proof.
  intros [out [E M]].
  destruct (renderTruecolor_lines (CFG_with 4 4) (count_NL_ramp 4 4)
              (aspect_defined_small 4 4 ltac:(lia) ltac:(lia))
              rgb_4x4 80 10002) as [out' [E' M']].
  rewrite E in E'. inversion E'; subst out'.
  rewrite M in M'. vm_compute in M'. discriminate M'.
Qed.

(** C6, amended: for every base size whose target aspect is a number and
    every destination with [cols >= 1] and [rows >= 2], the fit satisfies
    [outH + 2 * padY <= rows - 1] and [outW + 2 * padX <= cols], and each
    renderer returns a block of exactly [dstH] newline-terminated lines,
    where [dstH <= rows - 1] is the clamped height of the fit; [dstH] is
    [rows - 1] whenever [rows <= 10001]. *)
Theorem C6_letterbox_coverage
    (w h : Z) (grayFrame rgbFrame : list byte) (cols rows : Z) :
  aspect_defined (CFG_with w h) -> 1 <= cols -> 2 <= rows ->
  exists ow oh px py d outA outT,
    outW (computeFit (CFG_with w h) cols rows) = JInt ow
    /\ outH (computeFit (CFG_with w h) cols rows) = JInt oh
    /\ padX (computeFit (CFG_with w h) cols rows) = JInt px
    /\ padY (computeFit (CFG_with w h) cols rows) = JInt py
    /\ dstH (computeFit (CFG_with w h) cols rows) = JInt d
    /\ oh + 2 * py <= rows - 1
    /\ ow + 2 * px <= cols
    /\ renderAscii (CFG_with w h) grayFrame cols rows = Some outA
    /\ renderTruecolor (CFG_with w h) rgbFrame cols rows = Some outT
    /\ Z.of_nat (count_NL outA) = d
    /\ Z.of_nat (count_NL outT) = d
    /\ d <= rows - 1
    /\ (rows <= 10001 -> d = rows - 1).
Proof.
  intros Hasp Hcols Hrows.
  destruct (computeFit_shape _ Hasp cols rows) as [ow [oh [E [How Hoh]]]].
  destruct (renderAscii_lines _ (count_NL_ramp w h) Hasp grayFrame cols rows)
    as [outA [EA MA]].
  destruct (renderTruecolor_lines _ (count_NL_ramp w h) Hasp rgbFrame cols rows)
    as [outT [ET MT]].
  exists ow, oh, ((dstW_of cols - ow) / 2), ((dstH_of rows - oh) / 2),
         (dstH_of rows), outA, outT.
  rewrite E. cbn [outW outH padX padY dstH].
  pose proof (dstW_of_le cols Hcols) as Hw.
  pose proof (dstH_of_le rows Hrows) as Hh.
  pose proof (Z.mul_div_le (dstW_of cols - ow) 2 ltac:(lia)) as Hpx.
  pose proof (Z.mul_div_le (dstH_of rows - oh) 2 ltac:(lia)) as Hpy.
  repeat split; try reflexivity; try assumption; try lia.
  intros Hle. apply dstH_of_exact. lia.
Qed.

Lemma C6_letterbox_coverage_witness :
  exists ow oh px py d outA outT,
    outW (computeFit (CFG_with 4 4) 10 3) = JInt ow
    /\ outH (computeFit (CFG_with 4 4) 10 3) = JInt oh
    /\ padX (computeFit (CFG_with 4 4) 10 3) = JInt px
    /\ padY (computeFit (CFG_with 4 4) 10 3) = JInt py
    /\ dstH (computeFit (CFG_with 4 4) 10 3) = JInt d
    /\ oh + 2 * py <= 3 - 1
    /\ ow + 2 * px <= 10
    /\ renderAscii (CFG_with 4 4) gray_4x4 10 3 = Some outA
    /\ renderTruecolor (CFG_with 4 4) rgb_4x4 10 3 = Some outT
    /\ Z.of_nat (count_NL outA) = d
    /\ Z.of_nat (count_NL outT) = d
    /\ d <= 3 - 1
    /\ (3 <= 10001 -> d = 3 - 1).
Proof.
  apply (C6_letterbox_coverage 4 4 gray_4x4 rgb_4x4 10 3).
  - vm_compute. reflexivity.
  - lia.
  - lia.
Defined.

End FitClaims.

(** ** Properties of the client session *)

Module SessionClaims.

Import NawsFacts TextFacts HandlerFacts.

(** C1, as stated, fails: after the two halves of the report have gone
    through [parseNAWS] in order, a new socket still has no geometry. *)
Lemma C1_split_naws_as_stated_fails :
  ~ (cols (parseNAWS (parseNAWS (new_socket 0) naws_head) naws_tail) = Some 80
     /\ rows (parseNAWS (parseNAWS (new_socket 0) naws_head) naws_tail) = Some 24).
Proof. vm_compute. intros [H _]. discriminate H. Qed.

(** C1, amended: [parseNAWS] scans each chunk on its own and keeps nothing
    between calls.  The report cut into [255,250,31,0,80] and
    [0,24,255,240] leaves every socket exactly as it was, through
    [parseNAWS] and through the whole data handler; the nine bytes in one
    chunk set [cols = 80] and [rows = 24]. *)
Theorem C1_split_naws_is_ignored (sock : socket) :
  parseNAWS (parseNAWS sock naws_head) naws_tail = sock
  /\ onData CFG_default (onData CFG_default sock naws_head) naws_tail = sock
  /\ naws_head ++ naws_tail = naws_80x24
  /\ cols (parseNAWS sock naws_80x24) = Some 80
  /\ rows (parseNAWS sock naws_80x24) = Some 24.
Proof.
  assert (H1 : forall s, parseNAWS s naws_head = s)
    by (intros s; apply parseNAWS_short; vm_compute; lia).
  assert (H2 : forall s, parseNAWS s naws_tail = s)
    by (intros s; apply parseNAWS_short; vm_compute; lia).
  split; [rewrite H1; rewrite H2; reflexivity|].
  split; [|split; [reflexivity|split; reflexivity]].
  assert (Hd : forall s d,
    parseNAWS s d = s -> shouldToggle d = false ->
    shouldQuit CFG_default d = false -> onData CFG_default s d = s).
  { intros s d Hp Ht Hq. unfold onData. rewrite Hp, Ht, Hq. reflexivity. }
  rewrite (Hd sock naws_head (H1 sock)) by (vm_compute; reflexivity).
  apply Hd; [apply H2|vm_compute; reflexivity|vm_compute; reflexivity].
Qed.

(** C7: a chunk in which every sub-negotiation start [IAC SB NAWS] is
    followed by a width of zero, or by a height of zero, or is not closed
    by [IAC SE] seven bytes later, leaves the socket (so its [cols] and
    [rows]) unchanged; and whatever the bytes of a chunk, the scanning
    loop ends normally: nothing is thrown, the [catch] has nothing to
    swallow. *)
Theorem C7_malformed_naws_is_ignored (sock : socket) (data : list byte) :
  (forall i, marker_at data i = true -> rejected_at data i) ->
  parseNAWS sock data = sock
  /\ cols (parseNAWS sock data) = cols sock
  /\ rows (parseNAWS sock data) = rows sock
  /\ (forall (s : socket) (d : list byte),
        exists s', parseNAWS_try s d = Done s').
Proof.
  intros H. rewrite (parseNAWS_rejected sock data H).
  repeat split. intros s d. apply parseNAWS_try_done.
Qed.

(** The only sub-negotiation start of [naws_bad_end] is at offset 0. *)
Lemma naws_bad_end_rejected :
  forall i, marker_at naws_bad_end i = true -> rejected_at naws_bad_end i.
Proof.
  intros i Hm. left.
  destruct i as [|i]; [reflexivity|].
  unfold marker_at in Hm.
  do 9 (destruct i as [|i]; [discriminate Hm|]).
  unfold byte_is in Hm. simpl in Hm.
  destruct i; discriminate Hm.
Qed.

Lemma C7_malformed_naws_witness :
  parseNAWS (new_socket 0) naws_bad_end = new_socket 0
  /\ cols (parseNAWS (new_socket 0) naws_bad_end) = cols (new_socket 0)
  /\ rows (parseNAWS (new_socket 0) naws_bad_end) = rows (new_socket 0)
  /\ (forall (s : socket) (d : list byte),
        exists s', parseNAWS_try s d = Done s').
Proof.
  apply (C7_malformed_naws_is_ignored (new_socket 0) naws_bad_end).
  exact naws_bad_end_rejected.
Defined.

(** The two scans of the data handler read the same text, the chunk with
    its IAC bytes (255) removed, decoded as UTF-8; the mode is toggled
    exactly when that text includes "m" or "M", the connection is ended
    exactly when it includes one of the quit keys, and neither decision
    looks at the other: each of the four outcomes occurs, and the chunk
    "mq" both toggles the mode and quits.  In bytes: the toggle fires
    exactly on the chunks holding the byte of 'm' or of 'M', the default
    quit exactly on those holding the byte of 'q' or of 'Q'. *)
Lemma scans_share_text
    (CFG : config) (sock : socket) (data : list byte) :
  textFromTelnet data =
    Utf8.decode (filter (fun b => negb (byte_val b =? 255)) data)
  /\ shouldToggle data =
       includes (textFromTelnet data) (units_of_string "m")
       || includes (textFromTelnet data) (units_of_string "M")
  /\ shouldQuit CFG data =
       existsb (fun k => includes (textFromTelnet data) (units_of_string k))
               (quitKeys CFG)
  /\ mode (onData CFG sock data) =
       (if shouldToggle data then flip (mode sock) else mode sock)
  /\ ended (onData CFG sock data) = shouldQuit CFG data || ended sock
  /\ (shouldToggle data = true <->
        In 109 (map byte_val data) \/ In 77 (map byte_val data))
  /\ (shouldQuit CFG_default data = true <->
        In 113 (map byte_val data) \/ In 81 (map byte_val data))
  /\ (shouldToggle (bytes_of_string "mq") = true
      /\ shouldQuit CFG_default (bytes_of_string "mq") = true)
  /\ (shouldToggle (bytes_of_string "m") = true
      /\ shouldQuit CFG_default (bytes_of_string "m") = false)
  /\ (shouldToggle (bytes_of_string "q") = false
      /\ shouldQuit CFG_default (bytes_of_string "q") = true)
  /\ (shouldToggle (bytes_of_string "x") = false
      /\ shouldQuit CFG_default (bytes_of_string "x") = false).
Proof.
  split; [reflexivity|]. split; [reflexivity|]. split; [reflexivity|].
  split; [apply onData_mode|]. split; [apply onData_ended|].
  split; [apply shouldToggle_bytes|].
  split; [apply (shouldQuit_bytes 240 135)|].
  repeat split; vm_compute; reflexivity.
Qed.

(** C3, at an input where the code departs from it: the window-size
    report of a terminal 113 columns wide and 24 rows high, the nine
    bytes [255,250,31,0,113,0,24,255,240], alone in a chunk.  Of the
    negotiation sequence only the two IAC bytes are taken out before the
    scans: the text scanned has seven code units, among them the width
    byte 113, the letter q.  So the data handler, on a client that has
    just connected, sets the geometry to 113 x 24 and also takes the
    report for a quit key: it writes the cursor-restore sequence and ends
    the socket.  In the same way a report of 109 columns, whose width
    byte is the letter m, switches the client from mode 2 to mode 1.
    With the negotiation sequence stripped, the text would be empty and
    neither scan would fire, as on the empty chunk. *)
Theorem C3_negotiation_bytes_are_scanned :
  textFromTelnet (Buffer_from [255; 250; 31; 0; 113; 0; 24; 255; 240])
    = [65533; 31; 0; 113; 0; 24; 65533]
  /\ shouldQuit CFG_default
       (Buffer_from [255; 250; 31; 0; 113; 0; 24; 255; 240]) = true
  /\ cols (onData CFG_default (new_socket 0)
             (Buffer_from [255; 250; 31; 0; 113; 0; 24; 255; 240])) = Some 113
  /\ rows (onData CFG_default (new_socket 0)
             (Buffer_from [255; 250; 31; 0; 113; 0; 24; 255; 240])) = Some 24
  /\ ended (onData CFG_default (new_socket 0)
              (Buffer_from [255; 250; 31; 0; 113; 0; 24; 255; 240])) = true
  /\ written (onData CFG_default (new_socket 0)
                (Buffer_from [255; 250; 31; 0; 113; 0; 24; 255; 240]))
     = written (new_socket 0) ++ [Text (ESC ++ "[?25h" ++ NL)]
  /\ textFromTelnet (Buffer_from [255; 250; 31; 0; 109; 0; 24; 255; 240])
     = [65533; 31; 0; 109; 0; 24; 65533]
  /\ shouldToggle (Buffer_from [255; 250; 31; 0; 109; 0; 24; 255; 240]) = true
  /\ mode (new_socket 0) = 2
  /\ mode (onData CFG_default (new_socket 0)
             (Buffer_from [255; 250; 31; 0; 109; 0; 24; 255; 240])) = 1
  /\ (textFromTelnet [] = []
      /\ shouldQuit CFG_default [] = false /\ shouldToggle [] = false
      /\ onData CFG_default (new_socket 0) [] = new_socket 0).
Proof. repeat split; vm_compute; reflexivity. Qed.

(** Reports of zero width and of zero height leave a socket as it is. *)
Example naws_zero_size_ignored (sock : socket) :
  parseNAWS sock (Buffer_from [255; 250; 31; 0; 0; 0; 24; 255; 240]) = sock
  /\ parseNAWS sock (Buffer_from [255; 250; 31; 0; 80; 0; 0; 255; 240]) = sock.
Proof. split; reflexivity. Qed.

(** C10: whatever the chunk, the handler leaves the mode as it was or
    flips it once, according to whether the text includes "m" or "M" at
    all; the chunk "mm" flips it once, to a mode other than the one before
    (a new client, in truecolor mode 2, ends in ASCII mode 1). *)
Theorem C10_mode_flips_at_most_once
    (CFG : config) (sock : socket) (data : list byte) :
  mode (onData CFG sock data) =
    (if shouldToggle data then flip (mode sock) else mode sock)
  /\ mode (onData CFG sock (bytes_of_string "mm")) = flip (mode sock)
  /\ flip (mode sock) <> mode sock
  /\ mode (onData CFG (new_socket 0) (bytes_of_string "mm")) = 1.
Proof.
  split; [apply onData_mode|].
  split; [rewrite onData_mode; reflexivity|].
  split; [apply flip_changes|].
  rewrite onData_mode. reflexivity.
Qed.

End SessionClaims.

(** ** Properties of frame reassembly, broadcast and playlist *)

Module StreamClaims.

Import DemuxFacts ServerFacts.

(** Chunks that add up to a whole number of frames come out as the
    stream's frames, with nothing left over. *)
Lemma demux_all_frames (CFG : config) (stream : list byte) (chunks : list (list byte)) :
  0 < bytesPerFrame CFG ->
  Z.of_nat (List.length stream) mod bytesPerFrame CFG = 0 ->
  List.concat chunks = stream ->
  demux_all CFG [] chunks =
    Some ([], chop (Z.to_nat (bytesPerFrame CFG))
                   (List.length stream / Z.to_nat (bytesPerFrame CFG)) stream).
Proof.
  intros Hbpf Hmod Hcat.
  pose proof (frame_len_pos CFG Hbpf) as Hpos.
  fold (frame_len CFG) in *.
  assert (Hlen : List.length stream
                 = (List.length stream / frame_len CFG * frame_len CFG)%nat).
  { assert (Hm : (List.length stream mod frame_len CFG = 0)%nat).
    { apply Nat2Z.inj. rewrite Nat2Z.inj_mod. unfold frame_len.
      rewrite Z2Nat.id by lia. exact Hmod. }
    pose proof (Nat.div_mod_eq (List.length stream) (frame_len CFG)). lia. }
  destruct (chop_spec CFG _ stream Hlen) as [Hc Hw].
  destruct (demux_all_spec CFG Hbpf chunks [] Hpos)
    as [frames [rest [E [Hcat' [Hw' Hr]]]]].
  simpl in Hcat'. rewrite Hcat in Hcat'.
  destruct (cut_unique CFG _ frames [] rest Hw Hw' Hpos Hr) as [<- <-].
  { rewrite app_nil_r, Hc. exact Hcat'. }
  exact E.
Qed.

Lemma concat_singletons (s : list byte) : List.concat (map (fun b => [b]) s) = s.
Proof. induction s as [|b s IH]; simpl; [reflexivity|]. rewrite IH. reflexivity. Qed.

(** C4: when the frame size is positive and the stream's length is a
    multiple of it, every way of cutting the stream into chunks makes the
    demuxer yield the same frames in the same order (so do chunks of one
    byte each, and chunks that are the frames themselves), with an empty
    carry-over at the end; every frame yielded has exactly the frame size,
    and the frames put end to end are the stream. *)
Theorem C4_frame_reassembly
    (CFG : config) (stream : list byte) (chunks : list (list byte)) :
  0 < bytesPerFrame CFG ->
  Z.of_nat (List.length stream) mod bytesPerFrame CFG = 0 ->
  List.concat chunks = stream ->
  exists frames,
    demux_all CFG [] chunks = Some ([], frames)
    /\ demux_all CFG [] (map (fun b => [b]) stream) = Some ([], frames)
    /\ demux_all CFG [] frames = Some ([], frames)
    /\ Forall (fun frame => Z.of_nat (List.length frame) = bytesPerFrame CFG) frames
    /\ List.concat frames = stream.
Proof.
  intros Hbpf Hmod Hcat.
  pose proof (demux_all_frames CFG stream chunks Hbpf Hmod Hcat) as E.
  set (frames := chop _ _ stream) in E.
  exists frames.
  assert (Hframes : List.concat frames = stream
                    /\ Forall (whole CFG) frames).
  { destruct (demux_all_spec CFG Hbpf chunks [] (frame_len_pos CFG Hbpf))
      as [f [r [E' [Hc [Hw _]]]]].
    rewrite E in E'. inversion E'; subst f r.
    rewrite app_nil_r in Hc. simpl in Hc. split; [congruence|exact Hw]. }
  destruct Hframes as [Hc Hw].
  split; [exact E|].
  split; [apply demux_all_frames; auto using concat_singletons|].
  split; [apply demux_all_frames; assumption|].
  split; [|exact Hc].
  eapply Forall_impl; [|exact Hw].
  intros frame Hf. unfold whole, frame_len in Hf. lia.
Qed.

Lemma C4_frame_reassembly_witness :
  exists frames,
    demux_all (CFG_with 1 1) [] chunks_1x1 = Some ([], frames)
    /\ demux_all (CFG_with 1 1) [] (map (fun b => [b]) stream_1x1)
       = Some ([], frames)
    /\ demux_all (CFG_with 1 1) [] frames = Some ([], frames)
    /\ Forall (fun frame => Z.of_nat (List.length frame)
                            = bytesPerFrame (CFG_with 1 1)) frames
    /\ List.concat frames = stream_1x1.
Proof.
  apply (C4_frame_reassembly (CFG_with 1 1) stream_1x1 chunks_1x1).
  - reflexivity.
  - reflexivity.
  - reflexivity.
Defined.


(** A pass over three clients of a 1 x 1 video, the second of which fails
    on writing: the first and the third are each written their block (a
    third write after the two of the connection), the second alone is
    dropped, destroyed. *)
Example broadcast_pass_with_one_failure :
  let cs := map (fun id => onData (CFG_with 1 1) (new_socket id) naws_80x24)
                [1; 2; 3]%nat in
  let r := broadcast (CFG_with 1 1) (fun id => Nat.eqb id 2)
                     (Buffer_from [1; 2; 3]) cs in
  map sock_id (fst r) = [1; 3]%nat
  /\ map (fun s => List.length (written s)) (fst r) = [3; 3]%nat
  /\ map destroyed (fst r) = [false; false]
  /\ map sock_id (snd r) = [2]%nat
  /\ map destroyed (snd r) = [true]
  /\ map (fun s => List.length (written s)) (snd r) = [2]%nat.
Proof. vm_compute. repeat split. Qed.

(** C8: with a playlist of three videos and the frame size positive, a run
    from start-up in which the decoder's stream ends three times, with any
    stdout chunks before, between and after, returns, and has started
    children for the videos 0, 1, 2 and 0 again, in that order.  Every
    stream end empties the carry-over; outside shutdown it also replaces
    the child by one for the video under the cursor and moves the cursor
    on, modulo the playlist's length. *)
Theorem C8_playlist_wraps
    (CFG : config) (io_throws : nat -> bool) (a b c : string) (es : list event) :
  0 < bytesPerFrame CFG ->
  closes es = 3%nat ->
  exists srv,
    run CFG [a; b; c] io_throws (initial [a; b; c]) es = Some srv
    /\ spawned srv = [Some a; Some b; Some c; Some a]
    /\ (forall srv0, leftover (onClose [a; b; c] srv0) = [])
    /\ (forall srv0,
          shuttingDown srv0 = false -> switching srv0 = false ->
          spawned (onClose [a; b; c] srv0) =
            spawned srv0 ++ [nth_error [a; b; c] (currentIndex srv0)]
          /\ ff (onClose [a; b; c] srv0) = Some (List.length (spawned srv0))
          /\ currentIndex (onClose [a; b; c] srv0) =
               ((currentIndex srv0 + 1) mod 3)%nat).
Proof.
  intros Hbpf Hes.
  destruct (run_spawned CFG [a; b; c] io_throws es Hbpf (initial [a; b; c])
              eq_refl eq_refl) as [srv [E [Hp _]]].
  exists srv. split; [exact E|].
  split; [rewrite Hp, Hes; reflexivity|].
  split; [apply onClose_leftover|].
  intros srv0 Hs Hw.
  destruct (onClose_restart [a; b; c] srv0 Hs Hw) as [_ [H1 [H2 [H3 _]]]].
  auto.
Qed.

Lemma C8_playlist_wraps_witness :
  exists srv,
    run (CFG_with 1 1) ["a.mp4"; "b.mp4"; "c.mp4"]%string (fun _ => false)
        (initial ["a.mp4"; "b.mp4"; "c.mp4"]%string)
        [StdoutData stream_1x1; Close; StdoutData (Buffer_from [7; 8]); Close;
         Close] = Some srv
    /\ spawned srv = [Some "a.mp4"; Some "b.mp4"; Some "c.mp4"; Some "a.mp4"]%string
    /\ (forall srv0,
          leftover (onClose ["a.mp4"; "b.mp4"; "c.mp4"]%string srv0) = [])
    /\ (forall srv0,
          shuttingDown srv0 = false -> switching srv0 = false ->
          spawned (onClose ["a.mp4"; "b.mp4"; "c.mp4"]%string srv0) =
            spawned srv0
            ++ [nth_error ["a.mp4"; "b.mp4"; "c.mp4"]%string (currentIndex srv0)]
          /\ ff (onClose ["a.mp4"; "b.mp4"; "c.mp4"]%string srv0)
             = Some (List.length (spawned srv0))
          /\ currentIndex (onClose ["a.mp4"; "b.mp4"; "c.mp4"]%string srv0) =
               ((currentIndex srv0 + 1) mod 3)%nat).
Proof.
  apply (C8_playlist_wraps (CFG_with 1 1) (fun _ => false)
           "a.mp4" "b.mp4" "c.mp4").
  - reflexivity.
  - reflexivity.
Defined.

End StreamClaims.

(** ** Properties of the grayscale ramp *)

Module LutClaims.

Import FloatFacts.

(** On ramps of up to 256 characters the rounded quotient floors to the
    integer quotient, for every luma. *)
Lemma ramp_index_exact n v :
  1 <= n <= 256 -> 0 <= v <= 255 ->
  ramp_index n v = JInt (v * (n - 1) / 255).
Proof.
  intros Hn Hv. apply jsnum_eqb_eq.
  pose proof (forall_Zrange
    (fun n => forallb (fun v => jsnum_eqb (ramp_index n v) (JInt (v * (n - 1) / 255)))
                      (Zrange 0 (Z.to_nat 256)))
    1 (Z.to_nat 256)) as H.
  assert (Hall : forallb
    (fun n => forallb (fun v => jsnum_eqb (ramp_index n v) (JInt (v * (n - 1) / 255)))
                      (Zrange 0 (Z.to_nat 256)))
    (Zrange 1 (Z.to_nat 256)) = true) by (vm_compute; reflexivity).
  specialize (H Hall n ltac:(lia)).
  apply (forall_Zrange _ 0 (Z.to_nat 256) H v ltac:(lia)).
Qed.

Lemma LUT_index_ramp CFG v :
  LUT_index CFG v = ramp_index (Z.of_nat (String.length (chars CFG))) v.
Proof. reflexivity. Qed.

Lemma nth_error_Zrange lo n k :
  (k < n)%nat -> nth_error (Zrange lo n) k = Some (lo + Z.of_nat k).
Proof.
  intros H. unfold Zrange. rewrite nth_error_map, nth_error_seq.
  replace (k <? n)%nat with true by (symmetry; apply Nat.ltb_lt; exact H).
  reflexivity.
Qed.

(** C9: on a ramp of [N] characters, 1 to 256 of them (the configured one
    has 10), the lookup table holds at luma [v] the ramp character of
    index [floor (v * (N - 1) / 255)], and for all lumas [u <= v] in
    0..255 the index at [u] is at most the index at [v]: a brighter pixel
    never gets a darker character. *)
Theorem C9_lookup_monotone (CFG : config) (u v : Z) :
  1 <= Z.of_nat (String.length (chars CFG)) <= 256 ->
  0 <= u -> u <= v -> v <= 255 ->
  exists i j,
    LUT_index CFG u = JInt i /\ LUT_index CFG v = JInt j
    /\ i = u * (Z.of_nat (String.length (chars CFG)) - 1) / 255
    /\ j = v * (Z.of_nat (String.length (chars CFG)) - 1) / 255
    /\ nth_error (LUT CFG) (Z.to_nat u) = Some (String.get (Z.to_nat i) (chars CFG))
    /\ nth_error (LUT CFG) (Z.to_nat v) = Some (String.get (Z.to_nat j) (chars CFG))
    /\ 0 <= i /\ i <= j /\ j <= Z.of_nat (String.length (chars CFG)) - 1.
Proof.
  intros Hn Hu Huv Hv.
  set (n := Z.of_nat (String.length (chars CFG))) in *.
  exists (u * (n - 1) / 255), (v * (n - 1) / 255).
  rewrite !LUT_index_ramp. fold n.
  rewrite !ramp_index_exact by lia.
  assert (Hi : 0 <= u * (n - 1) / 255) by (apply Z.div_pos; nia).
  assert (Hj : 0 <= v * (n - 1) / 255) by (apply Z.div_pos; nia).
  assert (Hlut : forall x, 0 <= x <= 255 ->
    nth_error (LUT CFG) (Z.to_nat x)
    = Some (String.get (Z.to_nat (x * (n - 1) / 255)) (chars CFG))).
  { intros x Hx. unfold LUT. rewrite nth_error_map, nth_error_Zrange by lia.
    cbn [option_map]. rewrite ?Z.add_0_l. rewrite Z2Nat.id by lia.
    rewrite LUT_index_ramp. fold n. rewrite ramp_index_exact by lia.
    unfold char_at.
    destruct (x * (n - 1) / 255 <? 0) eqn:E; [|reflexivity].
    assert (0 <= x * (n - 1) / 255) by (apply Z.div_pos; nia). lia. }
  rewrite !Hlut by lia.
  repeat split; try assumption.
  - apply Z.div_le_mono; nia.
  - apply Z.div_le_upper_bound; nia.
Qed.

Lemma C9_lookup_monotone_witness :
  exists i j,
    LUT_index CFG_default 100 = JInt i /\ LUT_index CFG_default 200 = JInt j
    /\ i = 100 * (Z.of_nat (String.length (chars CFG_default)) - 1) / 255
    /\ j = 200 * (Z.of_nat (String.length (chars CFG_default)) - 1) / 255
    /\ nth_error (LUT CFG_default) (Z.to_nat 100)
       = Some (String.get (Z.to_nat i) (chars CFG_default))
    /\ nth_error (LUT CFG_default) (Z.to_nat 200)
       = Some (String.get (Z.to_nat j) (chars CFG_default))
    /\ 0 <= i /\ i <= j
    /\ j <= Z.of_nat (String.length (chars CFG_default)) - 1.
Proof.
  apply (C9_lookup_monotone CFG_default 100 200).
  - simpl. lia.
  - lia.
  - lia.
  - lia.
Defined.

End LutClaims.

(** ** Further properties: fitting and rendering *)

Module FitExtras.

Import FloatFacts FitFacts RenderFacts.

(** The fit is centred: on each axis the padding before the block is the
    floor of half the free space, so the padding after it is the same or
    one more.  All sizes are integers, the destination within 1..10000,
    the block within the destination. *)
Theorem computeFit_centred (CFG : config) (cols rows : Z) :
  aspect_defined CFG ->
  exists dw dh ow oh px py,
    computeFit CFG cols rows =
      {| dstW := JInt dw; dstH := JInt dh; outW := JInt ow; outH := JInt oh;
         padX := JInt px; padY := JInt py |}
    /\ 1 <= dw <= 10000 /\ 1 <= dh <= 10000
    /\ 1 <= ow <= dw /\ 1 <= oh <= dh
    /\ 0 <= px /\ px <= dw - px - ow <= px + 1
    /\ 0 <= py /\ py <= dh - py - oh <= py + 1.
Proof.
  intros Hasp.
  destruct (computeFit_shape CFG Hasp cols rows) as [ow [oh [E [How Hoh]]]].
  exists (dstW_of cols), (dstH_of rows), ow, oh,
         ((dstW_of cols - ow) / 2), ((dstH_of rows - oh) / 2).
  split; [exact E|].
  assert (Hw : 1 <= dstW_of cols <= 10000) by (unfold dstW_of; lia).
  assert (Hh : 1 <= dstH_of rows <= 10000) by (unfold dstH_of; lia).
  pose proof (Z.div_mod (dstW_of cols - ow) 2 ltac:(lia)) as Hx.
  pose proof (Z.mod_pos_bound (dstW_of cols - ow) 2 ltac:(lia)) as Hx'.
  pose proof (Z.div_mod (dstH_of rows - oh) 2 ltac:(lia)) as Hy.
  pose proof (Z.mod_pos_bound (dstH_of rows - oh) 2 ltac:(lia)) as Hy'.
  assert (0 <= (dstW_of cols - ow) / 2) by (apply Z.div_pos; lia).
  assert (0 <= (dstH_of rows - oh) / 2) by (apply Z.div_pos; lia).
  repeat split; lia.
Qed.

Lemma computeFit_centred_witness :
  exists dw dh ow oh px py,
    computeFit CFG_default 80 24 =
      {| dstW := JInt dw; dstH := JInt dh; outW := JInt ow; outH := JInt oh;
         padX := JInt px; padY := JInt py |}
    /\ 1 <= dw <= 10000 /\ 1 <= dh <= 10000
    /\ 1 <= ow <= dw /\ 1 <= oh <= dh
    /\ 0 <= px /\ px <= dw - px - ow <= px + 1
    /\ 0 <= py /\ py <= dh - py - oh <= py + 1.
Proof.
  apply (computeFit_centred CFG_default 80 24).
  vm_compute. reflexivity.
Defined.

Lemma fdiv_nan_r x : fdiv x S754_nan = S754_nan.
Proof. destruct x; reflexivity. Qed.

(** With a target aspect that is no number (a base size of 0 x 0), every
    size of the block is NaN for every terminal, and no loop of a renderer
    makes a turn. *)
Lemma computeFit_nan (CFG : config) (cols rows : Z) :
  is_nan (targetHOverW CFG) = true ->
  computeFit CFG cols rows =
    {| dstW := JInt (dstW_of cols); dstH := JInt (dstH_of rows);
       outW := JNaN; outH := JNaN; padX := JNaN; padY := JNaN |}.
Proof.
  intros Hnan. unfold computeFit.
  destruct (targetHOverW CFG) eqn:Et; try discriminate Hnan.
  rewrite !clampInt_int by lia. fold (dstW_of cols) (dstH_of rows).
  rewrite fdiv_nan_r. reflexivity.
Qed.

(** A configuration without a target aspect renders nothing but the
    cursor-home sequence: whatever the terminal and the frame, both
    renderers return [ESC "[H"], and the block sizes are NaN. *)
Theorem degenerate_aspect_renders_nothing
    (CFG : config) (frame : list byte) (cols rows : Z) :
  is_nan (targetHOverW CFG) = true ->
  outW (computeFit CFG cols rows) = JNaN
  /\ outH (computeFit CFG cols rows) = JNaN
  /\ padX (computeFit CFG cols rows) = JNaN
  /\ padY (computeFit CFG cols rows) = JNaN
  /\ renderAscii CFG frame cols rows = Some (ESC ++ "[H")%string
  /\ renderTruecolor CFG frame cols rows = Some (ESC ++ "[H")%string.
Proof.
  intros Hnan. pose proof (computeFit_nan CFG cols rows Hnan) as E.
  rewrite E. cbn [outW outH padX padY].
  do 4 (split; [reflexivity|]).
  assert (Hw : (dstW_of cols <? 0) = false) by (unfold dstW_of; lia).
  split.
  - unfold renderAscii. rewrite E. cbn [dstW dstH outW outH padX padY].
    unfold String_repeat. rewrite Hw. reflexivity.
  - unfold renderTruecolor. rewrite E. cbn [dstW dstH outW outH padX padY].
    unfold String_repeat. rewrite Hw. reflexivity.
Qed.

Lemma degenerate_aspect_witness :
  outW (computeFit (CFG_with 0 0) 80 24) = JNaN
  /\ outH (computeFit (CFG_with 0 0) 80 24) = JNaN
  /\ padX (computeFit (CFG_with 0 0) 80 24) = JNaN
  /\ padY (computeFit (CFG_with 0 0) 80 24) = JNaN
  /\ renderAscii (CFG_with 0 0) rgb_4x4 80 24 = Some (ESC ++ "[H")%string
  /\ renderTruecolor (CFG_with 0 0) rgb_4x4 80 24 = Some (ESC ++ "[H")%string.
Proof.
  apply (degenerate_aspect_renders_nothing (CFG_with 0 0) rgb_4x4 80 24).
  vm_compute. reflexivity.
Defined.

End FitExtras.

Module RenderExtras.

Import FloatFacts FitFacts RenderFacts TextFacts LutClaims.

Lemma byte_val_byte_of z : byte_val (byte_of z) = z mod 256.
Proof.
  unfold byte_of, byte_val.
  pose proof (Z.mod_pos_bound z 256 ltac:(lia)) as Hm.
  destruct (Byte.of_N (Z.to_N (z mod 256))) as [b|] eqn:E.
  - apply Byte.to_of_N in E. rewrite E. lia.
  - apply Byte.of_N_None_iff in E. lia.
Qed.

Lemma buf_get_range buf i v : buf_get buf i = Some v -> 0 <= v <= 255.
Proof.
  unfold buf_get. destruct i as [z| |]; try discriminate.
  destruct (z <? 0); [discriminate|].
  destruct (nth_error buf (Z.to_nat z)) as [b|]; [|discriminate].
  simpl. intros H. injection H as <-. apply byte_val_range.
Qed.

Lemma luma_div r g b :
  luma (Some r) (Some g) (Some b) = (54 * r + 183 * g + 19 * b) / 256.
Proof. unfold luma. rewrite Z.shiftr_div_pow2 by lia. reflexivity. Qed.

(** The luma of a pixel: a byte again (the three weights add up to 256),
    the grey level itself on a grey pixel, and never smaller when a
    component grows; a pixel with a component missing counts as black. *)
Theorem luma_is_a_grey_level (r g b r' g' b' : Z) :
  0 <= r <= 255 -> 0 <= g <= 255 -> 0 <= b <= 255 ->
  r <= r' -> g <= g' -> b <= b' ->
  0 <= luma (Some r) (Some g) (Some b) <= 255
  /\ luma (Some r) (Some r) (Some r) = r
  /\ luma (Some r) (Some g) (Some b) <= luma (Some r') (Some g') (Some b')
  /\ luma None (Some g) (Some b) = 0
  /\ luma (Some r) None (Some b) = 0
  /\ luma (Some r) (Some g) None = 0.
Proof.
  intros Hr Hg Hb Hr' Hg' Hb'. rewrite !luma_div.
  split; [split|split; [|split; [|repeat split]]].
  - apply Z.div_pos; lia.
  - apply Z.div_le_upper_bound; lia.
  - replace (54 * r + 183 * r + 19 * r) with (r * 256) by lia.
    apply Z.div_mul. lia.
  - apply Z.div_le_mono; lia.
Qed.

Lemma luma_is_a_grey_level_witness :
  0 <= luma (Some 255) (Some 128) (Some 0) <= 255
  /\ luma (Some 255) (Some 255) (Some 255) = 255
  /\ luma (Some 255) (Some 128) (Some 0) <= luma (Some 255) (Some 200) (Some 10)
  /\ luma None (Some 128) (Some 0) = 0
  /\ luma (Some 255) None (Some 0) = 0
  /\ luma (Some 255) (Some 128) None = 0.
Proof.
  apply (luma_is_a_grey_level 255 128 0 255 200 10); lia.
Defined.

Lemma luma_byte r g b :
  (forall v, r = Some v -> 0 <= v <= 255) ->
  (forall v, g = Some v -> 0 <= v <= 255) ->
  (forall v, b = Some v -> 0 <= v <= 255) ->
  0 <= luma r g b <= 255.
Proof.
  intros Hr Hg Hb. destruct r as [r|], g as [g|], b as [b|];
    try (simpl; lia).
  rewrite luma_div.
  specialize (Hr r eq_refl). specialize (Hg g eq_refl). specialize (Hb b eq_refl).
  split; [apply Z.div_pos; lia|apply Z.div_le_upper_bound; lia].
Qed.

(** The grey plane of a frame, pixel by pixel. *)
Lemma rgbToGray_spec (CFG : config) (rgbFrame : list byte) :
  0 <= baseW CFG * baseH CFG ->
  exists gray,
    rgbToGray CFG rgbFrame = Some gray
    /\ Z.of_nat (List.length gray) = baseW CFG * baseH CFG
    /\ (forall i, 0 <= i < baseW CFG * baseH CFG ->
          buf_get gray (JInt i) =
            Some (luma (buf_get rgbFrame (JInt (3 * i)))
                       (buf_get rgbFrame (JInt (3 * i + 1)))
                       (buf_get rgbFrame (JInt (3 * i + 2)))))
    /\ (forall i, Z.of_nat (List.length rgbFrame) <= 3 * i < 3 * (baseW CFG * baseH CFG) ->
          buf_get gray (JInt i) = Some 0).
Proof.
  intros Hn. unfold rgbToGray.
  destruct (baseW CFG * baseH CFG <? 0) eqn:E; [lia|].
  set (n := baseW CFG * baseH CFG) in *.
  eexists. split; [reflexivity|].
  split; [rewrite length_map; unfold Zrange; rewrite length_map, length_seq; lia|].
  assert (Hget : forall i, 0 <= i < n ->
    buf_get
      (map (fun i => let j := 3 * i in
                     byte_of (luma (buf_get rgbFrame (JInt j))
                                   (buf_get rgbFrame (JInt (j + 1)))
                                   (buf_get rgbFrame (JInt (j + 2)))))
           (Zrange 0 (Z.to_nat n))) (JInt i)
    = Some (luma (buf_get rgbFrame (JInt (3 * i)))
                 (buf_get rgbFrame (JInt (3 * i + 1)))
                 (buf_get rgbFrame (JInt (3 * i + 2))))).
  { intros i Hi. unfold buf_get at 1.
    destruct (i <? 0) eqn:Ei; [lia|].
    rewrite nth_error_map, nth_error_Zrange by lia.
    cbn [option_map]. rewrite Z.add_0_l, Z2Nat.id by lia.
    cbv zeta. rewrite byte_val_byte_of. f_equal.
    apply Z.mod_small.
    pose proof (luma_byte (buf_get rgbFrame (JInt (3 * i)))
                          (buf_get rgbFrame (JInt (3 * i + 1)))
                          (buf_get rgbFrame (JInt (3 * i + 2)))
                          (buf_get_range _ _) (buf_get_range _ _)
                          (buf_get_range _ _)).
    lia. }
  split; [exact Hget|].
  intros i Hi. rewrite Hget by lia.
  assert (Hnone : buf_get rgbFrame (JInt (3 * i)) = None).
  { unfold buf_get. destruct (3 * i <? 0); [reflexivity|].
    replace (nth_error rgbFrame (Z.to_nat (3 * i))) with (@None byte);
      [reflexivity|].
    symmetry. apply nth_error_None. lia. }
  rewrite Hnone. reflexivity.
Qed.

(** [rgbToGray] on a base size of non-negative area: one byte for each of
    the [baseW * baseH] pixels, whose value is the luma of that pixel of
    the frame (no wrap-around when it is stored), pixels past the end of a
    short frame counting as black. *)
Theorem rgbToGray_luma_plane (CFG : config) (rgbFrame : list byte) :
  0 <= baseW CFG * baseH CFG ->
  exists gray,
    rgbToGray CFG rgbFrame = Some gray
    /\ Z.of_nat (List.length gray) = baseW CFG * baseH CFG
    /\ (forall i, 0 <= i < baseW CFG * baseH CFG ->
          buf_get gray (JInt i) =
            Some (luma (buf_get rgbFrame (JInt (3 * i)))
                       (buf_get rgbFrame (JInt (3 * i + 1)))
                       (buf_get rgbFrame (JInt (3 * i + 2)))))
    /\ (forall i, Z.of_nat (List.length rgbFrame) <= 3 * i < 3 * (baseW CFG * baseH CFG) ->
          buf_get gray (JInt i) = Some 0).
Proof. exact (rgbToGray_spec CFG rgbFrame). Qed.

Lemma rgbToGray_luma_plane_witness :
  exists gray,
    rgbToGray (CFG_with 4 4) rgb_4x4 = Some gray
    /\ Z.of_nat (List.length gray) = baseW (CFG_with 4 4) * baseH (CFG_with 4 4)
    /\ (forall i, 0 <= i < baseW (CFG_with 4 4) * baseH (CFG_with 4 4) ->
          buf_get gray (JInt i) =
            Some (luma (buf_get rgb_4x4 (JInt (3 * i)))
                       (buf_get rgb_4x4 (JInt (3 * i + 1)))
                       (buf_get rgb_4x4 (JInt (3 * i + 2)))))
    /\ (forall i, Z.of_nat (List.length rgb_4x4) <= 3 * i
                  < 3 * (baseW (CFG_with 4 4) * baseH (CFG_with 4 4)) ->
          buf_get gray (JInt i) = Some 0).
Proof.
  apply (rgbToGray_luma_plane (CFG_with 4 4) rgb_4x4).
  simpl. lia.
Defined.

Lemma get_in_range (s : string) :
  forall i, (i < String.length s)%nat ->
  exists c, String.get i s = Some c /\ In c (list_ascii_of_string s).
Proof.
  induction s as [|a s IH]; intros i Hi; simpl in Hi; [lia|].
  destruct i as [|i]; simpl.
  - exists a. split; [reflexivity|left; reflexivity].
  - destruct (IH i ltac:(lia)) as [c [Hc Hin]].
    exists c. split; [exact Hc|right; exact Hin].
Qed.

(** On a ramp of 1 to 256 characters the lookup table has an entry for
    each of the 256 lumas, every entry is a character of the ramp (never
    [undefined]), luma 0 gets the first character and luma 255 the last. *)
Theorem LUT_covers_ramp (CFG : config) :
  1 <= Z.of_nat (String.length (chars CFG)) <= 256 ->
  List.length (LUT CFG) = 256%nat
  /\ (forall v, 0 <= v <= 255 ->
        exists c, nth_error (LUT CFG) (Z.to_nat v) = Some (Some c)
                  /\ LUT_text CFG (Some v) = String c EmptyString
                  /\ In c (list_ascii_of_string (chars CFG)))
  /\ nth_error (LUT CFG) 0 = Some (String.get 0 (chars CFG))
  /\ nth_error (LUT CFG) 255 =
       Some (String.get (String.length (chars CFG) - 1) (chars CFG)).
Proof.
  intros Hn. set (n := Z.of_nat (String.length (chars CFG))) in *.
  assert (Hlut : forall x, 0 <= x <= 255 ->
    nth_error (LUT CFG) (Z.to_nat x)
    = Some (String.get (Z.to_nat (x * (n - 1) / 255)) (chars CFG))).
  { intros x Hx. unfold LUT. rewrite nth_error_map, nth_error_Zrange by lia.
    cbn [option_map]. rewrite ?Z.add_0_l. rewrite Z2Nat.id by lia.
    rewrite LUT_index_ramp. fold n. rewrite ramp_index_exact by lia.
    unfold char_at.
    destruct (x * (n - 1) / 255 <? 0) eqn:E; [|reflexivity].
    assert (0 <= x * (n - 1) / 255) by (apply Z.div_pos; nia). lia. }
  split; [unfold LUT, Zrange; rewrite !length_map, length_seq; reflexivity|].
  split.
  - intros v Hv.
    assert (Hi : 0 <= v * (n - 1) / 255 <= n - 1).
    { split; [apply Z.div_pos; nia|apply Z.div_le_upper_bound; nia]. }
    destruct (get_in_range (chars CFG) (Z.to_nat (v * (n - 1) / 255)))
      as [c [Hc Hin]]; [unfold n in *; lia|].
    exists c. rewrite (Hlut v Hv), Hc. split; [reflexivity|].
    split; [|exact Hin].
    unfold LUT_text. rewrite (Hlut v Hv), Hc. reflexivity.
  - split.
    + pose proof (Hlut 0 ltac:(lia)) as H0.
      change (Z.to_nat 0) with 0%nat in H0. rewrite H0. reflexivity.
    + pose proof (Hlut 255 ltac:(lia)) as H255.
      change (Z.to_nat 255) with 255%nat in H255. rewrite H255.
      replace (255 * (n - 1) / 255) with (n - 1)
        by (rewrite Z.mul_comm, Z.div_mul; lia).
      do 2 f_equal. unfold n. lia.
Qed.

Lemma LUT_covers_ramp_witness :
  List.length (LUT CFG_default) = 256%nat
  /\ (forall v, 0 <= v <= 255 ->
        exists c, nth_error (LUT CFG_default) (Z.to_nat v) = Some (Some c)
                  /\ LUT_text CFG_default (Some v) = String c EmptyString
                  /\ In c (list_ascii_of_string (chars CFG_default)))
  /\ nth_error (LUT CFG_default) 0 = Some (String.get 0 (chars CFG_default))
  /\ nth_error (LUT CFG_default) 255 =
       Some (String.get (String.length (chars CFG_default) - 1)
                        (chars CFG_default)).
Proof.
  apply (LUT_covers_ramp CFG_default). simpl. lia.
Defined.

Lemma bind_some {A B : Type} (m : option A) (k : A -> option B) b :
  bind m k = Some b -> exists a, m = Some a /\ k a = Some b.
Proof. destruct m as [a|]; [intros H; exists a; auto|discriminate]. Qed.

Lemma iterate_keeps {A : Type} (P : A -> Prop) (body : Z -> A -> option A) :
  (forall i a a', body i a = Some a' -> P a -> P a') ->
  forall n i a a', iterate n i body a = Some a' -> P a -> P a'.
Proof.
  intros Hbody. induction n as [|n IH]; intros i a a' H Ha; simpl in H.
  - injection H as <-. exact Ha.
  - apply bind_some in H. destruct H as [a1 [H1 H2]].
    apply (IH _ _ _ H2). apply (Hbody _ _ _ H1 Ha).
Qed.

Lemma for_lt_keeps {A : Type} (P : A -> Prop) (body : Z -> A -> option A) n a a' :
  (forall i a a', body i a = Some a' -> P a -> P a') ->
  for_lt n body a = Some a' -> P a -> P a'.
Proof.
  intros Hbody. destruct n as [z|[]|]; simpl; intros H Ha.
  - apply (iterate_keeps P body Hbody _ _ _ _ H Ha).
  - injection H as <-. exact Ha.
  - discriminate.
  - injection H as <-. exact Ha.
Qed.

Lemma append_assoc (a b c : string) : ((a ++ b) ++ c = a ++ (b ++ c))%string.
Proof. induction a as [|x a IH]; simpl; [reflexivity|]. rewrite IH. reflexivity. Qed.

Lemma homed_app out x : homed out -> homed (out ++ x)%string.
Proof.
  intros [rest ->]. exists (rest ++ x)%string.
  rewrite !append_assoc. reflexivity.
Qed.

Lemma homed_start : homed (ESC ++ "[H")%string.
Proof. exists EmptyString. reflexivity. Qed.

Lemma renderAscii_homed CFG grayFrame cols rows out :
  renderAscii CFG grayFrame cols rows = Some out -> homed out.
Proof.
  unfold renderAscii. intros H.
  apply bind_some in H. destruct H as [spaces [_ H]].
  apply bind_some in H. destruct H as [o1 [H1 H]].
  apply bind_some in H. destruct H as [o2 [H2 H]].
  assert (P1 : homed o1).
  { refine (for_lt_keeps homed _ _ _ _ _ H1 homed_start).
    intros i a a' E Ha. cbv beta in E. injection E as <-.
    apply homed_app, Ha. }
  assert (P2 : homed o2).
  { refine (for_lt_keeps homed _ _ _ _ _ H2 P1).
    intros i a a' E Ha. cbv beta zeta in E.
    apply bind_some in E. destruct E as [l0 [_ E]].
    apply bind_some in E. destruct E as [l1 [_ E]].
    apply bind_some in E. destruct E as [l2 [_ E]].
    injection E as <-. apply homed_app, Ha. }
  refine (for_lt_keeps homed _ _ _ _ _ H P2).
  intros i a a' E Ha. cbv beta in E. injection E as <-. apply homed_app, Ha.
Qed.

Lemma renderTruecolor_homed CFG rgbFrame cols rows out :
  renderTruecolor CFG rgbFrame cols rows = Some out -> homed out.
Proof.
  unfold renderTruecolor. intros H.
  apply bind_some in H. destruct H as [spaces [_ H]].
  apply bind_some in H. destruct H as [o1 [H1 H]].
  apply bind_some in H. destruct H as [o2 [H2 H]].
  assert (P1 : homed o1).
  { refine (for_lt_keeps homed _ _ _ _ _ H1 homed_start).
    intros i a a' E Ha. cbv beta in E. injection E as <-.
    apply homed_app, Ha. }
  assert (P2 : homed o2).
  { refine (for_lt_keeps homed _ _ _ _ _ H2 P1).
    intros i a a' E Ha. cbv beta zeta in E.
    apply bind_some in E. destruct E as [l0 [_ E]].
    apply bind_some in E. destruct E as [st [_ E]].
    apply bind_some in E. destruct E as [l2 [_ E]].
    injection E as <-. apply homed_app, Ha. }
  refine (for_lt_keeps homed _ _ _ _ _ H P2).
  intros i a a' E Ha. cbv beta in E. injection E as <-. apply homed_app, Ha.
Qed.

(** A frame renders in every mode. *)
Lemma renderFrameForClient_spec
    (w h : Z) (rgbFrame : list byte) (cols rows m : Z) :
  aspect_defined (CFG_with w h) -> 0 <= w * h ->
  exists out rest d,
    renderFrameForClient (CFG_with w h) rgbFrame cols rows m = Some out
    /\ (m = 2 -> renderTruecolor (CFG_with w h) rgbFrame cols rows = Some out)
    /\ (m <> 2 -> exists gray,
          rgbToGray (CFG_with w h) rgbFrame = Some gray
          /\ renderAscii (CFG_with w h) gray cols rows = Some out)
    /\ out = (ESC ++ "[H" ++ rest)%string
    /\ dstH (computeFit (CFG_with w h) cols rows) = JInt d
    /\ Z.of_nat (count_NL out) = d.
Proof.
  intros Hasp Harea.
  destruct (computeFit_shape _ Hasp cols rows) as [ow [oh [E _]]].
  unfold renderFrameForClient.
  destruct (m =? 2) eqn:Em.
  - destruct (renderTruecolor_lines _ (eq_refl : count_NL (chars (CFG_with w h)) = O)
                Hasp rgbFrame cols rows) as [out [Eo Mo]].
    destruct (renderTruecolor_homed _ _ _ _ _ Eo) as [rest Hrest].
    exists out, rest, (dstH_of rows). rewrite E. cbn [dstH].
    repeat split; auto. intros Hm. lia.
  - destruct (rgbToGray_spec (CFG_with w h) rgbFrame Harea)
      as [gray [Eg _]].
    destruct (renderAscii_lines _ (eq_refl : count_NL (chars (CFG_with w h)) = O)
                Hasp gray cols rows) as [out [Eo Mo]].
    destruct (renderAscii_homed _ _ _ _ _ Eo) as [rest Hrest].
    exists out, rest, (dstH_of rows). rewrite E, Eg. cbn [dstH bind].
    repeat split; auto; [lia|].
    intros _. exists gray. auto.
Qed.

(** Whatever the mode, [renderFrameForClient] returns a block for every
    frame and terminal when the base area is not negative and the target
    aspect is a number: truecolor for mode 2, ASCII for any other value;
    the block starts with the cursor-home sequence (it never clears the
    screen) and has exactly [dstH] line terminators. *)
Theorem renderFrameForClient_block
    (w h : Z) (rgbFrame : list byte) (cols rows m : Z) :
  aspect_defined (CFG_with w h) -> 0 <= w * h ->
  exists out rest d,
    renderFrameForClient (CFG_with w h) rgbFrame cols rows m = Some out
    /\ (m = 2 -> renderTruecolor (CFG_with w h) rgbFrame cols rows = Some out)
    /\ (m <> 2 -> exists gray,
          rgbToGray (CFG_with w h) rgbFrame = Some gray
          /\ renderAscii (CFG_with w h) gray cols rows = Some out)
    /\ out = (ESC ++ "[H" ++ rest)%string
    /\ dstH (computeFit (CFG_with w h) cols rows) = JInt d
    /\ Z.of_nat (count_NL out) = d.
Proof. exact (renderFrameForClient_spec w h rgbFrame cols rows m). Qed.

Lemma renderFrameForClient_block_witness :
  exists out rest d,
    renderFrameForClient (CFG_with 4 4) rgb_4x4 10 3 1 = Some out
    /\ (1 = 2 -> renderTruecolor (CFG_with 4 4) rgb_4x4 10 3 = Some out)
    /\ (1 <> 2 -> exists gray,
          rgbToGray (CFG_with 4 4) rgb_4x4 = Some gray
          /\ renderAscii (CFG_with 4 4) gray 10 3 = Some out)
    /\ out = (ESC ++ "[H" ++ rest)%string
    /\ dstH (computeFit (CFG_with 4 4) 10 3) = JInt d
    /\ Z.of_nat (count_NL out) = d.
Proof.
  apply (renderFrameForClient_block 4 4 rgb_4x4 10 3 1).
  - vm_compute. reflexivity.
  - lia.
Defined.

End RenderExtras.

(** ** Further properties: the client session *)

Module SessionExtras.

Import NawsFacts TextFacts HandlerFacts RenderExtras.

Lemma byte_is_in_range data i v : byte_is data i v = true -> (i < List.length data)%nat.
Proof.
  unfold byte_is. destruct (nth_error data i) eqn:E; [|discriminate].
  intros _. apply nth_error_Some. congruence.
Qed.

Lemma parseNAWS_at_accepted data i w h sock :
  accepted_at data i w h -> parseNAWS_at data i sock = Done (set_geometry sock w h).
Proof.
  intros [Hm [Hc [Hw [Hh [Hwp Hhp]]]]]. unfold parseNAWS_at.
  fold (marker_at data i). rewrite Hm.
  unfold closed_at in Hc. apply andb_true_iff in Hc. destruct Hc as [H7 H8].
  rewrite H7, H8, Hw, Hh. simpl.
  replace (0 <? w) with true by lia. replace (0 <? h) with true by lia.
  reflexivity.
Qed.

Lemma parseNAWS_loop_rejected_from data n :
  forall i sock,
    (forall j, (i <= j)%nat -> marker_at data j = true -> rejected_at data j) ->
    parseNAWS_loop data n i sock = Done sock
    \/ parseNAWS_loop data n i sock = Thrown sock.
Proof.
  induction n as [|n IH]; intros i sock H; simpl; [left; reflexivity|].
  destruct (parseNAWS_at_rejected data i sock (H i (le_n i))) as [E|E]; rewrite E.
  - apply IH. intros j Hj. apply H. lia.
  - right. reflexivity.
Qed.

Lemma parseNAWS_loop_last data w h i0 n :
  forall i sock,
    accepted_at data i0 w h ->
    (forall j, (i0 < j)%nat -> marker_at data j = true -> rejected_at data j) ->
    (i <= i0 < i + n)%nat ->
    parseNAWS_loop data n i sock = Done (set_geometry sock w h)
    \/ parseNAWS_loop data n i sock = Thrown (set_geometry sock w h)
    \/ exists s, same_but_geometry sock s
                 /\ (parseNAWS_loop data n i sock = Done (set_geometry s w h)
                     \/ parseNAWS_loop data n i sock = Thrown (set_geometry s w h)).
Proof.
  induction n as [|n IH]; intros i sock Hacc Hlater Hi; [lia|].
  assert (Hlen : (i0 + 8 < List.length data)%nat).
  { destruct Hacc as [_ [Hc _]]. unfold closed_at in Hc.
    apply andb_true_iff in Hc. destruct Hc as [_ H8].
    apply byte_is_in_range in H8. exact H8. }
  cbn [parseNAWS_loop].
  destruct (Nat.eq_dec i i0) as [->|Hne].
  - rewrite (parseNAWS_at_accepted data i0 w h sock Hacc).
    destruct (parseNAWS_loop_rejected_from data n (S i0) (set_geometry sock w h))
      as [E|E]; [intros j Hj; apply Hlater; lia| |]; rewrite E; auto.
  - destruct (parseNAWS_at_done data i sock ltac:(lia)) as [s1 E1].
    rewrite E1.
    pose proof (parseNAWS_at_fields data i sock s1 (or_introl E1)) as Hs1.
    destruct (IH (S i) s1 Hacc Hlater ltac:(lia)) as [E|[E|[s [Hs E]]]].
    + right. right. exists s1. split; [exact Hs1|left; exact E].
    + right. right. exists s1. split; [exact Hs1|right; exact E].
    + right. right. exists s. split; [|exact E].
      unfold same_but_geometry in *. intuition congruence.
Qed.

(** The geometry after a chunk is that of its last accepted report. *)
Lemma parseNAWS_last
    (sock : socket) (data : list byte) (i : nat) (w h : Z) :
  accepted_at data i w h ->
  (forall j, (i < j)%nat -> marker_at data j = true -> rejected_at data j) ->
  cols (parseNAWS sock data) = Some w
  /\ rows (parseNAWS sock data) = Some h
  /\ same_but_geometry sock (parseNAWS sock data).
Proof.
  intros Hacc Hlater.
  split; [|split; [|apply parseNAWS_fields]].
  - assert (Hlen : (i + 8 < List.length data)%nat).
    { destruct Hacc as [_ [Hc _]]. unfold closed_at in Hc.
      apply andb_true_iff in Hc. destruct Hc as [_ H8].
      apply byte_is_in_range in H8. exact H8. }
    unfold parseNAWS, parseNAWS_try.
    destruct (parseNAWS_loop_last data w h i (List.length data - 8) 0 sock
                Hacc Hlater ltac:(lia)) as [E|[E|[s [_ [E|E]]]]];
      rewrite E; reflexivity.
  - assert (Hlen : (i + 8 < List.length data)%nat).
    { destruct Hacc as [_ [Hc _]]. unfold closed_at in Hc.
      apply andb_true_iff in Hc. destruct Hc as [_ H8].
      apply byte_is_in_range in H8. exact H8. }
    unfold parseNAWS, parseNAWS_try.
    destruct (parseNAWS_loop_last data w h i (List.length data - 8) 0 sock
                Hacc Hlater ltac:(lia)) as [E|[E|[s [_ [E|E]]]]];
      rewrite E; reflexivity.
Qed.

(** The last complete report of a chunk wins: when the sub-negotiation at
    some offset is one [parseNAWS] acts on, announcing [w] columns and [h]
    rows, and every later sub-negotiation start in the chunk is rejected,
    the socket ends with [cols = w] and [rows = h], whatever stands before
    (keystrokes, older reports) and whatever its geometry was; its other
    properties are untouched. *)
Theorem parseNAWS_last_report_wins
    (sock : socket) (data : list byte) (i : nat) (w h : Z) :
  accepted_at data i w h ->
  (forall j, (i < j)%nat -> marker_at data j = true -> rejected_at data j) ->
  cols (parseNAWS sock data) = Some w
  /\ rows (parseNAWS sock data) = Some h
  /\ same_but_geometry sock (parseNAWS sock data).
Proof. exact (parseNAWS_last sock data i w h). Qed.

Lemma naws_report_accepted w h :
  1 <= w <= 65535 -> 1 <= h <= 65535 -> accepted_at (naws_report w h) 0 w h.
Proof.
  intros Hw Hh.
  assert (Hq : forall x, 1 <= x <= 65535 ->
    byte_val (byte_of (x / 256)) * 256 + byte_val (byte_of (x mod 256)) = x).
  { intros x Hx. rewrite !byte_val_byte_of.
    assert (0 <= x / 256 < 256)
      by (split; [apply Z.div_pos; lia|apply Z.div_lt_upper_bound; lia]).
    pose proof (Z.mod_pos_bound x 256 ltac:(lia)).
    rewrite (Z.mod_small (x / 256)) by lia.
    rewrite (Z.mod_small (x mod 256)) by lia.
    pose proof (Z.div_mod x 256 ltac:(lia)). lia. }
  unfold accepted_at. split; [reflexivity|]. split; [reflexivity|].
  split; [|split; [|lia]].
  - unfold readUInt16BE, naws_report, Buffer_from.
    cbn [map nth_error Nat.add]. rewrite Hq by lia. reflexivity.
  - unfold readUInt16BE, naws_report, Buffer_from.
    cbn [map nth_error Nat.add]. rewrite Hq by lia. reflexivity.
Qed.

Lemma naws_report_length w h : List.length (naws_report w h) = 9%nat.
Proof. reflexivity. Qed.

Lemma short_tail_rejected data i :
  (List.length data <= i + 8)%nat -> rejected_at data i.
Proof.
  intros H. left. unfold closed_at, byte_is.
  replace (nth_error data (i + 8)) with (@None byte)
    by (symmetry; apply nth_error_None; lia).
  apply andb_false_r.
Qed.

(** A report, alone or at the end of a chunk, is parsed back. *)
Lemma naws_report_parsed
    (sock : socket) (before : list byte) (w h : Z) :
  1 <= w <= 65535 -> 1 <= h <= 65535 ->
  cols (parseNAWS sock (naws_report w h)) = Some w
  /\ rows (parseNAWS sock (naws_report w h)) = Some h
  /\ cols (parseNAWS sock (before ++ naws_report w h)) = Some w
  /\ rows (parseNAWS sock (before ++ naws_report w h)) = Some h.
Proof.
  intros Hw Hh.
  pose proof (naws_report_accepted w h Hw Hh) as Hacc.
  assert (Hshift : accepted_at (before ++ naws_report w h) (List.length before) w h).
  { destruct Hacc as [Hm [Hc [H3 [H5 Hpos]]]].
    unfold accepted_at, marker_at, closed_at, byte_is, readUInt16BE in *.
    repeat rewrite nth_error_app2 by lia.
    replace (List.length before - List.length before)%nat with 0%nat by lia.
    replace (List.length before + 1 - List.length before)%nat with (0 + 1)%nat by lia.
    replace (List.length before + 2 - List.length before)%nat with (0 + 2)%nat by lia.
    replace (List.length before + 3 - List.length before)%nat with (0 + 3)%nat by lia.
    replace (S (List.length before + 3) - List.length before)%nat with (S (0 + 3)) by lia.
    replace (List.length before + 5 - List.length before)%nat with (0 + 5)%nat by lia.
    replace (S (List.length before + 5) - List.length before)%nat with (S (0 + 5)) by lia.
    replace (List.length before + 7 - List.length before)%nat with (0 + 7)%nat by lia.
    replace (List.length before + 8 - List.length before)%nat with (0 + 8)%nat by lia.
    repeat split; assumption || tauto. }
  destruct (parseNAWS_last sock (naws_report w h) 0 w h Hacc)
    as [H1 [H2 _]].
  { intros j Hj _. apply short_tail_rejected. rewrite naws_report_length. lia. }
  destruct (parseNAWS_last sock (before ++ naws_report w h)
              (List.length before) w h Hshift) as [H3 [H4 _]].
  { intros j Hj _. apply short_tail_rejected.
    rewrite length_app, naws_report_length. lia. }
  auto.
Qed.

(** Round trip of a window-size report: for sizes from 1 to 65535, the
    nine bytes a terminal of [w] columns and [h] rows sends, alone in a
    chunk or at the end of a chunk after anything else, set the socket's
    geometry to exactly [w] and [h]. *)
Theorem naws_report_round_trip
    (sock : socket) (before : list byte) (w h : Z) :
  1 <= w <= 65535 -> 1 <= h <= 65535 ->
  cols (parseNAWS sock (naws_report w h)) = Some w
  /\ rows (parseNAWS sock (naws_report w h)) = Some h
  /\ cols (parseNAWS sock (before ++ naws_report w h)) = Some w
  /\ rows (parseNAWS sock (before ++ naws_report w h)) = Some h.
Proof. exact (naws_report_parsed sock before w h). Qed.

Lemma naws_report_round_trip_witness :
  cols (parseNAWS (new_socket 0) (naws_report 132 43)) = Some 132
  /\ rows (parseNAWS (new_socket 0) (naws_report 132 43)) = Some 43
  /\ cols (parseNAWS (new_socket 0) (bytes_of_string "xyz" ++ naws_report 132 43))
     = Some 132
  /\ rows (parseNAWS (new_socket 0) (bytes_of_string "xyz" ++ naws_report 132 43))
     = Some 43.
Proof.
  apply (naws_report_round_trip (new_socket 0) (bytes_of_string "xyz") 132 43); lia.
Defined.

Lemma parseNAWS_last_report_wins_witness :
  cols (parseNAWS (new_socket 0) (naws_report 80 24 ++ naws_report 132 43))
    = Some 132
  /\ rows (parseNAWS (new_socket 0) (naws_report 80 24 ++ naws_report 132 43))
    = Some 43
  /\ same_but_geometry (new_socket 0)
       (parseNAWS (new_socket 0) (naws_report 80 24 ++ naws_report 132 43)).
Proof.
  apply (parseNAWS_last_report_wins (new_socket 0)
           (naws_report 80 24 ++ naws_report 132 43) 9 132 43).
  - unfold accepted_at. repeat split; (reflexivity || lia).
  - intros j Hj _. left. unfold closed_at, byte_is.
    replace (nth_error (naws_report 80 24 ++ naws_report 132 43) (j + 8))
      with (@None byte); [apply andb_false_r|].
    symmetry. apply nth_error_None. simpl. lia.
Defined.

Lemma readUInt16BE_range data off v :
  readUInt16BE data off = Some v -> 0 <= v <= 65535.
Proof.
  unfold readUInt16BE.
  destruct (nth_error data off) as [hi|]; [|discriminate].
  destruct (nth_error data (S off)) as [lo|]; [|discriminate].
  intros H. injection H as <-.
  pose proof (byte_val_range hi). pose proof (byte_val_range lo). lia.
Qed.

Lemma geometry_ok_set sock w h :
  1 <= w <= 65535 -> 1 <= h <= 65535 -> geometry_ok (set_geometry sock w h).
Proof. intros Hw Hh. right. exists w, h. repeat split; lia. Qed.

Lemma parseNAWS_at_geometry data i sock sock' :
  parseNAWS_at data i sock = Done sock' \/ parseNAWS_at data i sock = Thrown sock' ->
  geometry_ok sock -> geometry_ok sock'.
Proof.
  unfold parseNAWS_at.
  destruct (_ && _ && _); [|intros [H|H]; inversion H; subst; auto].
  destruct (_ || _); [intros [H|H]; inversion H; subst; auto|].
  destruct (readUInt16BE data (i + 3)) as [w|] eqn:Ew;
    [|intros [H|H]; inversion H; subst; auto].
  destruct (readUInt16BE data (i + 5)) as [h|] eqn:Eh;
    [|intros [H|H]; inversion H; subst; auto].
  apply readUInt16BE_range in Ew, Eh.
  destruct ((0 <? w) && (0 <? h)) eqn:E;
    intros [H|H]; inversion H; subst; auto.
  intros _. apply andb_true_iff in E. apply geometry_ok_set; lia.
Qed.

Lemma parseNAWS_loop_geometry data n :
  forall i sock sock',
    parseNAWS_loop data n i sock = Done sock'
    \/ parseNAWS_loop data n i sock = Thrown sock' ->
    geometry_ok sock -> geometry_ok sock'.
Proof.
  induction n as [|n IH]; intros i sock sock'; simpl.
  - intros [H|H]; inversion H; subst; auto.
  - destruct (parseNAWS_at data i sock) as [s1|s1] eqn:E1.
    + intros H Hok. apply (IH _ _ _ H).
      apply (parseNAWS_at_geometry data i sock s1 (or_introl E1) Hok).
    + intros [H|H] Hok; inversion H; subst.
      apply (parseNAWS_at_geometry data i sock sock' (or_intror E1) Hok).
Qed.

Lemma parseNAWS_geometry sock data :
  geometry_ok sock -> geometry_ok (parseNAWS sock data).
Proof.
  unfold parseNAWS, parseNAWS_try.
  destruct (parseNAWS_loop data (List.length data - 8) 0 sock) as [s|s] eqn:E.
  - apply (parseNAWS_loop_geometry _ _ _ _ _ (or_introl E)).
  - apply (parseNAWS_loop_geometry _ _ _ _ _ (or_intror E)).
Qed.

(** The fields the data handler leaves alone, and what it writes. *)
Lemma onData_fields (CFG : config) (sock : socket) (data : list byte) :
  cols (onData CFG sock data) = cols (parseNAWS sock data)
  /\ rows (onData CFG sock data) = rows (parseNAWS sock data)
  /\ written (onData CFG sock data) =
       written sock
       ++ (if shouldQuit CFG data && negb (destroyed sock)
           then [cursor_restore] else [])
  /\ destroyed (onData CFG sock data) = destroyed sock
  /\ sock_id (onData CFG sock data) = sock_id sock
  /\ writableLength (onData CFG sock data) = writableLength sock.
Proof.
  destruct (parseNAWS_fields sock data) as [Hid [_ [Hd [_ [Hl Hw]]]]].
  unfold onData, cursor_restore.
  destruct (shouldToggle data), (shouldQuit CFG data); cbv zeta;
    cbn [set_mode destroyed]; rewrite <- ?Hd;
    destruct (destroyed sock); cbn;
    rewrite <- ?Hid, <- ?Hl, <- ?Hw, ?app_nil_r; repeat split;
    symmetry; exact Hd.
Qed.

(** The data handler, one chunk: the geometry is the one [parseNAWS]
    leaves; the mode is flipped once when the chunk's text holds [m] or
    [M] and kept otherwise; the socket is ended when a quit key is read;
    nothing is written unless a quit key is read on a socket not
    destroyed, and then exactly the cursor-restore sequence, once. *)
Theorem onData_effects (CFG : config) (sock : socket) (data : list byte) :
  cols (onData CFG sock data) = cols (parseNAWS sock data)
  /\ rows (onData CFG sock data) = rows (parseNAWS sock data)
  /\ mode (onData CFG sock data) =
       (if shouldToggle data then flip (mode sock) else mode sock)
  /\ ended (onData CFG sock data) = shouldQuit CFG data || ended sock
  /\ written (onData CFG sock data) =
       written sock
       ++ (if shouldQuit CFG data && negb (destroyed sock)
           then [cursor_restore] else []).
Proof.
  destruct (onData_fields CFG sock data) as [Hc [Hr [Hw _]]].
  split; [exact Hc|]. split; [exact Hr|].
  split; [apply onData_mode|]. split; [apply onData_ended|exact Hw].
Qed.

Lemma onData_geometry CFG sock data :
  geometry_ok sock -> geometry_ok (onData CFG sock data).
Proof.
  intros Hok. apply (parseNAWS_geometry sock data) in Hok.
  destruct (onData_fields CFG sock data) as [Hc [Hr _]].
  unfold geometry_ok in *. rewrite Hc, Hr. exact Hok.
Qed.

Lemma onData_mode_ok CFG sock data : mode_ok sock -> mode_ok (onData CFG sock data).
Proof.
  unfold mode_ok. rewrite onData_mode. unfold flip.
  destruct (shouldToggle data); [|auto].
  intros [H|H]; rewrite H; simpl; auto.
Qed.

Lemma run_ascii_exact bs :
  Forall (fun b => byte_val b < 128) bs ->
  Utf8.run Utf8.init bs = map byte_val bs.
Proof.
  induction 1 as [|b bs Hb _ IH]; [reflexivity|].
  cbn [Utf8.run map]. unfold Utf8.step. cbn [Utf8.needed Utf8.init].
  unfold Utf8.start. replace (byte_val b <=? 0x7F) with true by lia.
  rewrite IH. reflexivity.
Qed.

(** Keystrokes decode to themselves: a chunk made of ASCII bytes and IAC
    bytes only gives as its text the ASCII bytes in order, one code unit
    each, the IAC bytes left out. *)
Theorem textFromTelnet_ascii_exact (data : list byte) :
  Forall (fun b => byte_val b < 128 \/ byte_val b = 255) data ->
  textFromTelnet data =
    map byte_val (filter (fun b => negb (byte_val b =? 255)) data).
Proof.
  intros H. unfold textFromTelnet, Utf8.decode.
  apply run_ascii_exact.
  apply Forall_forall. intros b Hb. apply filter_In in Hb.
  destruct Hb as [Hin Hne]. rewrite Forall_forall in H.
  destruct (H b Hin) as [Hlt|Heq]; [exact Hlt|].
  unfold TELNET.IAC in Hne. rewrite Heq in Hne. discriminate Hne.
Qed.

Lemma textFromTelnet_ascii_exact_witness :
  textFromTelnet (bytes_of_string "a" ++ Buffer_from [255] ++ bytes_of_string "b") =
    map byte_val
        (filter (fun b => negb (byte_val b =? 255))
                (bytes_of_string "a" ++ Buffer_from [255] ++ bytes_of_string "b")).
Proof.
  apply (textFromTelnet_ascii_exact
           (bytes_of_string "a" ++ Buffer_from [255] ++ bytes_of_string "b")).
  apply Forall_forall. intros b Hb. vm_compute in Hb.
  destruct Hb as [<-|[<-|[<-|[]]]];
    first [left; reflexivity|right; reflexivity].
Defined.

End SessionExtras.

(** ** Further properties: frames, registry and playlist *)

Module ServerExtras.

Import DemuxFacts ServerFacts HandlerFacts FitFacts RenderFacts RenderExtras
       SessionExtras.

Lemma length_concat_whole CFG frames :
  Forall (whole CFG) frames ->
  List.length (List.concat frames) = (List.length frames * frame_len CFG)%nat.
Proof.
  induction 1 as [|f frames Hf _ IH]; [reflexivity|].
  cbn [List.concat List.length]. rewrite length_app, IH. unfold whole in Hf. lia.
Qed.

(** Frame reassembly on any stream, whole frames or not: for a positive
    frame size, the chunks fed in order yield [total / size] frames of
    exactly the frame size and keep the last [total mod size] bytes as
    carry-over; the frames followed by the carry-over are the bytes
    received, in order. *)
Theorem demux_all_carry (CFG : config) (chunks : list (list byte)) :
  0 < bytesPerFrame CFG ->
  exists frames rest,
    demux_all CFG [] chunks = Some (rest, frames)
    /\ List.concat chunks = List.concat frames ++ rest
    /\ Forall (fun frame => Z.of_nat (List.length frame) = bytesPerFrame CFG) frames
    /\ Z.of_nat (List.length frames)
       = Z.of_nat (List.length (List.concat chunks)) / bytesPerFrame CFG
    /\ Z.of_nat (List.length rest)
       = Z.of_nat (List.length (List.concat chunks)) mod bytesPerFrame CFG.
Proof.
  intros Hbpf.
  destruct (demux_all_spec CFG Hbpf chunks [] (frame_len_pos CFG Hbpf))
    as [frames [rest [E [Hcat [Hw Hr]]]]].
  simpl in Hcat. exists frames, rest.
  split; [exact E|]. split; [exact Hcat|].
  split.
  { eapply Forall_impl; [|exact Hw]. intros f Hf. unfold whole, frame_len in Hf. lia. }
  assert (Hlen : Z.of_nat (List.length (List.concat chunks))
                 = Z.of_nat (List.length frames) * bytesPerFrame CFG
                   + Z.of_nat (List.length rest)).
  { rewrite Hcat, length_app, (length_concat_whole CFG frames Hw).
    unfold frame_len. lia. }
  assert (Hrest : 0 <= Z.of_nat (List.length rest) < bytesPerFrame CFG)
    by (unfold frame_len in Hr; lia).
  split.
  - apply (Z.div_unique _ _ _ (Z.of_nat (List.length rest))); [left; lia|].
    rewrite Hlen. ring.
  - apply (Z.mod_unique _ _ (Z.of_nat (List.length frames))); [left; lia|].
    rewrite Hlen. ring.
Qed.

Lemma demux_all_carry_witness :
  exists frames rest,
    demux_all (CFG_with 1 1) [] [Buffer_from [1; 2]; Buffer_from [3; 4; 5]]
      = Some (rest, frames)
    /\ List.concat [Buffer_from [1; 2]; Buffer_from [3; 4; 5]]
       = List.concat frames ++ rest
    /\ Forall (fun frame => Z.of_nat (List.length frame)
                            = bytesPerFrame (CFG_with 1 1)) frames
    /\ Z.of_nat (List.length frames)
       = Z.of_nat (List.length
           (List.concat [Buffer_from [1; 2]; Buffer_from [3; 4; 5]]))
         / bytesPerFrame (CFG_with 1 1)
    /\ Z.of_nat (List.length rest)
       = Z.of_nat (List.length
           (List.concat [Buffer_from [1; 2]; Buffer_from [3; 4; 5]]))
         mod bytesPerFrame (CFG_with 1 1).
Proof.
  apply (demux_all_carry (CFG_with 1 1)
           [Buffer_from [1; 2]; Buffer_from [3; 4; 5]]).
  reflexivity.
Defined.

Lemma fold_broadcast_fst CFG io frames :
  forall cs gone,
    fst (fold_left
           (fun (acc : list socket * list socket) frame =>
              let '(cs, gone) := broadcast CFG io frame (fst acc) in
              (cs, snd acc ++ gone))
           frames (cs, gone))
    = fold_left (fun cs frame => fst (broadcast CFG io frame cs)) frames cs.
Proof.
  induction frames as [|f frames IH]; intros cs gone; [reflexivity|].
  cbn [fold_left fst snd].
  destruct (broadcast CFG io f cs) as [cs' gone'] eqn:E.
  rewrite IH. reflexivity.
Qed.

(** The stdout handler is reassembly followed by broadcast.  For a
    positive frame size it returns, and the new carry-over is the rest
    that [demux] leaves of the carry-over and the chunk.  When the two
    together are shorter than a frame, no client is reached: the registry
    is unchanged and the chunk is appended to the carry-over.  When they
    hold one frame and less than a second one, the registry afterwards is
    that of one broadcast pass of that frame, their first [bytesPerFrame]
    bytes, over the registry, and the carry-over is what follows the
    frame. *)
Theorem onStdoutData_broadcasts_frames
    (CFG : config) (io_throws : nat -> bool) (srv : server) (chunk : list byte) :
  0 < bytesPerFrame CFG ->
  exists frames rest srv',
    demux CFG (leftover srv) chunk = Some (rest, frames)
    /\ onStdoutData CFG io_throws srv chunk = Some srv'
    /\ leftover srv' = rest
    /\ leftover srv ++ chunk = List.concat frames ++ rest
    /\ (Z.of_nat (List.length (leftover srv) + List.length chunk)
          < bytesPerFrame CFG ->
        frames = [] /\ clients srv' = clients srv
        /\ leftover srv' = leftover srv ++ chunk)
    /\ (bytesPerFrame CFG
          <= Z.of_nat (List.length (leftover srv) + List.length chunk)
          < 2 * bytesPerFrame CFG ->
        frames = [firstn (Z.to_nat (bytesPerFrame CFG)) (leftover srv ++ chunk)]
        /\ leftover srv' =
             skipn (Z.to_nat (bytesPerFrame CFG)) (leftover srv ++ chunk)
        /\ clients srv' =
             fst (broadcast CFG io_throws
                    (firstn (Z.to_nat (bytesPerFrame CFG)) (leftover srv ++ chunk))
                    (clients srv))).
Proof.
  intros Hbpf. unfold onStdoutData.
  set (F := fun (frame : list byte) (acc : list socket * list socket) =>
              let '(cs, gone) := broadcast CFG io_throws frame (fst acc) in
              (cs, snd acc ++ gone)).
  destruct (on_chunk_demux CFG Hbpf F (leftover srv) chunk (clients srv, []))
    as [frames [rest [Ed Eo]]].
  destruct (demux_spec CFG Hbpf (leftover srv) chunk)
    as [frames' [rest' [Ed' [Hcat [Hw Hr]]]]].
  rewrite Ed in Ed'. injection Ed' as <- <-.
  exists frames, rest. rewrite Eo. cbn [bind fst snd].
  eexists. split; [exact Ed|]. split; [reflexivity|].
  cbn [with_clients leftover clients].
  split; [reflexivity|].
  assert (Hcl : fst (fold_left (fun s frame => F frame s) frames (clients srv, []))
                = fold_left (fun cs frame => fst (broadcast CFG io_throws frame cs))
                            frames (clients srv))
    by apply fold_broadcast_fst.
  split; [exact Hcat|]. split.
  - intros Hshort.
    destruct (cut_unique CFG [] frames (leftover srv ++ chunk) rest)
      as [Hf Hr']; auto.
    { unfold frame_len. rewrite length_app. lia. }
    subst frames rest. rewrite Hcl. repeat split.
  - intros Hone.
    set (data := leftover srv ++ chunk) in *.
    set (n := Z.to_nat (bytesPerFrame CFG)).
    assert (Hlen : (n <= List.length data < 2 * n)%nat).
    { unfold data, n. rewrite length_app. lia. }
    destruct (cut_unique CFG [firstn n data] frames (skipn n data) rest)
      as [Hf Hr']; auto.
    + constructor; [|constructor]. unfold whole, frame_len. fold n.
      rewrite length_firstn. lia.
    + unfold frame_len. fold n. rewrite length_skipn. lia.
    + cbn [List.concat]. rewrite app_nil_r, firstn_skipn. exact Hcat.
    + subst frames rest. rewrite Hcl. cbn [fold_left]. repeat split.
Qed.

Lemma onStdoutData_broadcasts_frames_witness :
  exists frames rest srv',
    demux (CFG_with 1 1) [x07]
          (Buffer_from [8; 9; 10]) = Some (rest, frames)
    /\ onStdoutData (CFG_with 1 1) (fun _ => false)
         (set_leftover
            (set_clients (initial ["a.mp4"%string])
               [onData (CFG_with 1 1) (new_socket 1) naws_80x24;
                new_socket 2])
            [x07])
         (Buffer_from [8; 9; 10]) = Some srv'
    /\ leftover srv' = rest
    /\ [x07] ++ Buffer_from [8; 9; 10] = List.concat frames ++ rest
    /\ (Z.of_nat (List.length [x07] + List.length (Buffer_from [8; 9; 10]))
          < bytesPerFrame (CFG_with 1 1) ->
        frames = []
        /\ clients srv' =
             [onData (CFG_with 1 1) (new_socket 1) naws_80x24; new_socket 2]
        /\ leftover srv' = [x07] ++ Buffer_from [8; 9; 10])
    /\ (bytesPerFrame (CFG_with 1 1)
          <= Z.of_nat (List.length [x07] + List.length (Buffer_from [8; 9; 10]))
          < 2 * bytesPerFrame (CFG_with 1 1) ->
        frames = [firstn (Z.to_nat (bytesPerFrame (CFG_with 1 1)))
                         ([x07] ++ Buffer_from [8; 9; 10])]
        /\ leftover srv' =
             skipn (Z.to_nat (bytesPerFrame (CFG_with 1 1)))
                   ([x07] ++ Buffer_from [8; 9; 10])
        /\ clients srv' =
             fst (broadcast (CFG_with 1 1) (fun _ => false)
                    (firstn (Z.to_nat (bytesPerFrame (CFG_with 1 1)))
                            ([x07] ++ Buffer_from [8; 9; 10]))
                    [onData (CFG_with 1 1) (new_socket 1) naws_80x24;
                     new_socket 2])).
Proof.
  apply (onStdoutData_broadcasts_frames (CFG_with 1 1) (fun _ => false)
           (set_leftover
              (set_clients (initial ["a.mp4"%string])
                 [onData (CFG_with 1 1) (new_socket 1) naws_80x24;
                  new_socket 2])
              [x07])
           (Buffer_from [8; 9; 10])).
  reflexivity.
Defined.

(** The handler on a carry-over of one byte and a chunk of three, for a
    1 x 1 video: the frame is bytes 7, 8, 9 and byte 10 is carried over;
    the negotiated client is written one block more, the client without a
    geometry is passed over, and both stay registered. *)
Example onStdoutData_one_frame_run :
  let srv := set_leftover
               (set_clients (initial ["a.mp4"%string])
                  [onData (CFG_with 1 1) (new_socket 1) naws_80x24;
                   new_socket 2])
               [x07] in
  exists srv',
    onStdoutData (CFG_with 1 1) (fun _ => false) srv (Buffer_from [8; 9; 10])
      = Some srv'
    /\ leftover srv' = Buffer_from [10]
    /\ map sock_id (clients srv') = [1; 2]%nat
    /\ map (fun s => List.length (written s)) (clients srv') = [3; 2]%nat.
Proof. vm_compute. eexists. repeat split. Qed.

(** What a pass does to the one socket it visits. *)
Lemma broadcast_one CFG io frame c :
  broadcast CFG io frame [c] = ([c], [])
  \/ (exists rendered,
        broadcast CFG io frame [c] = ([write c (Text rendered)], []))
  \/ broadcast CFG io frame [c] = ([], [destroy c]).
Proof.
  unfold broadcast. simpl.
  destruct (skips CFG c); [left; reflexivity|].
  unfold render_and_write.
  destruct (cols c) as [w|]; [|right; right; reflexivity].
  destruct (rows c) as [h|]; [|right; right; reflexivity].
  destruct (io (sock_id c)); [right; right; reflexivity|].
  destruct (renderFrameForClient CFG frame w h (mode c)) as [r|];
    [|right; right; reflexivity].
  right. left. exists r. reflexivity.
Qed.

Lemma broadcast_cons CFG io frame c cs :
  broadcast CFG io frame (c :: cs) =
  (fst (broadcast CFG io frame [c]) ++ fst (broadcast CFG io frame cs),
   snd (broadcast CFG io frame [c]) ++ snd (broadcast CFG io frame cs)).
Proof. apply (broadcast_app CFG io frame [c] cs). Qed.

(** Where the sockets of a registry end after a pass. *)
Lemma broadcast_kept
    (CFG : config) (io_throws : nat -> bool) (frame : list byte)
    (cs : list socket) :
  (List.length (fst (broadcast CFG io_throws frame cs))
   + List.length (snd (broadcast CFG io_throws frame cs)) = List.length cs)%nat
  /\ (forall c', In c' (fst (broadcast CFG io_throws frame cs)) ->
        exists c, In c cs
                  /\ (c' = c \/ exists rendered, c' = write c (Text rendered)))
  /\ (forall id, In id (map sock_id (fst (broadcast CFG io_throws frame cs))) ->
        In id (map sock_id cs))
  /\ (NoDup (map sock_id cs) ->
      NoDup (map sock_id (fst (broadcast CFG io_throws frame cs)))).
Proof.
  induction cs as [|c cs IH]; [repeat split; simpl; auto; intros _ []|].
  destruct IH as [Hlen [Hkept [Hids Hnd]]].
  rewrite broadcast_cons. cbn [fst snd].
  destruct (broadcast_one CFG io_throws frame c) as [E|[[r E]|E]];
    rewrite E; cbn [fst snd app List.length map].
  - split; [lia|]. split; [|split].
    + intros c' [<-|H]; [exists c; split; [left; reflexivity|left; reflexivity]|].
      destruct (Hkept c' H) as [c0 [Hin Hc0]]. exists c0. split; [right; exact Hin|exact Hc0].
    + intros id [<-|H]; [left; reflexivity|right; apply Hids, H].
    + intros Hn. inversion Hn as [|? ? Hnotin Hn']; subst.
      constructor; [|apply Hnd, Hn'].
      intros Hin. apply Hnotin, Hids, Hin.
  - split; [lia|]. split; [|split].
    + intros c' [<-|H];
        [exists c; split; [left; reflexivity|right; exists r; reflexivity]|].
      destruct (Hkept c' H) as [c0 [Hin Hc0]]. exists c0. split; [right; exact Hin|exact Hc0].
    + intros id [<-|H]; [left; reflexivity|right; apply Hids, H].
    + intros Hn. inversion Hn as [|? ? Hnotin Hn']; subst.
      constructor; [|apply Hnd, Hn'].
      intros Hin. apply Hnotin, Hids, Hin.
  - split; [lia|]. split; [|split].
    + intros c' H.
      destruct (Hkept c' H) as [c0 [Hin Hc0]]. exists c0. split; [right; exact Hin|exact Hc0].
    + intros id H. right. apply Hids, H.
    + intros Hn. inversion Hn; subst. apply Hnd. assumption.
Qed.

Lemma skips_live CFG c : skips CFG c = false -> destroyed c = false.
Proof.
  unfold skips. intros H.
  apply orb_false_elim in H. destruct H as [H _].
  apply orb_false_elim in H. destruct H as [H _]. exact H.
Qed.

(** What a pass does to the one socket it visits, with the guard that
    decides it. *)
Lemma broadcast_one_fate CFG io frame c :
  (skips CFG c = true /\ broadcast CFG io frame [c] = ([c], []))
  \/ (skips CFG c = false
      /\ exists rendered,
           broadcast CFG io frame [c] = ([write c (Text rendered)], []))
  \/ (skips CFG c = false
      /\ broadcast CFG io frame [c] = ([], [destroy c])).
Proof.
  unfold broadcast. simpl.
  destruct (skips CFG c); [left; split; reflexivity|].
  unfold render_and_write.
  destruct (cols c) as [w|]; [|right; right; split; reflexivity].
  destruct (rows c) as [h|]; [|right; right; split; reflexivity].
  destruct (io (sock_id c)); [right; right; split; reflexivity|].
  destruct (renderFrameForClient CFG frame w h (mode c)) as [r|];
    [|right; right; split; reflexivity].
  right. left. split; [reflexivity|]. exists r. reflexivity.
Qed.

(** Each identity of the registry is, after a pass, among the sockets kept
    or among those dropped, as many times as it was registered. *)
Lemma broadcast_counts CFG io frame cs id :
  count_occ Nat.eq_dec (map sock_id cs) id =
  (count_occ Nat.eq_dec (map sock_id (fst (broadcast CFG io frame cs))) id
   + count_occ Nat.eq_dec (map sock_id (snd (broadcast CFG io frame cs))) id)%nat.
Proof.
  induction cs as [|c cs IH]; [reflexivity|].
  rewrite broadcast_cons. cbn [fst snd].
  rewrite !map_app, !count_occ_app. cbn [map].
  destruct (broadcast_one CFG io frame c) as [E|[[r E]|E]];
    rewrite E; cbn [fst snd map write destroy sock_id count_occ];
    destruct (Nat.eq_dec (sock_id c) id); lia.
Qed.

(** The sockets a pass drops. *)
Lemma broadcast_dropped CFG io frame cs :
  forall d, In d (snd (broadcast CFG io frame cs)) ->
    exists c, In c cs /\ skips CFG c = false /\ destroyed c = false
              /\ sock_id d = sock_id c /\ destroyed d = true
              /\ cols d = cols c /\ rows d = rows c /\ mode d = mode c
              /\ written d = written c.
Proof.
  induction cs as [|c cs IH]; intros d Hd; [destruct Hd|].
  rewrite broadcast_cons in Hd. cbn [snd] in Hd.
  apply in_app_or in Hd. destruct Hd as [Hd|Hd].
  - destruct (broadcast_one_fate CFG io frame c) as [[_ E]|[[_ [r E]]|[Hs E]]];
      rewrite E in Hd; cbn [snd] in Hd; try destruct Hd as [<-|[]].
    + destruct Hd.
    + destruct Hd.
    + exists c. split; [left; reflexivity|]. split; [exact Hs|].
      split; [apply (skips_live CFG), Hs|]. repeat split.
  - destruct (IH d Hd) as [c0 [Hin H]]. exists c0. split; [right; exact Hin|exact H].
Qed.

(** A broadcast pass loses and invents no socket.  Each identity of the
    registry is afterwards among the sockets kept or among those dropped,
    as many times as it was registered.  A kept socket is a registered
    one, as it was or with one rendered block more written to it.  A
    dropped socket is a registered one that the guards did not skip (so
    it was not destroyed before) and that is destroyed now, with its
    identity, geometry, mode and writes as they were.  When the registered
    identities are distinct, so are those kept, and no dropped identity is
    still among them. *)
Theorem broadcast_conserves_registry
    (CFG : config) (io_throws : nat -> bool) (frame : list byte)
    (cs : list socket) :
  (forall id,
     count_occ Nat.eq_dec (map sock_id cs) id =
     (count_occ Nat.eq_dec
        (map sock_id (fst (broadcast CFG io_throws frame cs))) id
      + count_occ Nat.eq_dec
          (map sock_id (snd (broadcast CFG io_throws frame cs))) id)%nat)
  /\ (forall c', In c' (fst (broadcast CFG io_throws frame cs)) ->
        exists c, In c cs
                  /\ (c' = c \/ exists rendered, c' = write c (Text rendered)))
  /\ (forall d, In d (snd (broadcast CFG io_throws frame cs)) ->
        exists c, In c cs /\ skips CFG c = false /\ destroyed c = false
                  /\ sock_id d = sock_id c /\ destroyed d = true
                  /\ cols d = cols c /\ rows d = rows c /\ mode d = mode c
                  /\ written d = written c)
  /\ (NoDup (map sock_id cs) ->
      NoDup (map sock_id (fst (broadcast CFG io_throws frame cs)))
      /\ forall d, In d (snd (broadcast CFG io_throws frame cs)) ->
           ~ In (sock_id d)
                (map sock_id (fst (broadcast CFG io_throws frame cs)))).
Proof.
  destruct (broadcast_kept CFG io_throws frame cs) as [_ [Hkept [_ Hnd]]].
  split; [intros id; apply broadcast_counts|].
  split; [exact Hkept|].
  split; [apply broadcast_dropped|].
  intros Hn. split; [apply Hnd, Hn|].
  intros d Hd Hin.
  pose proof (broadcast_counts CFG io_throws frame cs (sock_id d)) as Hc.
  assert (H1 : (count_occ Nat.eq_dec (map sock_id cs) (sock_id d) <= 1)%nat).
  { apply NoDup_count_occ with (decA := Nat.eq_dec). exact Hn. }
  assert (H2 : (0 < count_occ Nat.eq_dec
                      (map sock_id (fst (broadcast CFG io_throws frame cs)))
                      (sock_id d))%nat).
  { apply count_occ_In. exact Hin. }
  assert (H3 : (0 < count_occ Nat.eq_dec
                      (map sock_id (snd (broadcast CFG io_throws frame cs)))
                      (sock_id d))%nat).
  { apply count_occ_In. apply in_map. exact Hd. }
  lia.
Qed.

(** A pass over a registry of three clients in which writing to the
    second one throws and the third has no geometry yet. *)
Example broadcast_conserves_registry_run :
  let cs := [onData (CFG_with 1 1) (new_socket 1) naws_80x24;
             onData (CFG_with 1 1) (new_socket 2) naws_80x24;
             new_socket 3] in
  let r := broadcast (CFG_with 1 1) (fun id => Nat.eqb id 2)
                     (Buffer_from [1; 2; 3]) cs in
  map sock_id (fst r) = [1; 3]%nat
  /\ map destroyed (fst r) = [false; false]
  /\ map (fun s => List.length (written s)) (fst r) = [3; 2]%nat
  /\ map sock_id (snd r) = [2]%nat
  /\ map destroyed (snd r) = [true].
Proof. vm_compute. repeat split. Qed.




Lemma Set_delete_fresh cs id :
  (forall c, In c cs -> sock_id c <> id) -> Set_delete cs id = cs.
Proof.
  intros H. unfold Set_delete. induction cs as [|c cs IH]; [reflexivity|].
  cbn [filter].
  replace (Nat.eqb (sock_id c) id) with false
    by (symmetry; apply Nat.eqb_neq, H; left; reflexivity).
  cbn [negb]. rewrite IH; [reflexivity|]. intros c' Hc'. apply H. right. exact Hc'.
Qed.

Lemma Set_add_fresh cs c :
  (forall x, In x cs -> sock_id x <> sock_id c) -> Set_add cs c = cs ++ [c].
Proof.
  intros H. unfold Set_add.
  replace (existsb (fun x => Nat.eqb (sock_id x) (sock_id c)) cs) with false;
    [reflexivity|].
  symmetry. apply not_true_is_false. intros E.
  apply existsb_exists in E. destruct E as [x [Hin Hx]].
  apply Nat.eqb_eq in Hx. exact (H x Hin Hx).
Qed.

Lemma set_clients_same srv : set_clients srv (clients srv) = srv.
Proof. destruct srv; reflexivity. Qed.

(** The registry behaves as a set of sockets.  A socket connecting with a
    new identity is appended to it; its ["close"] or ["error"] event then
    puts the server back exactly where it was; deleting keeps every other
    socket, in order, and deleting twice is deleting once (an ["error"]
    followed by a ["close"]). *)
Theorem registry_add_delete (srv : server) (id : nat) :
  (forall c, In c (clients srv) -> sock_id c <> id) ->
  clients (onConnection srv id) = clients srv ++ [new_socket id]
  /\ onSockClose (onConnection srv id) id = srv
  /\ onSockError (onConnection srv id) id = srv
  /\ (forall srv0 id0 c,
        In c (clients (onSockClose srv0 id0)) <->
        In c (clients srv0) /\ sock_id c <> id0)
  /\ (forall srv0 id0,
        onSockClose (onSockError srv0 id0) id0 = onSockError srv0 id0).
Proof.
  intros Hfresh.
  assert (Hadd : clients (onConnection srv id) = clients srv ++ [new_socket id]).
  { unfold onConnection. cbn [set_clients clients].
    apply Set_add_fresh. exact Hfresh. }
  assert (Hdel : Set_delete (clients srv ++ [new_socket id]) id = clients srv).
  { unfold Set_delete. rewrite filter_app. cbn [filter new_socket sock_id].
    rewrite Nat.eqb_refl. cbn [negb]. rewrite app_nil_r.
    apply Set_delete_fresh, Hfresh. }
  split; [exact Hadd|].
  split.
  { unfold onSockClose. rewrite Hadd, Hdel. destruct srv; reflexivity. }
  split.
  { unfold onSockError. rewrite Hadd, Hdel. destruct srv; reflexivity. }
  split.
  - intros srv0 id0 c. unfold onSockClose, Set_delete. cbn [set_clients clients].
    rewrite filter_In, negb_true_iff, Nat.eqb_neq. tauto.
  - intros srv0 id0. unfold onSockClose, onSockError.
    assert (Hd : Set_delete (Set_delete (clients srv0) id0) id0
                 = Set_delete (clients srv0) id0).
    { apply Set_delete_fresh. intros c Hc.
      unfold Set_delete in Hc. apply filter_In in Hc. destruct Hc as [_ Hc].
      apply negb_true_iff, Nat.eqb_neq in Hc. exact Hc. }
    unfold set_clients.
    cbn [clients currentIndex ff leftover shuttingDown switching spawned closed].
    rewrite Hd. reflexivity.
Qed.

Lemma registry_add_delete_witness :
  clients (onConnection (initial ["a.mp4"%string]) 3)
    = clients (initial ["a.mp4"%string]) ++ [new_socket 3]
  /\ onSockClose (onConnection (initial ["a.mp4"%string]) 3) 3
     = initial ["a.mp4"%string]
  /\ onSockError (onConnection (initial ["a.mp4"%string]) 3) 3
     = initial ["a.mp4"%string]
  /\ (forall srv0 id0 c,
        In c (clients (onSockClose srv0 id0)) <->
        In c (clients srv0) /\ sock_id c <> id0)
  /\ (forall srv0 id0,
        onSockClose (onSockError srv0 id0) id0 = onSockError srv0 id0).
Proof.
  apply (registry_add_delete (initial ["a.mp4"%string]) 3).
  intros c Hc. destruct Hc.
Defined.

Lemma cycle_snoc P k :
  forall i, (i < List.length P)%nat ->
  cycle P i (S k) = cycle P i k ++ [nth_error P ((i + k) mod List.length P)].
Proof.
  induction k as [|k IH]; intros i Hi.
  - cbn [cycle app]. rewrite Nat.add_0_r, Nat.mod_small by exact Hi. reflexivity.
  - change (cycle P i (S (S k)))
      with (nth_error P i :: cycle P ((i + 1) mod List.length P) (S k)).
    rewrite IH by (apply Nat.mod_upper_bound; lia).
    cbn [cycle app]. do 3 f_equal.
    rewrite Nat.Div0.add_mod_idemp_l. do 2 f_equal. lia.
Qed.

Lemma length_cycle P k : forall i, List.length (cycle P i k) = k.
Proof. induction k as [|k IH]; intros i; simpl; [reflexivity|]. rewrite IH. reflexivity. Qed.

Lemma nth_error_cycle P k :
  forall i j, (i < List.length P)%nat -> (j < k)%nat ->
  nth_error (cycle P i k) j = Some (nth_error P ((i + j) mod List.length P)).
Proof.
  induction k as [|k IH]; intros i j Hi Hj; [lia|].
  destruct j as [|j]; cbn [cycle nth_error].
  - rewrite Nat.add_0_r, Nat.mod_small by exact Hi. reflexivity.
  - rewrite IH by (try apply Nat.mod_upper_bound; lia).
    rewrite Nat.Div0.add_mod_idemp_l. do 3 f_equal. lia.
Qed.

(** The state of the playlist after [n] stream ends. *)
Lemma run_round_robin CFG P io :
  P <> [] -> 0 < bytesPerFrame CFG ->
  forall es srv n,
    shuttingDown srv = false -> switching srv = false ->
    spawned srv = cycle P 0 (S n) ->
    currentIndex srv = (S n mod List.length P)%nat ->
    ff srv = Some n ->
    exists srv',
      run CFG P io srv es = Some srv'
      /\ spawned srv' = cycle P 0 (S (n + closes es))
      /\ currentIndex srv' = (S (n + closes es) mod List.length P)%nat
      /\ ff srv' = Some (n + closes es)%nat.
Proof.
  intros Hne Hbpf.
  assert (Hlen : (0 < List.length P)%nat) by (destruct P; [congruence|simpl; lia]).
  induction es as [|e es IH]; intros srv n Hs Hw Hsp Hci Hff.
  - exists srv. cbn [run closes]. rewrite Nat.add_0_r. auto.
  - destruct e as [chunk|]; cbn [run handle closes].
    + destruct (onStdoutData_fields CFG io srv chunk Hbpf)
        as [s1 [E1 [Hi1 [Hf1 [Hs1 [Hw1 Hp1]]]]]].
      rewrite E1. cbn [bind].
      apply (IH s1 n); congruence.
    + cbn [bind].
      destruct (onClose_restart P srv Hs Hw)
        as [_ [Hp [Hf [Hi [Hs1 [Hw1 _]]]]]].
      destruct (IH (onClose P srv) (S n) Hs1 Hw1) as [s2 [E2 H2]].
      * rewrite Hp, Hsp, Hci. symmetry.
        rewrite (cycle_snoc P (S n) 0 Hlen). reflexivity.
      * rewrite Hi, Hci. rewrite Nat.Div0.add_mod_idemp_l. f_equal. lia.
      * rewrite Hf, Hsp, length_cycle. reflexivity.
      * exists s2. rewrite E2. replace (n + S (closes es))%nat
          with (S n + closes es)%nat by lia. auto.
Qed.

(** Round-robin play: for any non-empty playlist and any run of stdout
    chunks and stream ends after start-up (frame size positive, no
    shutdown), the run returns; one child has been started at start-up
    and one for each stream end; the [k]-th child started plays the
    playlist entry [k mod length], which is always an entry of the
    playlist, never [undefined]; the running child is the last one
    started. *)
Theorem playlist_round_robin
    (CFG : config) (PLAYLIST : list string) (io_throws : nat -> bool)
    (es : list event) :
  PLAYLIST <> [] -> 0 < bytesPerFrame CFG ->
  exists srv,
    run CFG PLAYLIST io_throws (initial PLAYLIST) es = Some srv
    /\ List.length (spawned srv) = S (closes es)
    /\ (forall k, (k <= closes es)%nat ->
          exists p, nth_error (spawned srv) k = Some (Some p)
                    /\ nth_error PLAYLIST (k mod List.length PLAYLIST) = Some p)
    /\ ff srv = Some (closes es)
    /\ currentIndex srv = (S (closes es) mod List.length PLAYLIST)%nat.
Proof.
  intros Hne Hbpf.
  assert (Hlen : (0 < List.length PLAYLIST)%nat)
    by (destruct PLAYLIST; [congruence|simpl; lia]).
  destruct (run_round_robin CFG PLAYLIST io_throws Hne Hbpf es
              (initial PLAYLIST) 0 eq_refl eq_refl eq_refl eq_refl eq_refl)
    as [srv [E [Hsp [Hci Hff]]]].
  exists srv. cbn [Nat.add] in *. split; [exact E|].
  split; [rewrite Hsp, length_cycle; reflexivity|].
  split; [|auto].
  intros k Hk. rewrite Hsp, nth_error_cycle by lia. cbn [Nat.add].
  destruct (nth_error PLAYLIST (k mod List.length PLAYLIST)) as [p|] eqn:Ep.
  - exists p. auto.
  - apply nth_error_None in Ep.
    pose proof (Nat.mod_upper_bound k (List.length PLAYLIST) ltac:(lia)). lia.
Qed.

Lemma playlist_round_robin_witness :
  exists srv,
    run (CFG_with 1 1) ["a.mp4"; "b.mp4"]%string (fun _ => false)
        (initial ["a.mp4"; "b.mp4"]%string)
        [Close; StdoutData stream_1x1; Close; Close] = Some srv
    /\ List.length (spawned srv)
       = S (closes [Close; StdoutData stream_1x1; Close; Close])
    /\ (forall k, (k <= closes [Close; StdoutData stream_1x1; Close; Close])%nat ->
          exists p, nth_error (spawned srv) k = Some (Some p)
                    /\ nth_error ["a.mp4"; "b.mp4"]%string
                         (k mod List.length ["a.mp4"; "b.mp4"]%string) = Some p)
    /\ ff srv = Some (closes [Close; StdoutData stream_1x1; Close; Close])
    /\ currentIndex srv
       = (S (closes [Close; StdoutData stream_1x1; Close; Close])
          mod List.length ["a.mp4"; "b.mp4"]%string)%nat.
Proof.
  apply (playlist_round_robin (CFG_with 1 1) ["a.mp4"; "b.mp4"]%string
           (fun _ => false) [Close; StdoutData stream_1x1; Close; Close]).
  - discriminate.
  - reflexivity.
Defined.

(** Deleting from the registry keeps the identities distinct. *)
Lemma Set_delete_NoDup (cs : list socket) (id : nat) :
  NoDup (map sock_id cs) -> NoDup (map sock_id (Set_delete cs id)).
Proof.
  unfold Set_delete. induction cs as [|c cs IH]; intros Hnd; [constructor|].
  cbn [map] in Hnd. apply NoDup_cons_iff in Hnd. destruct Hnd as [Hc Hcs].
  cbn [filter]. destruct (negb (Nat.eqb (sock_id c) id)); [|exact (IH Hcs)].
  cbn [map]. apply NoDup_cons; [|exact (IH Hcs)].
  rewrite in_map_iff. intros [x [Hx Hin]]. apply filter_In in Hin.
  apply Hc. rewrite in_map_iff. exists x. tauto.
Qed.

Lemma NoDup_snoc {A : Type} (l : list A) (x : A) :
  NoDup l -> ~ In x l -> NoDup (l ++ [x]).
Proof.
  induction l as [|a l IH]; intros Hnd Hx; cbn [app].
  - constructor; [intros []|constructor].
  - inversion Hnd as [|? ? Ha Hl]; subst. constructor.
    + intros Hin. apply in_app_or in Hin. destruct Hin as [Hin|[<-|[]]].
      * exact (Ha Hin).
      * apply Hx. left. reflexivity.
    + apply IH; [exact Hl|]. intros Hin. apply Hx. right. exact Hin.
Qed.

Lemma client_ok_new id : client_ok (new_socket id).
Proof. split; [left; split; reflexivity|right; reflexivity]. Qed.

Lemma client_ok_onData CFG c data : client_ok c -> client_ok (onData CFG c data).
Proof.
  intros [Hg Hm]. split; [apply onData_geometry, Hg|apply onData_mode_ok, Hm].
Qed.

Lemma client_ok_write c ch : client_ok c -> client_ok (write c ch).
Proof. intros H. exact H. Qed.

Lemma broadcast_ok CFG io frame cs :
  NoDup (map sock_id cs) -> Forall client_ok cs ->
  NoDup (map sock_id (fst (broadcast CFG io frame cs)))
  /\ Forall client_ok (fst (broadcast CFG io frame cs)).
Proof.
  intros Hnd Hok.
  destruct (broadcast_kept CFG io frame cs) as [_ [Hkept [_ Hn]]].
  split; [apply Hn, Hnd|].
  apply Forall_forall. intros c' Hc'.
  destruct (Hkept c' Hc') as [c [Hin [->|[r ->]]]];
    rewrite Forall_forall in Hok; [apply Hok, Hin|].
  apply client_ok_write, Hok, Hin.
Qed.

Lemma fold_broadcast_ok CFG io frames :
  forall cs,
    NoDup (map sock_id cs) -> Forall client_ok cs ->
    NoDup (map sock_id
             (fold_left (fun cs frame => fst (broadcast CFG io frame cs)) frames cs))
    /\ Forall client_ok
         (fold_left (fun cs frame => fst (broadcast CFG io frame cs)) frames cs).
Proof.
  induction frames as [|f frames IH]; intros cs Hnd Hok; [auto|].
  cbn [fold_left].
  destruct (broadcast_ok CFG io f cs Hnd Hok) as [Hnd' Hok'].
  apply IH; assumption.
Qed.

Lemma onStdoutData_clients CFG io srv chunk :
  0 < bytesPerFrame CFG ->
  exists frames srv',
    onStdoutData CFG io srv chunk = Some srv'
    /\ clients srv' =
         fold_left (fun cs frame => fst (broadcast CFG io frame cs))
                   frames (clients srv)
    /\ Z.of_nat (List.length (leftover srv')) < bytesPerFrame CFG.
Proof.
  intros Hbpf. unfold onStdoutData.
  set (F := fun (frame : list byte) (acc : list socket * list socket) =>
              let '(cs, gone) := broadcast CFG io frame (fst acc) in
              (cs, snd acc ++ gone)).
  destruct (on_chunk_spec CFG Hbpf F (leftover srv) chunk (clients srv, []))
    as [frames [rest [Eo [_ [_ Hr]]]]].
  exists frames. rewrite Eo. cbn [bind fst snd].
  eexists. split; [reflexivity|].
  cbn [with_clients leftover clients].
  split; [apply fold_broadcast_fst|].
  unfold frame_len in Hr. lia.
Qed.

Lemma server_ok_initial CFG P :
  P <> [] -> 0 < bytesPerFrame CFG -> server_ok CFG P (initial P).
Proof.
  intros Hne Hbpf. destruct P as [|p P]; [congruence|].
  unfold server_ok, initial, playNext.
  cbn [clients leftover switching currentIndex ff spawned map List.length
       app nth_error Nat.add Nat.sub].
  split; [constructor|]. split; [constructor|]. split; [exact Hbpf|].
  split; [reflexivity|].
  split; [apply Nat.mod_upper_bound; discriminate|].
  split; [reflexivity|]. split; [discriminate|].
  constructor; [|constructor].
  exists p. split; [reflexivity|left; reflexivity].
Qed.

Lemma server_ok_clients CFG P srv cs :
  server_ok CFG P srv ->
  NoDup (map sock_id cs) -> Forall client_ok cs ->
  server_ok CFG P (set_clients srv cs).
Proof.
  intros [_ [_ H]] Hnd Hok. unfold server_ok, set_clients.
  cbn [clients leftover switching currentIndex ff spawned]. tauto.
Qed.

Lemma server_ok_step CFG P io srv e :
  P <> [] -> 0 < bytesPerFrame CFG -> server_ok CFG P srv ->
  exists srv', serve1 CFG P io srv e = Some srv' /\ server_ok CFG P srv'.
Proof.
  intros Hne Hbpf Hok.
  assert (Hlen : (0 < List.length P)%nat) by (destruct P; [congruence|simpl; lia]).
  pose proof Hok as [Hnd [Hcl [Hlo [Hsw [Hci [Hff [Hsp Hall]]]]]]].
  destruct e as [id|id data|id|id|[chunk|]|]; cbn [serve1 handle].
  - (* a connection *)
    eexists. split; [reflexivity|]. unfold onConnection.
    apply server_ok_clients; [exact Hok| |].
    + unfold Set_add.
      destruct (existsb _ (clients srv)) eqn:E; [exact Hnd|].
      rewrite map_app. cbn [map new_socket sock_id].
      apply NoDup_snoc; [exact Hnd|].
      intros Hin. apply in_map_iff in Hin. destruct Hin as [x [Hx Hin]].
      assert (existsb (fun x => Nat.eqb (sock_id x) (sock_id (new_socket id)))
                      (clients srv) = true).
      { apply existsb_exists. exists x. split; [exact Hin|].
        apply Nat.eqb_eq. exact Hx. }
      congruence.
    + unfold Set_add.
      destruct (existsb _ (clients srv)); [exact Hcl|].
      apply Forall_app. split; [exact Hcl|].
      constructor; [apply client_ok_new|constructor].
  - (* a chunk from a client *)
    eexists. split; [reflexivity|]. unfold onSockData.
    apply server_ok_clients; [exact Hok| |].
    + rewrite map_map.
      replace (map (fun x => sock_id (if Nat.eqb (sock_id x) id
                                      then onData CFG x data else x))
                   (clients srv))
        with (map sock_id (clients srv)); [exact Hnd|].
      apply map_ext. intros c. destruct (Nat.eqb (sock_id c) id); [|reflexivity].
      destruct (onData_fields CFG c data) as [_ [_ [_ [_ [Hi _]]]]]. congruence.
    + apply Forall_forall. intros c' Hc'. apply in_map_iff in Hc'.
      destruct Hc' as [c [<- Hin]]. rewrite Forall_forall in Hcl.
      destruct (Nat.eqb (sock_id c) id);
        [apply client_ok_onData|]; apply Hcl, Hin.
  - (* a socket closed *)
    eexists. split; [reflexivity|]. unfold onSockClose.
    apply server_ok_clients; [exact Hok| |].
    + apply Set_delete_NoDup, Hnd.
    + apply Forall_forall. intros c Hc. apply filter_In in Hc.
      rewrite Forall_forall in Hcl. apply Hcl, Hc.
  - (* a socket failed *)
    eexists. split; [reflexivity|]. unfold onSockError.
    apply server_ok_clients; [exact Hok| |].
    + apply Set_delete_NoDup, Hnd.
    + apply Forall_forall. intros c Hc. apply filter_In in Hc.
      rewrite Forall_forall in Hcl. apply Hcl, Hc.
  - (* a chunk from the decoder *)
    destruct (onStdoutData_clients CFG io srv chunk Hbpf)
      as [frames [s1 [E1 [Hc1 Hl1]]]].
    destruct (onStdoutData_fields CFG io srv chunk Hbpf)
      as [s1' [E1' [Hi1 [Hf1 [Hs1 [Hw1 Hp1]]]]]].
    rewrite E1 in E1'. injection E1' as <-.
    exists s1. split; [exact E1|].
    destruct (fold_broadcast_ok CFG io frames (clients srv) Hnd Hcl) as [Hn Ho].
    unfold server_ok. rewrite Hc1, Hi1, Hf1, Hw1, Hp1. tauto.
  - (* the decoder's stream ended *)
    eexists. split; [reflexivity|].
    destruct (shuttingDown srv) eqn:Hs.
    + unfold onClose, set_leftover. cbn [shuttingDown]. rewrite Hs.
      unfold server_ok.
      cbn [clients leftover switching currentIndex ff spawned List.length].
      split; [exact Hnd|]. split; [exact Hcl|]. split; [lia|].
      split; [exact Hsw|]. split; [exact Hci|]. split; [exact Hff|].
      split; [exact Hsp|exact Hall].
    + destruct (onClose_restart P srv Hs Hsw)
        as [Hl' [Hp' [Hf' [Hi' [_ [Hw' Hc']]]]]].
      unfold server_ok. rewrite Hl', Hp', Hf', Hi', Hw', Hc'.
      split; [exact Hnd|]. split; [exact Hcl|].
      split; [cbn [List.length]; lia|]. split; [reflexivity|].
      split; [apply Nat.mod_upper_bound; lia|].
      split; [rewrite length_app; cbn [List.length]; f_equal; lia|].
      split; [intros E; apply app_eq_nil in E; destruct E as [_ E];
              discriminate E|].
      apply Forall_app. split; [exact Hall|].
      constructor; [|constructor].
      destruct (nth_error P (currentIndex srv)) as [p|] eqn:Ep.
      * exists p. split; [reflexivity|]. apply (nth_error_In _ _ Ep).
      * apply nth_error_None in Ep. lia.
  - (* SIGINT *)
    eexists. split; [reflexivity|]. unfold server_ok, onSigint.
    cbn [clients leftover switching currentIndex ff spawned].
    split; [|split; [|tauto]].
    + rewrite map_map.
      replace (map (fun x => sock_id (if negb (destroyed x)
                                      then write x (Text (ESC ++ "[?25h" ++ NL))
                                      else x)) (clients srv))
        with (map sock_id (clients srv)); [exact Hnd|].
      apply map_ext. intros c. destruct (negb (destroyed c)); reflexivity.
    + apply Forall_forall. intros c' Hc'. apply in_map_iff in Hc'.
      destruct Hc' as [c [<- Hin]]. rewrite Forall_forall in Hcl.
      destruct (negb (destroyed c)); [apply client_ok_write|]; apply Hcl, Hin.
Qed.

(** Invariants of the server.  For a non-empty playlist and a positive
    frame size, whatever connections, client chunks, socket closes and
    errors, decoder chunks and stream ends the event loop delivers after
    start-up, up to a SIGINT, every handler returns, and afterwards: the
    registered sockets are distinct; each has its geometry unset or made
    of two sizes from 1 to 65535, and mode 1 or 2; the carry-over is
    shorter than a frame; the restart guard is down; the playlist cursor
    points inside the playlist; the running child is the last one
    started; and every child was started on an entry of the playlist. *)
Theorem server_invariants
    (CFG : config) (PLAYLIST : list string) (io_throws : nat -> bool)
    (es : list server_event) :
  PLAYLIST <> [] -> 0 < bytesPerFrame CFG ->
  exists srv,
    serve CFG PLAYLIST io_throws (initial PLAYLIST) es = Some srv
    /\ server_ok CFG PLAYLIST srv.
Proof.
  intros Hne Hbpf.
  assert (H : forall srv0, server_ok CFG PLAYLIST srv0 ->
    exists srv, serve CFG PLAYLIST io_throws srv0 es = Some srv
                /\ server_ok CFG PLAYLIST srv).
  { induction es as [|e es IH]; intros srv0 Hok.
    - exists srv0. split; [reflexivity|exact Hok].
    - destruct (server_ok_step CFG PLAYLIST io_throws srv0 e Hne Hbpf Hok)
        as [s1 [E1 Hok1]].
      destruct e as [id|id data|id|id|e|];
        try (cbn [serve]; rewrite E1; cbn [bind]; apply IH, Hok1).
      cbn [serve]. cbn [serve1] in E1. injection E1 as <-.
      eexists. split; [reflexivity|exact Hok1]. }
  apply H, server_ok_initial; assumption.
Qed.

Lemma server_invariants_witness :
  exists srv,
    serve (CFG_with 1 1) ["a.mp4"; "b.mp4"]%string (fun _ => false)
          (initial ["a.mp4"; "b.mp4"]%string)
          [Connection 1; SockData 1 (naws_report 80 24);
           Ffmpeg (StdoutData stream_1x1); Ffmpeg Close; SockClose 1; Sigint]
      = Some srv
    /\ server_ok (CFG_with 1 1) ["a.mp4"; "b.mp4"]%string srv.
Proof.
  apply (server_invariants (CFG_with 1 1) ["a.mp4"; "b.mp4"]%string
           (fun _ => false)).
  - discriminate.
  - reflexivity.
Defined.

End ServerExtras.

(** * Further properties: the playlist *)

Module PlaylistExtras.

Lemma upper_nil s : upper s = EmptyString -> s = EmptyString.
Proof. destruct s; [reflexivity|discriminate]. Qed.

(** The literal takes the whole of [s] exactly when the two are equal up
    to letter case. *)
Lemma match_ci_all p :
  forall s, match_ci p s = Some EmptyString <-> upper s = upper p.
Proof.
  induction p as [|a p IH]; intros s; cbn [match_ci upper].
  - split; intros H.
    + injection H as ->. reflexivity.
    + apply upper_nil in H. rewrite H. reflexivity.
  - destruct s as [|b s]; cbn [upper]; [split; discriminate|].
    destruct (Ascii.eqb (Canonicalize a) (Canonicalize b)) eqn:E.
    + apply Ascii.eqb_eq in E. rewrite IH, E.
      split; intros H; [rewrite H; reflexivity|injection H as H; exact H].
    + apply Ascii.eqb_neq in E.
      split; [discriminate|]. intros H. injection H as H1 _. congruence.
Qed.

Lemma match_at_spec s :
  match_at s = true <->
  exists ext e, s = String "." ext /\ In e VIDEO_EXT /\ upper ext = upper e.
Proof.
  destruct s as [|c rest]; cbn [match_at].
  - split; [discriminate|]. intros [ext [e [H _]]]. discriminate H.
  - rewrite andb_true_iff, existsb_exists, Ascii.eqb_eq. split.
    + intros [-> [e [Hin He]]]. exists rest, e.
      split; [reflexivity|]. split; [exact Hin|].
      apply match_ci_all.
      destruct (match_ci e rest) as [[|? ?]|]; [reflexivity|discriminate..].
    + intros [ext [e [H [Hin He]]]]. injection H as -> ->.
      split; [reflexivity|]. exists e. split; [exact Hin|].
      apply match_ci_all in He. rewrite He. reflexivity.
Qed.

Lemma is_video_spec name : is_video name = true <-> video_name name.
Proof.
  unfold video_name. induction name as [|c name IH].
  - cbn [is_video match_at orb]. split; [discriminate|].
    intros [base [ext [e [H _]]]]. destruct base; discriminate H.
  - cbn [is_video]. rewrite orb_true_iff, match_at_spec, IH. split.
    + intros [[ext [e [H He]]]|[base [ext [e [H He]]]]].
      * exists EmptyString, ext, e. split; [exact H|exact He].
      * exists (String c base), ext, e. rewrite H. split; [reflexivity|exact He].
    + intros [base [ext [e [H He]]]]. destruct base as [|b base].
      * left. exists ext, e. split; [exact H|exact He].
      * right. cbn in H. injection H as -> ->.
        exists base, ext, e. split; [reflexivity|exact He].
Qed.

(** Induction on what a directory holds, at every depth. *)
Lemma node_nested_ind (P : node -> Prop) :
  P File ->
  (forall entries, Forall (fun e => P (snd e)) entries ->
                   P (Directory entries)) ->
  P Other ->
  forall d, P d.
Proof.
  intros HF HD HO. fix IH 1. intros [|entries|]; [exact HF| |exact HO].
  apply HD. induction entries as [|e rest IHr]; constructor;
    [apply IH|exact IHr].
Qed.

Section Collect.

Variable path_join : string -> string -> string.

(** What the loop adds to [results], given that the function behaves on
    the directories among the entries. *)
Lemma collect_entries_spec dir entries :
  Forall (fun e => forall sub, snd e = Directory sub ->
            exists out,
              collectVideosRecursive path_join (path_join dir (fst e)) (snd e)
                = Some out
              /\ forall p, In p out <->
                           listed path_join (path_join dir (fst e)) sub p)
         entries ->
  forall results,
  exists out,
    collect_entries path_join (collectVideosRecursive path_join)
                    dir entries results = Some (results ++ out)
    /\ forall p, In p out <-> listed path_join dir entries p.
Proof.
  induction entries as [|[name entry] rest IH]; intros Hsub results.
  - exists []. rewrite app_nil_r. split; [reflexivity|].
    intros p. split; [intros []|].
    intros H. inversion H as [? ? ? Hin|? ? ? ? ? Hin]; destruct Hin.
  - inversion Hsub as [|? ? Hhd Htl]; subst. cbn [fst snd] in Hhd.
    assert (Hrest : forall p,
              listed path_join dir ((name, entry) :: rest) p <->
              (entry = File /\ video_name name /\ p = path_join dir name)
              \/ (exists sub, entry = Directory sub
                              /\ listed path_join (path_join dir name) sub p)
              \/ listed path_join dir rest p).
    { intros p. split.
      - intros H. inversion H as [? ? n Hin Hv|? ? n sub ? Hin Hl]; subst.
        + destruct Hin as [E|Hin].
          * injection E as E1 E2. subst. left. auto.
          * right. right. apply listed_file; assumption.
        + destruct Hin as [E|Hin].
          * injection E as E1 E2. subst. right. left. exists sub. auto.
          * right. right. apply (listed_sub _ _ _ n sub); assumption.
      - intros [[-> [Hv ->]]|[[sub [-> Hl]]|H]].
        + apply listed_file; [left; reflexivity|exact Hv].
        + apply (listed_sub _ _ _ name sub); [left; reflexivity|exact Hl].
        + inversion H as [? ? n Hin Hv|? ? n sub ? Hin Hl]; subst.
          * apply listed_file; [right; exact Hin|exact Hv].
          * apply (listed_sub _ _ _ n sub); [right; exact Hin|exact Hl]. }
    cbn [collect_entries]. destruct entry as [|sub|].
    + (* a regular file *)
      destruct (is_video name) eqn:Ev.
      * destruct (IH Htl (results ++ [path_join dir name])) as [out [E Hout]].
        exists (path_join dir name :: out).
        rewrite E, <- app_assoc. split; [reflexivity|].
        intros p. rewrite Hrest. cbn [In]. rewrite Hout.
        apply is_video_spec in Ev. split.
        -- intros [<-|H]; [left; auto|right; right; exact H].
        -- intros [[_ [_ ->]]|[[s [E' _]]|H]];
             [left; reflexivity|discriminate E'|right; exact H].
      * destruct (IH Htl results) as [out [E Hout]].
        exists out. split; [exact E|].
        intros p. rewrite Hrest, Hout. split; [auto|].
        intros [[_ [Hv _]]|[[s [E' _]]|H]]; [|discriminate E'|exact H].
        apply is_video_spec in Hv. congruence.
    + (* a directory *)
      destruct (Hhd sub eq_refl) as [out1 [E1 Hout1]].
      rewrite E1. cbn [bind].
      destruct (IH Htl (results ++ out1)) as [out [E Hout]].
      exists (out1 ++ out). rewrite E, <- app_assoc. split; [reflexivity|].
      intros p. rewrite Hrest, in_app_iff, Hout1, Hout. split.
      * intros [H|H]; [right; left; exists sub; auto|right; right; exact H].
      * intros [[E' _]|[[s [E' H]]|H]];
          [discriminate E'|injection E' as <-; left; exact H|right; exact H].
    + (* neither *)
      destruct (IH Htl results) as [out [E Hout]].
      exists out. split; [exact E|].
      intros p. rewrite Hrest, Hout. split; [auto|].
      intros [[E' _]|[[s [E' _]]|H]]; [discriminate E'..|exact H].
Qed.

Lemma collectVideosRecursive_spec :
  forall d dir sub, d = Directory sub ->
    exists out,
      collectVideosRecursive path_join dir d = Some out
      /\ forall p, In p out <-> listed path_join dir sub p.
Proof.
  induction d as [|entries IH|] using node_nested_ind; intros dir sub E;
    [discriminate E| |discriminate E].
  injection E as <-. cbn [collectVideosRecursive].
  destruct (collect_entries_spec dir entries) with (results := @nil string)
    as [out [E Hout]].
  - apply Forall_forall. intros e He s Hs.
    rewrite Forall_forall in IH. apply (IH e He). exact Hs.
  - exists out. split; [exact E|exact Hout].
Qed.

End Collect.

(** The videos collected under a directory.  On a directory the function
    returns, and a path is in its result exactly when it is the joined
    path of a regular file whose name ends in a dot and one of mp4, mkv,
    webm, mov, avi, in any letter case, found in the directory or at any
    depth below it.  So a directory is searched whatever its name, and an
    entry that is neither a regular file nor a directory is left out. *)
Theorem collectVideosRecursive_lists_videos
    (path_join : string -> string -> string) (dir : string)
    (entries : list (string * node)) :
  exists results,
    collectVideosRecursive path_join dir (Directory entries) = Some results
    /\ forall p, In p results <-> listed path_join dir entries p.
Proof.
  exact (collectVideosRecursive_spec path_join (Directory entries) dir entries
           eq_refl).
Qed.

End PlaylistExtras.
